(** * Document comparison and PII masking: a shallow embedding

    The development follows the Python sources of the repository:

    - [pii_ocr_masking.py]: [DocumentProcessor.mask_pii], [parse_image],
      [compare_texts] and the report assembly of [process_directory];
    - [pii_sum_ollama.py] / [pii_report_sum.py]: the section parser
      [DiffReportProcessor.read_diff_file] (the two files hold the same
      function, character for character), [generate_readable_diff] and
      [process_report];
    - [image_comparison.py]: [encode_image], [compare_image_pair] and
      [process_and_compare_images];
    - [main.py]: [encode_image], [pdf_to_images], [compare_pdf_pair] and
      [process_and_compare_pdfs].

    Python [str] values are modelled as [string]; a character is a code point
    below 256.  Python built-ins ([str.splitlines], [str.startswith],
    [str.strip], [str.join]) get executable definitions in module [Py]. *)

From Stdlib Require Import String Ascii NArith List Arith Lia DecimalString QArith Qminmax.
From stdpp Require Import list strings gmap sorting.

Open Scope string_scope.
Open Scope list_scope.
Open Scope nat_scope.

(* ================================================================= *)
(** ** Python built-ins *)

Module Py.

Definition nl : string := String "010"%char EmptyString.

(** [str.isspace] on one character: TAB..CR, FS..US, space, NEL, NBSP. *)
Definition isspace (c : ascii) : bool :=
  let n := N_of_ascii c in
  ((9 <=? n) && (n <=? 13) || (28 <=? n) && (n <=? 32)
   || (n =? 133) || (n =? 160))%N.

(** The line boundaries of [str.splitlines]: LF, VT, FF, CR, FS, GS, RS and
    NEL (and CR LF, taken as one boundary). *)
Definition is_linebreak (c : ascii) : bool :=
  let n := N_of_ascii c in
  ((10 <=? n) && (n <=? 13) || (28 <=? n) && (n <=? 30) || (n =? 133))%N.

Definition is_cr (c : ascii) : bool := (N_of_ascii c =? 13)%N.
Definition is_lf (c : ascii) : bool := (N_of_ascii c =? 10)%N.

(** [s.splitlines()]: the lines of [s] without their terminators; a
    terminator at the very end opens no further line.  [after_cr] tells that
    the character before was a CR, whose LF belongs to the same boundary. *)
Fixpoint splitlines_from (after_cr : bool) (s : string) : list string :=
  match s with
  | EmptyString => []
  | String c rest =>
    if after_cr && is_lf c then splitlines_from false rest
    else if is_linebreak c then
      EmptyString :: splitlines_from (is_cr c) rest
    else
      match splitlines_from false rest with
      | [] => [String c EmptyString]
      | l :: ls => String c l :: ls
      end
  end.

Definition splitlines (s : string) : list string := splitlines_from false s.

(** [s.startswith(p)] *)
Definition startswith (s p : string) : bool := String.prefix p s.

Fixpoint lstrip (s : string) : string :=
  match s with
  | String c rest => if isspace c then lstrip rest else s
  | EmptyString => EmptyString
  end.

(** [s.strip()] with no argument: white space removed at both ends. *)
Definition strip (s : string) : string :=
  String.rev (lstrip (String.rev (lstrip s))).

(** [sep.join(parts)] *)
Definition join (sep : string) (parts : list string) : string :=
  String.concat sep parts.

(** Truth value of a [str]: non-empty. *)
Definition truthy (s : string) : bool :=
  match s with EmptyString => false | String _ _ => true end.

End Py.

(* ================================================================= *)
(** ** The section parser: [DiffReportProcessor.read_diff_file] *)

Module DiffReport.

(** The dict built for one comparison:
    [{"comparison": line, "header": header[-2:], "diff": ...}]. *)
Record section := mk_section {
  comparison : string;
  header : list string;
  diff : string
}.

(** The loop's variables: [sections], [current_section] ([None] before the
    first comparison line), [diff_lines] and [header]. *)
Record parser := mk_parser {
  sections : list section;
  current_section : option section;
  diff_lines : list string;
  header_lines : list string
}.

Definition is_comparison (line : string) : bool :=
  Py.startswith line "Comparison:".

Definition is_header (line : string) : bool :=
  Py.startswith line "Document Comparison Report"
  || Py.startswith line "Generated:".

(** [header[-2:] if header else []] *)
Definition last_two (header : list string) : list string :=
  drop (length header - 2) header.

(** [current_section["diff"] = "\n".join(diff_lines);
     sections.append(current_section)] *)
Definition close_section (cur : section) (lines : list string)
    (done : list section) : list section :=
  done ++ [mk_section (comparison cur) (header cur) (Py.join Py.nl lines)].

(** One iteration of [for line in content.splitlines()]. *)
Definition step (st : parser) (line : string) : parser :=
  if is_comparison line then
    mk_parser
      (match current_section st with
       | Some cur => close_section cur (diff_lines st) (sections st)
       | None => sections st
       end)
      (Some (mk_section line (last_two (header_lines st)) EmptyString))
      []
      (header_lines st)
  else if is_header line then
    mk_parser (sections st) (current_section st) (diff_lines st)
              (header_lines st ++ [line])
  else
    match current_section st with
    | Some _ =>
      if Py.truthy (Py.strip line) then
        mk_parser (sections st) (current_section st)
                  (diff_lines st ++ [line]) (header_lines st)
      else st
    | None => st
    end.

(** After the loop: [if current_section and diff_lines: ...]. *)
Definition finish (st : parser) : list section :=
  match current_section st, diff_lines st with
  | Some cur, _ :: _ => close_section cur (diff_lines st) (sections st)
  | _, _ => sections st
  end.

Definition initial : parser := mk_parser [] None [] [].

(** [read_diff_file], as a function of the file's content. *)
Definition read_diff_file (content : string) : list section :=
  finish (fold_left step (Py.splitlines content) initial).

(** *** The parser's result read off the lines directly *)

(** The lines from the start of [ls] up to the next comparison line. *)
Fixpoint until_comparison (ls : list string) : list string :=
  match ls with
  | [] => []
  | l :: ls' => if is_comparison l then [] else l :: until_comparison ls'
  end.

(** Each comparison line with the lines between it and the next one. *)
Fixpoint blocks (ls : list string) : list (string * list string) :=
  match ls with
  | [] => []
  | l :: ls' =>
    if is_comparison l then (l, until_comparison ls') :: blocks ls'
    else blocks ls'
  end.

Definition nonblank (line : string) : bool := Py.truthy (Py.strip line).

(** The lines of a block that reach the [diff] field: neither blank nor
    report-header lines. *)
Definition kept (line : string) : bool := negb (is_header line) && nonblank line.

(** One entry per block, the last block only when [keep] leaves it a line. *)
Fixpoint render_blocks (keep : string -> bool)
    (bs : list (string * list string)) : list (string * string) :=
  match bs with
  | [] => []
  | (c, body) :: bs' =>
    match bs', List.filter keep body with
    | [], [] => []
    | _, lines => (c, Py.join Py.nl lines) :: render_blocks keep bs'
    end
  end.

(** The entry of a block whose kept lines are already known. *)
Definition render_from (keep : string -> bool) (c : string)
    (lines : list string) (bs : list (string * list string))
    : list (string * string) :=
  match bs, lines with
  | [], [] => []
  | _, _ => (c, Py.join Py.nl lines) :: render_blocks keep bs
  end.

(** The sections as the claim words them: the non-blank lines of every
    block, the last block dropped when all its lines are blank. *)
Definition sections_by_nonblank (content : string) : list (string * string) :=
  render_blocks nonblank (blocks (Py.splitlines content)).

(** The same with the report-header lines left out of the blocks as well. *)
Definition sections_by_kept (content : string) : list (string * string) :=
  render_blocks kept (blocks (Py.splitlines content)).

Definition summary (s : section) : string * string := (comparison s, diff s).

End DiffReport.


(* ================================================================= *)
(** ** Python's [difflib]: [SequenceMatcher] and [unified_diff]

    [compare_texts] calls [difflib.unified_diff(lines1, lines2,
    fromfile=name1, tofile=name2, lineterm='')].  The definitions below
    follow the library's algorithm for that call: [SequenceMatcher(None, a,
    b)] with its default [autojunk=True], [get_matching_blocks],
    [get_opcodes], [get_grouped_opcodes(n)] and the rendering loop of
    [unified_diff].  Indices are natural numbers; where Python computes
    [max(i1, i2 - n)] on integers the truncated subtraction gives the same
    value. *)

Module Difflib.

(** [Match(a, b, size)] *)
Record Match := mk_match { m_a : nat; m_b : nat; m_size : nat }.

(** The tags of an opcode. *)
Inductive tag := Equal | Replace | Delete | Insert.

(** [(tag, i1, i2, j1, j2)]: [a[i1:i2]] becomes [b[j1:j2]]. *)
Record opcode := mk_op {
  op_tag : tag; op_i1 : nat; op_i2 : nat; op_j1 : nat; op_j2 : nat
}.

(** [l[i:j]] *)
Definition slice {A} (l : list A) (i j : nat) : list A := take (j - i) (drop i l).

(** Indices of [elt] in [l], ascending, counted from [start]. *)
Fixpoint positions (elt : string) (l : list string) (start : nat) : list nat :=
  match l with
  | [] => []
  | x :: l' =>
    if String.eqb x elt then start :: positions elt l' (S start)
    else positions elt l' (S start)
  end.

Section SequenceMatcher.

Variables a b : list string.

(** [__chain_b]: with [isjunk=None] no element is junk; with [autojunk] an
    element of a [b] of 200 items or more that occurs more than
    [len(b) // 100 + 1] times is popular and loses its entry in [b2j]. *)
Definition isbjunk (elt : string) : bool := false.

Definition is_popular (elt : string) : bool :=
  (200 <=? length b) && (length b / 100 + 1 <? length (positions elt b 0)).

(** [b2j.get(elt, nothing)] *)
Definition b2j_get (elt : string) : list nat :=
  if is_popular elt then [] else positions elt b 0.

(** [a[i] == b[j]] for indices in range. *)
Definition eq_at (i j : nat) : bool :=
  match a !! i, b !! j with
  | Some x, Some y => String.eqb x y
  | _, _ => false
  end.

Definition junk_at (j : nat) : bool :=
  match b !! j with Some y => isbjunk y | None => false end.

(** [j2len.get(j - 1, 0)]: no key is negative. *)
Definition j2len_get (j2len : gmap nat nat) (j : nat) : nat :=
  match j with
  | O => 0
  | S j' => default 0 (j2len !! j')
  end.

(** The inner loop [for j in b2j.get(a[i], nothing)] of
    [find_longest_match]; [k <= i + 1] always, so [i - k + 1] is
    [i + 1 - k]. *)
Fixpoint scan_row (blo bhi i : nat) (j2len : gmap nat nat) (js : list nat)
    (best : Match) (newj2len : gmap nat nat) : Match * gmap nat nat :=
  match js with
  | [] => (best, newj2len)
  | j :: js' =>
    if j <? blo then scan_row blo bhi i j2len js' best newj2len
    else if bhi <=? j then (best, newj2len)
    else
      let k := j2len_get j2len j + 1 in
      scan_row blo bhi i j2len js'
        (if m_size best <? k then mk_match (i + 1 - k) (j + 1 - k) k else best)
        (<[j := k]> newj2len)
  end.

(** The outer loop [for i in range(alo, ahi)]. *)
Fixpoint scan_rows (blo bhi : nat) (rows : list nat) (j2len : gmap nat nat)
    (best : Match) : Match :=
  match rows with
  | [] => best
  | i :: rows' =>
    let '(best', newj2len) :=
      scan_row blo bhi i j2len
        (match a !! i with Some x => b2j_get x | None => [] end) best ∅ in
    scan_rows blo bhi rows' newj2len best'
  end.

(** [while besti > alo and bestj > blo and (not) isbjunk(b[bestj-1]) and
    a[besti-1] == b[bestj-1]]: one step to the left per iteration. *)
Fixpoint extend_left (junk : bool) (alo blo besti bestj bestsize : nat) : Match :=
  match besti, bestj with
  | S i', S j' =>
    if (alo <? besti) && (blo <? bestj)
       && Bool.eqb (junk_at j') junk && eq_at i' j'
    then extend_left junk alo blo i' j' (S bestsize)
    else mk_match besti bestj bestsize
  | _, _ => mk_match besti bestj bestsize
  end.

(** [while besti+bestsize < ahi and bestj+bestsize < bhi and (not)
    isbjunk(b[bestj+bestsize]) and a[besti+bestsize] == b[bestj+bestsize]];
    [room] is [ahi - (besti + bestsize)]. *)
Fixpoint extend_right (junk : bool) (bhi besti bestj : nat) (room bestsize : nat)
    : Match :=
  match room with
  | O => mk_match besti bestj bestsize
  | S room' =>
    if (bestj + bestsize <? bhi)
       && Bool.eqb (junk_at (bestj + bestsize)) junk
       && eq_at (besti + bestsize) (bestj + bestsize)
    then extend_right junk bhi besti bestj room' (S bestsize)
    else mk_match besti bestj bestsize
  end.

Definition extend (junk : bool) (alo ahi blo bhi : nat) (m : Match) : Match :=
  let l := extend_left junk alo blo (m_a m) (m_b m) (m_size m) in
  extend_right junk bhi (m_a l) (m_b l) (ahi - (m_a l + m_size l)) (m_size l).

(** [find_longest_match(alo, ahi, blo, bhi)] *)
Definition find_longest_match (alo ahi blo bhi : nat) : Match :=
  let best := scan_rows blo bhi (seq alo (ahi - alo)) ∅ (mk_match alo blo 0) in
  extend true alo ahi blo bhi (extend false alo ahi blo bhi best).

(** The work list of [get_matching_blocks]: [queue.pop()] takes the item
    appended last, so the list's head is the queue's end.  Every item costs
    one unit of [fuel]. *)
Fixpoint matching_loop (fuel : nat) (queue : list (nat * nat * nat * nat))
    (blocks : list Match) : list (nat * nat * nat * nat) * list Match :=
  match fuel, queue with
  | S fuel', (alo, ahi, blo, bhi) :: queue' =>
    let x := find_longest_match alo ahi blo bhi in
    let i := m_a x in
    let j := m_b x in
    let k := m_size x in
    if 0 <? k then
      let q1 := if (alo <? i) && (blo <? j)
                then (alo, i, blo, j) :: queue' else queue' in
      let q2 := if (i + k <? ahi) && (j + k <? bhi)
                then (i + k, ahi, j + k, bhi) :: q1 else q1 in
      matching_loop fuel' q2 (blocks ++ [x])
    else matching_loop fuel' queue' blocks
  | _, _ => (queue, blocks)
  end.

(** The order of [matching_blocks.sort()]: tuples compare item by item. *)
Definition match_le (x y : Match) : Prop :=
  m_a x < m_a y
  \/ (m_a x = m_a y /\ (m_b x < m_b y \/ (m_b x = m_b y /\ m_size x <= m_size y))).

#[global] Instance match_le_dec : RelDecision match_le.
Proof. intros x y. unfold match_le. apply _. Defined.

(** The loop that joins adjacent blocks; the state is [(i1, j1, k1)] and
    [non_adjacent]. *)
Definition collapse_step (st : Match * list Match) (x : Match)
    : Match * list Match :=
  let '(cur, non_adjacent) := st in
  if (m_a cur + m_size cur =? m_a x) && (m_b cur + m_size cur =? m_b x)
  then (mk_match (m_a cur) (m_b cur) (m_size cur + m_size x), non_adjacent)
  else (x, if 0 <? m_size cur then non_adjacent ++ [cur] else non_adjacent).

Definition collapse (blocks : list Match) : list Match :=
  let '(cur, non_adjacent) := fold_left collapse_step blocks (mk_match 0 0 0, []) in
  if 0 <? m_size cur then non_adjacent ++ [cur] else non_adjacent.

(** [get_matching_blocks()]: the blocks found, sorted, adjacent ones joined,
    and the sentinel [(la, lb, 0)] at the end. *)
Definition get_matching_blocks : list Match :=
  let found := snd (matching_loop (2 * length a + 2)
                      [(0, length a, 0, length b)] []) in
  collapse (merge_sort match_le found) ++ [mk_match (length a) (length b) 0].

(** One iteration of the loop of [get_opcodes]; the state is [(i, j)] and
    [answer]. *)
Definition opcode_step (st : nat * nat * list opcode) (x : Match)
    : nat * nat * list opcode :=
  let '(i, j, answer) := st in
  let ai := m_a x in
  let bj := m_b x in
  let size := m_size x in
  let answer1 :=
    if (i <? ai) && (j <? bj) then answer ++ [mk_op Replace i ai j bj]
    else if i <? ai then answer ++ [mk_op Delete i ai j bj]
    else if j <? bj then answer ++ [mk_op Insert i ai j bj]
    else answer in
  (ai + size, bj + size,
   if 0 <? size then answer1 ++ [mk_op Equal ai (ai + size) bj (bj + size)]
   else answer1).

Definition get_opcodes : list opcode :=
  snd (fold_left opcode_step get_matching_blocks (0, 0, [])).

Definition is_equal (t : tag) : bool :=
  match t with Equal => true | _ => false end.

(** [codes[0] = tag, max(i1, i2-n), i2, max(j1, j2-n), j2] when the first
    opcode is [equal]. *)
Definition trim_first (n : nat) (codes : list opcode) : list opcode :=
  match codes with
  | c :: rest =>
    if is_equal (op_tag c) then
      mk_op Equal (max (op_i1 c) (op_i2 c - n)) (op_i2 c)
                  (max (op_j1 c) (op_j2 c - n)) (op_j2 c) :: rest
    else codes
  | [] => codes
  end.

(** [codes[-1] = tag, i1, min(i2, i1+n), j1, min(j2, j1+n)] when the last
    opcode is [equal]. *)
Fixpoint trim_last (n : nat) (codes : list opcode) : list opcode :=
  match codes with
  | [] => []
  | [c] =>
    if is_equal (op_tag c) then
      [mk_op Equal (op_i1 c) (min (op_i2 c) (op_i1 c + n))
                   (op_j1 c) (min (op_j2 c) (op_j1 c + n))]
    else [c]
  | c :: rest => c :: trim_last n rest
  end.

(** The grouping loop; the state is the groups yielded so far and the
    current [group]. *)
Definition group_step (n : nat) (st : list (list opcode) * list opcode)
    (c : opcode) : list (list opcode) * list opcode :=
  let '(yielded, group) := st in
  if is_equal (op_tag c) && (n + n <? op_i2 c - op_i1 c) then
    (yielded ++ [group ++ [mk_op Equal (op_i1 c) (min (op_i2 c) (op_i1 c + n))
                                       (op_j1 c) (min (op_j2 c) (op_j1 c + n))]],
     [mk_op Equal (max (op_i1 c) (op_i2 c - n)) (op_i2 c)
                  (max (op_j1 c) (op_j2 c - n)) (op_j2 c)])
  else (yielded, group ++ [c]).

(** [get_grouped_opcodes(n)] *)
Definition get_grouped_opcodes (n : nat) : list (list opcode) :=
  let codes := match get_opcodes with
               | [] => [mk_op Equal 0 1 0 1]
               | cs => cs
               end in
  let codes := trim_last n (trim_first n codes) in
  let '(yielded, group) := fold_left (group_step n) codes ([], []) in
  match group with
  | [] => yielded
  | [c] => if is_equal (op_tag c) then yielded else yielded ++ [group]
  | _ => yielded ++ [group]
  end.

Definition str_of_nat (n : nat) : string :=
  NilEmpty.string_of_uint (Nat.to_uint n).

(** [_format_range_unified(start, stop)] *)
Definition format_range_unified (start stop : nat) : string :=
  let beginning := start + 1 in
  let length := stop - start in
  if length =? 1 then str_of_nat beginning
  else
    let beginning := if length =? 0 then beginning - 1 else beginning in
    str_of_nat beginning +:+ "," +:+ str_of_nat length.

Definition prefixed (p : string) (lines : list string) : list string :=
  map (fun line => p +:+ line) lines.

(** The lines one opcode contributes to its hunk. *)
Definition render_op (c : opcode) : list string :=
  match op_tag c with
  | Equal => prefixed " " (slice a (op_i1 c) (op_i2 c))
  | Replace => prefixed "-" (slice a (op_i1 c) (op_i2 c))
               ++ prefixed "+" (slice b (op_j1 c) (op_j2 c))
  | Delete => prefixed "-" (slice a (op_i1 c) (op_i2 c))
  | Insert => prefixed "+" (slice b (op_j1 c) (op_j2 c))
  end.

(** One hunk: the [@@] line built from [group[0]] and [group[-1]], then
    the opcodes' lines. *)
Definition render_group (group : list opcode) : list string :=
  match group, last group with
  | first :: _, Some last_op =>
    ("@@ -" +:+ format_range_unified (op_i1 first) (op_i2 last_op)
     +:+ " +" +:+ format_range_unified (op_j1 first) (op_j2 last_op)
     +:+ " @@")
    :: concat (map render_op group)
  | _, _ => []
  end.

(** [unified_diff(a, b, fromfile, tofile, n=n, lineterm='')]: the two file
    lines come before the first hunk, and only if there is one. *)
Definition unified_diff (fromfile tofile : string) (n : nat) : list string :=
  match get_grouped_opcodes n with
  | [] => []
  | groups =>
    ("--- " +:+ fromfile) :: ("+++ " +:+ tofile)
    :: concat (map render_group groups)
  end.

End SequenceMatcher.

(** Reading a unified diff back: after the two file lines, a line that
    begins with a character of [keep] gives the line of the document it
    stands for; the [@@] lines give none. *)
Definition pick_line (keep : ascii -> bool) (line : string) : list string :=
  match line with
  | String c rest => if keep c then [rest] else []
  | EmptyString => []
  end.

Definition side (keep : ascii -> bool) (diff : list string) : list string :=
  flat_map (pick_line keep) (drop 2 diff).

(** The source-side lines of all hunks: context and deleted lines. *)
Definition source_side : list string -> list string :=
  side (fun c => Ascii.eqb c " " || Ascii.eqb c "-").

(** The target-side lines of all hunks: context and added lines. *)
Definition target_side : list string -> list string :=
  side (fun c => Ascii.eqb c " " || Ascii.eqb c "+").

End Difflib.

(* ================================================================= *)
(** ** [pii_ocr_masking.py]: the document processor *)

(** The result of a call that may raise: the value returned, or the
    exception caught by [except Exception as e], kept as [str(e)]. *)
Inductive outcome (A : Type) : Type :=
| Returned (x : A)
| Raised (e : string).
Arguments Returned {A} x.
Arguments Raised {A} e.

#[global] Instance outcome_ret : MRet outcome := fun A x => Returned x.
#[global] Instance outcome_bind : MBind outcome := fun A B f c =>
  match c with
  | Returned x => f x
  | Raised e => Raised e
  end.

(** Records of the module's [logger]. *)
Inductive level := INFO | WARNING | ERROR.
Definition log_record : Type := level * string.

(** A computation that logs: its value and the records it emitted. *)
Definition logged (A : Type) : Type := A * list log_record.

Definition log (lv : level) (msg : string) : logged unit := (tt, [(lv, msg)]).

#[global] Instance logged_ret : MRet logged := fun A x => (x, []).
#[global] Instance logged_bind : MBind logged := fun A B f c =>
  let '(x, l1) := c in
  let '(y, l2) := f x in
  (y, l1 ++ l2).

(** *** The Presidio objects the processor holds *)

(** [RecognizerResult(entity_type, start, end, score)] *)
Record RecognizerResult := mk_result {
  entity_type : string;
  start : nat;
  end_ : nat;
  score : Q
}.

(** [OperatorConfig(operator_name, {"new_value": new_value})] *)
Record OperatorConfig := mk_operator {
  operator_name : string;
  new_value : string
}.

(** [AnalyzerEngine.analyze(text, language, entities, score_threshold)] *)
Record AnalyzerEngine := mk_analyzer {
  analyze : string -> string -> list string -> Q
            -> outcome (list RecognizerResult)
}.

(** [AnonymizerEngine.anonymize(text, analyzer_results, operators).text] *)
Record AnonymizerEngine := mk_anonymizer {
  anonymize : string -> list RecognizerResult -> gmap string OperatorConfig
              -> outcome string
}.

Record DocumentProcessor := mk_processor {
  analyzer : AnalyzerEngine;
  anonymizer : AnonymizerEngine
}.

(** A Python [dict] with [str] keys, in insertion order. *)
Definition dict (V : Type) : Type := list (string * V).

Fixpoint dict_set {V} (d : dict V) (k : string) (v : V) : dict V :=
  match d with
  | [] => [(k, v)]
  | (k', v') :: d' =>
    if String.eqb k' k then (k', v) :: d' else (k', v') :: dict_set d' k v
  end.

Fixpoint dict_get {V} (d : dict V) (k : string) : option V :=
  match d with
  | [] => None
  | (k', v') :: d' => if String.eqb k' k then Some v' else dict_get d' k
  end.

Definition keys {V} (d : dict V) : list string := map fst d.

Module Processor.

Definition entities : list string :=
  ["PERSON"; "EMAIL_ADDRESS"; "PHONE_NUMBER"; "SSN";
   "CREDIT_CARD"; "LOCATION"; "ORGANIZATION"; "POLICY_NUMBER"].

Definition score_threshold : Q := 6 # 10.

(** [f"<{entity_type}>"] *)
Definition placeholder (entity_type : string) : string :=
  "<" +:+ entity_type +:+ ">".

(** [{r.entity_type: OperatorConfig("replace", {"new_value":
    f"<{r.entity_type}>"}) for r in results}] *)
Definition operators (results : list RecognizerResult)
    : gmap string OperatorConfig :=
  fold_left
    (fun ops r =>
       <[entity_type r := mk_operator "replace" (placeholder (entity_type r))]> ops)
    results ∅.

(** ['=' * 80] *)
Definition rule : string := string_of_list_ascii (repeat "="%char 80).

Section WithProcessor.

Variable self : DocumentProcessor.

(** The image reader: [Image.open] followed by
    [pytesseract.image_to_string(img, lang='eng')], by file name. *)
Variable image_to_string : string -> outcome string.

(** [str(datetime.now())] *)
Variable now : string.

(** The body of the [try] block of [mask_pii]. *)
Definition mask_pii_try (text : string) : outcome (logged string) :=
  results ← analyze (analyzer self) text "en" entities score_threshold;
  let ops := operators results in
  masked_text ← anonymize (anonymizer self) text results ops;
  mret (masked_text,
            [(INFO, "Masked " +:+ Difflib.str_of_nat (length results)
                    +:+ " PII entities")]).

(** [mask_pii(text)] *)
Definition mask_pii (text : string) : logged string :=
  match mask_pii_try text with
  | Returned r => r
  | Raised e => (text, [(ERROR, "Error masking PII: " +:+ e)])
  end.

(** [parse_image(image_path)]; the path is kept by its [name], which is
    also what stands for the whole path in the ERROR record. *)
Definition parse_image (name : string) : logged string :=
  match image_to_string name with
  | Returned text =>
    (text, [(INFO, "Parsed " +:+ name +:+ ": "
                   +:+ Difflib.str_of_nat (String.length text)
                   +:+ " characters")])
  | Raised e => (EmptyString, [(ERROR, "Failed to parse " +:+ name +:+ ": " +:+ e)])
  end.

(** [compare_texts(text1, text2, name1, name2)] *)
Definition compare_texts (text1 text2 name1 name2 : string) : list string :=
  Difflib.unified_diff (Py.splitlines text1) (Py.splitlines text2) name1 name2 3.

(** The opcodes of the hunks that [compare_texts] renders, in order. *)
Definition diff_hunks (text1 text2 : string) : list Difflib.opcode :=
  concat (Difflib.get_grouped_opcodes (Py.splitlines text1)
                                      (Py.splitlines text2) 3).

(** The loop [for img in images: text = parse_image(img); if text:
    documents[img.name] = text]. *)
Fixpoint parse_all (images : list string) (documents : dict string)
    : logged (dict string) :=
  match images with
  | [] => mret documents
  | img :: rest =>
    text ← parse_image img;
    parse_all rest (if Py.truthy text then dict_set documents img text
                    else documents)
  end.

(** [for i, name1 in enumerate(documents): for name2 in
    list(documents.keys())[i + 1:]] *)
Definition pairs (documents : dict string) : list (string * string) :=
  concat (imap (fun i name1 =>
                  map (fun name2 => (name1, name2)) (drop (S i) (keys documents)))
               (keys documents)).

(** [f"Comparison: {name1} vs {name2}\n{'=' * 80}\n"] *)
Definition comparison_header (name1 name2 : string) : string :=
  "Comparison: " +:+ name1 +:+ " vs " +:+ name2 +:+ Py.nl +:+ rule +:+ Py.nl.

(** [f"\n{'=' * 80}\n\n"] *)
Definition section_end : string := Py.nl +:+ rule +:+ Py.nl +:+ Py.nl.

Definition diff_text (diff : list string) : string :=
  match diff with
  | [] => "No Differences Found" +:+ Py.nl
  | _ => "Differences Found:" +:+ Py.nl +:+ Py.join Py.nl diff +:+ Py.nl
  end.

(** [documents[name]]; the names come from the dict's own keys. *)
Definition text_of (documents : dict string) (name : string) : string :=
  default EmptyString (dict_get documents name).

(** The body of the inner loop for one pair: the section appended to
    [unmasked_report] and the one appended to [masked_report]. *)
Definition compare_pair (documents : dict string) (p : string * string)
    : logged (string * string) :=
  let '(name1, name2) := p in
  log INFO ("Comparing " +:+ name1 +:+ " with " +:+ name2);;
  let diff := compare_texts (text_of documents name1) (text_of documents name2)
                            name1 name2 in
  let header := comparison_header name1 name2 in
  let body := diff_text diff in
  masked_diff ← mask_pii body;
  mret (header +:+ body +:+ section_end, header +:+ masked_diff +:+ section_end).

Fixpoint compare_all (documents : dict string) (ps : list (string * string))
    (unmasked_report masked_report : list string)
    : logged (list string * list string) :=
  match ps with
  | [] => mret (unmasked_report, masked_report)
  | p :: ps' =>
    s ← compare_pair documents p;
    compare_all documents ps' (unmasked_report ++ [fst s])
                (masked_report ++ [snd s])
  end.

(** The loop that writes [masked_{name}_{timestamp}.txt]. *)
Fixpoint mask_documents (documents : dict string) : logged (dict string) :=
  match documents with
  | [] => mret []
  | (name, text) :: rest =>
    masked_text ← mask_pii text;
    others ← mask_documents rest;
    mret ((name, masked_text) :: others)
  end.

(** What [process_directory] writes: the two reports and the masked
    documents. *)
Record written := mk_written {
  unmasked_file : string;
  masked_file : string;
  masked_docs : dict string
}.

Definition report_title : string :=
  "Document Comparison Report" +:+ Py.nl +:+ "Generated: " +:+ now
  +:+ Py.nl +:+ Py.nl.

(** [process_directory()], from the sorted list of image names found in
    the input directory, which is taken to exist; [None] is the early
    [return] (nothing written).  The result holds the contents of the two
    report files and of the masked documents; the file names and the
    records logged as each file is saved are left out. *)
Definition process_directory (images : list string) : logged (option written) :=
  log INFO ("Found " +:+ Difflib.str_of_nat (length images) +:+ " images");;
  if length images <? 2 then
    log WARNING "Need at least 2 images to compare";;
    mret None
  else
    documents ← parse_all images [];
    reports ← compare_all documents (pairs documents)
                          [report_title] [report_title];
    docs ← mask_documents documents;
    mret (Some (mk_written (Py.join EmptyString (fst reports))
                           (Py.join EmptyString (snd reports)) docs)).

(** The sections of the two reports, pair by pair. *)
Definition report_sections (images : list string)
    : list ((string * string) * (string * string)) :=
  let documents := fst (parse_all images []) in
  map (fun p => (p, fst (compare_pair documents p))) (pairs documents).

End WithProcessor.

End Processor.

(* ================================================================= *)
(** ** The patterns of [_setup_presidio]

    The six [Pattern]s are regular expressions in Python's syntax.  They are
    read with the semantics of Python's [re] under the flags Presidio's
    [PatternRecognizer] compiles with ([DOTALL | MULTILINE | IGNORECASE]):
    a backtracking search that takes the first match in priority order at
    the leftmost position.  Only the constructs the six patterns use are
    modelled; quantifiers apply to one-character atoms, as they do there. *)

Module Re.

Definition code_in (lo hi : N) (c : ascii) : bool :=
  let n := N_of_ascii c in ((lo <=? n) && (n <=? hi))%N.

Definition chr (c d : ascii) : bool := Ascii.eqb c d.

(** [\d] *)
Definition digit (c : ascii) : bool := code_in 48 57 c.

Definition ascii_letter (c : ascii) : bool := code_in 65 90 c || code_in 97 122 c.

(** [\w]: alphanumeric or underscore. *)
Definition word (c : ascii) : bool :=
  digit c || ascii_letter c || chr "_" c
  || code_in 170 170 c || code_in 178 179 c || code_in 181 181 c
  || code_in 185 186 c || code_in 188 190 c || code_in 192 214 c
  || code_in 216 246 c || code_in 248 255 c.

(** [\s] *)
Definition space (c : ascii) : bool := Py.isspace c.

Definition lower (c : ascii) : ascii :=
  if code_in 65 90 c then ascii_of_N (N_of_ascii c + 32) else c.

(** A literal character under [IGNORECASE]. *)
Definition lit (c d : ascii) : bool := Ascii.eqb (lower c) (lower d).

Inductive regex :=
| Eps
| Chr (p : ascii -> bool)
| Seq (r1 r2 : regex)
| Alt (r1 r2 : regex)
| Opt (r : regex)                 (* r? *)
| Star (p : ascii -> bool)        (* [p]* *)
| Plus (p : ascii -> bool)        (* [p]+ *)
| LazyPlus (p : ascii -> bool)    (* [p]+? *)
| Times (n : nat) (p : ascii -> bool)  (* [p]{n} *)
| WordBoundary                    (* \b *)
| EndOfLine                       (* $ *)
| Lookahead (r : regex).          (* (?=r) *)

(** A position in the subject: the character before it, the text from it on,
    and its offset. *)
Record cursor := mk_cursor { prev : option ascii; rest : string; pos : nat }.

Definition word_opt (c : option ascii) : bool :=
  match c with Some c => word c | None => false end.

Definition next (cur : cursor) : option ascii :=
  match rest cur with String c _ => Some c | EmptyString => None end.

Definition at_boundary (cur : cursor) : bool :=
  xorb (word_opt (prev cur)) (word_opt (next cur)).

Definition at_eol (cur : cursor) : bool :=
  match rest cur with String c _ => Py.is_lf c | EmptyString => true end.

Section Matching.

(** What the rest of the pattern does from a position: the end of the whole
    match, if there is one. *)
Variable k : cursor -> option nat.

Definition or_else (x y : option nat) : option nat :=
  match x with Some e => Some e | None => y end.

Fixpoint greedy (p : ascii -> bool) (pv : option ascii) (s : string) (n : nat)
    : option nat :=
  match s with
  | String c s' =>
    if p c then or_else (greedy p (Some c) s' (S n)) (k (mk_cursor pv s n))
    else k (mk_cursor pv s n)
  | EmptyString => k (mk_cursor pv s n)
  end.

Fixpoint lazy_more (p : ascii -> bool) (pv : option ascii) (s : string) (n : nat)
    : option nat :=
  or_else (k (mk_cursor pv s n))
    match s with
    | String c s' => if p c then lazy_more p (Some c) s' (S n) else None
    | EmptyString => None
    end.

Fixpoint times (m : nat) (p : ascii -> bool) (pv : option ascii) (s : string)
    (n : nat) : option nat :=
  match m with
  | O => k (mk_cursor pv s n)
  | S m' =>
    match s with
    | String c s' => if p c then times m' p (Some c) s' (S n) else None
    | EmptyString => None
    end
  end.

End Matching.

(** [run r cur k]: match [r] at [cur], then [k]; alternatives are tried in
    Python's order. *)
Fixpoint run (r : regex) (cur : cursor) (k : cursor -> option nat) : option nat :=
  match r with
  | Eps => k cur
  | Chr p =>
    match rest cur with
    | String c s' => if p c then k (mk_cursor (Some c) s' (S (pos cur))) else None
    | EmptyString => None
    end
  | Seq r1 r2 => run r1 cur (fun cur' => run r2 cur' k)
  | Alt r1 r2 => or_else (run r1 cur k) (run r2 cur k)
  | Opt r1 => or_else (run r1 cur k) (k cur)
  | Star p => greedy k p (prev cur) (rest cur) (pos cur)
  | Plus p =>
    match rest cur with
    | String c s' => if p c then greedy k p (Some c) s' (S (pos cur)) else None
    | EmptyString => None
    end
  | LazyPlus p =>
    match rest cur with
    | String c s' => if p c then lazy_more k p (Some c) s' (S (pos cur)) else None
    | EmptyString => None
    end
  | Times n p => times k n p (prev cur) (rest cur) (pos cur)
  | WordBoundary => if at_boundary cur then k cur else None
  | EndOfLine => if at_eol cur then k cur else None
  | Lookahead r1 =>
    match run r1 cur (fun c => Some (pos c)) with
    | Some _ => k cur
    | None => None
    end
  end.

(** The end of the match of [r] that starts at [cur], if any. *)
Definition match_at (r : regex) (cur : cursor) : option nat :=
  run r cur (fun c => Some (pos c)).

(** [[m.span() for m in re.finditer(r, text)]], empty matches left out
    (the recognizer skips them): after a match the search resumes at its
    end; [skip] counts the characters still inside the last match. *)
Fixpoint scan (r : regex) (pv : option ascii) (s : string) (n skip : nat)
    : list (nat * nat) :=
  let continue skip' :=
    match s with
    | String c s' => scan r (Some c) s' (S n) skip'
    | EmptyString => []
    end in
  match skip with
  | S skip' => continue skip'
  | O =>
    match match_at r (mk_cursor pv s n) with
    | Some e => if n <? e then (n, e) :: continue (e - n - 1) else continue 0
    | None => continue 0
    end
  end.

Definition finditer (r : regex) (text : string) : list (nat * nat) :=
  scan r None text 0 0.

(** Patterns written as sequences. *)
Fixpoint cat (rs : list regex) : regex :=
  match rs with
  | [] => Eps
  | [r] => r
  | r :: rs' => Seq r (cat rs')
  end.

Fixpoint literal (s : string) : regex :=
  match s with
  | EmptyString => Eps
  | String c EmptyString => Chr (lit c)
  | String c s' => Seq (Chr (lit c)) (literal s')
  end.

(** [[\w\.-]] *)
Definition word_dot_dash (c : ascii) : bool := word c || chr "." c || chr "-" c.

(** [\b\d{3}-\d{2}-\d{4}\b] *)
Definition ssn_pattern : regex :=
  cat [WordBoundary; Times 3 digit; Chr (chr "-"); Times 2 digit; Chr (chr "-");
       Times 4 digit; WordBoundary].

(** [\(?\d{3}\)?[\s-]?\d{3}-\d{4}\b] *)
Definition phone_pattern : regex :=
  cat [Opt (Chr (chr "(")); Times 3 digit; Opt (Chr (chr ")"));
       Opt (Chr (fun c => space c || chr "-" c));
       Times 3 digit; Chr (chr "-"); Times 4 digit; WordBoundary].

(** [\b[\w\.-]+[@\s@][\w\.-]+\.\w+\b] *)
Definition email_pattern : regex :=
  cat [WordBoundary; Plus word_dot_dash;
       Chr (fun c => chr "@" c || space c || chr "@" c);
       Plus word_dot_dash; Chr (chr "."); Plus word; WordBoundary].

(** [[\[\(](?:mailto:)?\s*([\w\.-]+@[\w\.-]+\.\w+)\s*[\]\)]] *)
Definition email_structured_pattern : regex :=
  cat [Chr (fun c => chr "[" c || chr "(" c); Opt (literal "mailto:"); Star space;
       Plus word_dot_dash; Chr (chr "@"); Plus word_dot_dash; Chr (chr ".");
       Plus word; Star space; Chr (fun c => chr "]" c || chr ")" c)].

(** [Name:\s*([A-Za-z\s\.]+?)\s*(?=\n|$)] *)
Definition name_pattern : regex :=
  cat [literal "Name:"; Star space;
       LazyPlus (fun c => ascii_letter c || space c || chr "." c);
       Star space; Lookahead (Alt (Chr Py.is_lf) EndOfLine)].

(** [Insurance Policy Number:\s*(IN-\d{8})\b] *)
Definition policy_pattern : regex :=
  cat [literal "Insurance Policy Number:"; Star space; literal "IN-";
       Times 8 digit; WordBoundary].

End Re.

(* ================================================================= *)
(** ** Entity detection, resolution and replacement

    [mask_pii] hands the text to Presidio's [AnalyzerEngine] and
    [AnonymizerEngine]; neither belongs to the repository's sources.  The
    engines below are the ones the specification describes in its sections
    4.2 to 4.4, fed with the recognizers that [_setup_presidio] registers. *)

Module Engine.

Inductive source := from_pattern | from_statistical.

(** [EntitySpan]: a typed, scored offset range [[start, end)] of a text. *)
Record EntitySpan := mk_span {
  span_type : string;
  span_start : nat;
  span_end : nat;
  span_score : Q;
  span_source : source
}.

(** A [Pattern(name, regex, score)]. *)
Record PatternDefinition := mk_pattern {
  pattern_name : string;
  pattern_regex : Re.regex;
  base_score : Q
}.

(** A [PatternRecognizer(supported_entity, patterns, context)]. *)
Record PatternRecognizer := mk_recognizer {
  supported_entity : string;
  patterns : list PatternDefinition;
  context_words : list string
}.

Definition ssn_recognizer : PatternRecognizer :=
  mk_recognizer "SSN" [mk_pattern "SSN_PATTERN" Re.ssn_pattern (9 # 10)]
                ["SSN"; "Social Security"; "ID"].

Definition phone_recognizer : PatternRecognizer :=
  mk_recognizer "PHONE_NUMBER"
                [mk_pattern "PHONE_PATTERN" Re.phone_pattern (95 # 100)]
                ["Phone"; "Contact"; "Emergency"; "Telephone"].

Definition email_recognizer : PatternRecognizer :=
  mk_recognizer "EMAIL_ADDRESS"
                [mk_pattern "EMAIL_PATTERN" Re.email_pattern (8 # 10);
                 mk_pattern "EMAIL_STRUCTURED_PATTERN"
                            Re.email_structured_pattern 1]
                ["email"; "e-mail"; "mailto"].

Definition name_recognizer : PatternRecognizer :=
  mk_recognizer "PERSON" [mk_pattern "NAME_PATTERN" Re.name_pattern 1]
                ["Name"; "Patient"].

Definition policy_recognizer : PatternRecognizer :=
  mk_recognizer "POLICY_NUMBER"
                [mk_pattern "POLICY_PATTERN" Re.policy_pattern 1]
                ["Insurance"; "Policy"].

(** The recognizers added to the registry, in the order of the source. *)
Definition registry : list PatternRecognizer :=
  [ssn_recognizer; phone_recognizer; email_recognizer; name_recognizer;
   policy_recognizer].

(** [text[i:j]] and friends on strings. *)
Fixpoint str_take (n : nat) (s : string) : string :=
  match n, s with
  | S n', String c s' => String c (str_take n' s')
  | _, _ => EmptyString
  end.

Fixpoint str_drop (n : nat) (s : string) : string :=
  match n, s with
  | S n', String _ s' => str_drop n' s'
  | _, _ => s
  end.

Definition str_slice (s : string) (i j : nat) : string :=
  str_take (j - i) (str_drop i s).

(** [kw in s] *)
Fixpoint contains (s kw : string) : bool :=
  String.prefix kw s
  || match s with
     | String _ s' => contains s' kw
     | EmptyString => false
     end.

(** Modelled from the spec: the context boost of section 4.2, which the
    source leaves to Presidio's context enhancer.  A span's score grows by
    [boost], capped at 1, when a context keyword of its recognizer appears
    within [window] characters of the match. *)
Record boosting := mk_boosting { window : nat; boost : Q }.

Definition boosted (cfg : boosting) (text : string) (keywords : list string)
    (s e : nat) (base : Q) : Q :=
  if existsb (contains (str_slice text (s - window cfg) (e + window cfg))) keywords
  then Qmin (base + boost cfg) 1
  else base.

(** Modelled from the spec: [detect] of section 4.2 for one recognizer, one
    span per match of each of its patterns. *)
Definition detect (cfg : boosting) (text : string) (recog : PatternRecognizer)
    : list EntitySpan :=
  flat_map
    (fun p =>
       map (fun '(s, e) =>
              mk_span (supported_entity recog) s e
                      (boosted cfg text (context_words recog) s e (base_score p))
                      from_pattern)
           (Re.finditer (pattern_regex p) text))
    (patterns recog).

(** Modelled from the spec: [detectAll], the union of the recognizers'
    spans, unfiltered. *)
Definition detectAll (cfg : boosting) (text : string) : list EntitySpan :=
  flat_map (detect cfg text) registry.

(** *** Merge and resolution (section 4.3) *)

(** Insertion into a list kept in ascending order of [key]; equal keys stay
    in their order of arrival. *)
Fixpoint insert_by {A} (key : A -> nat) (x : A) (l : list A) : list A :=
  match l with
  | [] => [x]
  | y :: l' => if key x <? key y then x :: l else y :: insert_by key x l'
  end.

Definition sort_by {A} (key : A -> nat) (l : list A) : list A :=
  fold_left (fun acc x => insert_by key x acc) l [].

Definition source_rank (s : source) : nat :=
  match s with from_pattern => 0 | from_statistical => 1 end.

(** [x] is to be kept rather than [y]: higher score, then pattern before
    statistical, then the earlier start. *)
Definition preferred (x y : EntitySpan) : bool :=
  match span_score x ?= span_score y with
  | Gt => true
  | Lt => false
  | Eq =>
    (source_rank (span_source x) <? source_rank (span_source y))
    || ((source_rank (span_source x) =? source_rank (span_source y))
        && (span_start x <? span_start y))
  end%Q.

Definition pick (best x : EntitySpan) : EntitySpan :=
  if preferred x best then x else best.

(** Modelled from the spec: the overlap groups of step 2, over spans in
    ascending order of start.  A span whose range starts before the end of
    the group so far belongs to it.  The state is the groups closed so far,
    the winner of the open group and the end of the open group. *)
Definition sweep (st : list EntitySpan * option (EntitySpan * nat))
    (x : EntitySpan) : list EntitySpan * option (EntitySpan * nat) :=
  match st with
  | (closed, None) => (closed, Some (x, span_end x))
  | (closed, Some (best, group_end)) =>
    if span_start x <? group_end
    then (closed, Some (pick best x, max group_end (span_end x)))
    else (closed ++ [best], Some (x, span_end x))
  end.

Definition winners (sorted : list EntitySpan) : list EntitySpan :=
  match fold_left sweep sorted ([], None) with
  | (closed, Some (best, _)) => closed ++ [best]
  | (closed, None) => closed
  end.

(** Modelled from the spec: step 1 of section 4.3. *)
Definition above_threshold (threshold : Q) (spans : list EntitySpan)
    : list EntitySpan :=
  List.filter (fun s => Qle_bool threshold (span_score s)) spans.

(** Modelled from the spec: the resolution of section 4.3, steps 1 to 4. *)
Definition resolve (threshold : Q) (spans : list EntitySpan) : list EntitySpan :=
  winners (sort_by span_start (above_threshold threshold spans)).

Definition to_result (s : EntitySpan) : RecognizerResult :=
  mk_result (span_type s) (span_start s) (span_end s) (span_score s).

(** Modelled from the spec: the analyzer, which looks for the requested
    [entities] only and returns the resolved spans.  [detector] gives the
    spans of all recognizers for a text. *)
Definition spec_analyzer (detector : string -> list EntitySpan) : AnalyzerEngine :=
  mk_analyzer (fun text language entities threshold =>
    Returned
      (map to_result
         (resolve threshold
            (List.filter (fun s => existsb (String.eqb (span_type s)) entities)
                         (detector text))))).

(** *** The anonymizer (section 4.4) *)

(** [policy[entityType]], or the literal [<entityType>]. *)
Definition replacement (policy : gmap string OperatorConfig)
    (r : RecognizerResult) : string :=
  match policy !! entity_type r with
  | Some op => new_value op
  | None => "<" +:+ entity_type r +:+ ">"
  end.

(** One replacement in place: [text[:start] + new + text[end:]]. *)
Definition replace_span (policy : gmap string OperatorConfig)
    (text : string) (r : RecognizerResult) : string :=
  str_take (start r) text +:+ replacement policy r +:+ str_drop (end_ r) text.

(** Modelled from the spec: the anonymizer of section 4.4, which replaces
    the spans in descending order of start. *)
Definition anonymize_text (policy : gmap string OperatorConfig) (text : string)
    (results : list RecognizerResult) : string :=
  fold_left (replace_span policy) (rev (sort_by start results)) text.

Definition spec_anonymizer : AnonymizerEngine :=
  mk_anonymizer (fun text results operators =>
    Returned (anonymize_text operators text results)).

(** The processor whose engines are the ones above. *)
Definition spec_processor (detector : string -> list EntitySpan)
    : DocumentProcessor :=
  mk_processor (spec_analyzer detector) spec_anonymizer.

(** The detector made of the registered pattern recognizers and a
    statistical recognizer. *)
Definition detector_of (cfg : boosting)
    (statistical_spans : string -> list EntitySpan) (text : string)
    : list EntitySpan :=
  detectAll cfg text ++ statistical_spans text.

(** The text with each span of an ascending list replaced by its
    placeholder and everything else kept: what stands before the first
    span from [from] on, its placeholder, and so on. *)
Fixpoint spliced (text : string) (from : nat) (results : list RecognizerResult)
    : string :=
  match results with
  | [] => str_drop from text
  | r :: rs =>
    str_slice text from (start r) +:+ Processor.placeholder (entity_type r)
    +:+ spliced text (end_ r) rs
  end.

(** The text of [s] holds no line boundary. *)
Fixpoint break_free (s : string) : bool :=
  match s with
  | EmptyString => true
  | String c s' => negb (Py.is_linebreak c) && break_free s'
  end.

(** The detected spans of the entity types [mask_pii] asks for. *)
Definition requested (spans : list EntitySpan) : list EntitySpan :=
  List.filter (fun s => existsb (String.eqb (span_type s)) Processor.entities)
              spans.

(** The results [mask_pii] receives from the analyzer above. *)
Definition results_of (detector : string -> list EntitySpan) (text : string)
    : list RecognizerResult :=
  map to_result (resolve Processor.score_threshold (requested (detector text))).


(** The ranges lie in a text of [len] characters, one after the other,
    from [lo] on. *)
Fixpoint chain (len lo : nat) (results : list RecognizerResult) : Prop :=
  match results with
  | [] => True
  | r :: rs =>
    lo <= start r /\ start r <= end_ r /\ end_ r <= len /\ chain len (end_ r) rs
  end.

(** The span is not empty, lies in the text and holds no line boundary. *)
Definition within_lines (text : string) (r : RecognizerResult) : Prop :=
  start r < end_ r /\ end_ r <= String.length text
  /\ break_free (str_slice text (start r) (end_ r)) = true.



#[global] Instance Q_eq_dec : EqDecision Q.
Proof. solve_decision. Defined.

#[global] Instance source_eq_dec : EqDecision source.
Proof. solve_decision. Defined.

#[global] Instance EntitySpan_eq_dec : EqDecision EntitySpan.
Proof. solve_decision. Defined.

(** Upper-case names: capital letters and underscores. *)
Fixpoint upper_case (s : string) : bool :=
  match s with
  | EmptyString => true
  | String c s' => (Re.code_in 65 90 c || Re.chr "_" c) && upper_case s'
  end.

End Engine.

(* ================================================================= *)
(** ** Readings used in the statements below *)

Module Reading.

(** An analyzer that cannot run: every call raises. *)
Definition unavailable_analyzer : AnalyzerEngine :=
  mk_analyzer (fun _ _ _ _ => Raised "analyzer unavailable").

Definition failing_processor : DocumentProcessor :=
  mk_processor unavailable_analyzer Engine.spec_anonymizer.

(** The masked section of a pair carries a visible flag when it is not the
    very text of the unmasked section. *)
Definition fallback_flagged (self : DocumentProcessor) (documents : dict string)
    (p : string * string) : Prop :=
  snd (fst (Processor.compare_pair self documents p))
  <> fst (fst (Processor.compare_pair self documents p)).

(** The detector made of the registered pattern recognizers alone, with a
    context window of 40 characters and a boost of 0.35. *)
Definition no_statistical (text : string) : list Engine.EntitySpan := [].

Definition pattern_detector : string -> list Engine.EntitySpan :=
  Engine.detector_of (Engine.mk_boosting 40 (35 # 100)) no_statistical.

Definition pattern_processor : DocumentProcessor :=
  Engine.spec_processor pattern_detector.

(** An image reader for two files that differ in their only line. *)
Definition two_names_reader (name : string) : outcome string :=
  if String.eqb name "a.png" then Returned "Name: Al"
  else if String.eqb name "b.png" then Returned "Name: Bob"
  else Raised "cannot identify image file".

(** Two documents that differ in their only line. *)
Definition two_names : dict string := [("a.png", "Name: Al"); ("b.png", "Name: Bob")].

(** Two texts of five lines that differ in the last line only. *)
Definition five_lines : string :=
  "1" +:+ Py.nl +:+ "2" +:+ Py.nl +:+ "3" +:+ Py.nl +:+ "4" +:+ Py.nl +:+ "5".

Definition five_lines_changed : string :=
  "1" +:+ Py.nl +:+ "2" +:+ Py.nl +:+ "3" +:+ Py.nl +:+ "4" +:+ Py.nl +:+ "five".

(** An image reader for three files, one of them a blank page. *)
Definition blank_page_reader (name : string) : outcome string :=
  if String.eqb name "a.png" then Returned "Name: Al"
  else if String.eqb name "blank.png" then Returned EmptyString
  else if String.eqb name "c.png" then Returned "Name: Bob"
  else Raised "cannot identify image file".

End Reading.
(* ================================================================= *)
(** * Specification functions and invariants *)

(** The definitions below are not taken from the program: they say what
    its loops compute and which properties they keep, and the theorems
    are stated with them. *)

(** ** The section parser *)

Module DiffReportSpec.
Import DiffReport.

(** What the loop and the final test return from any state. *)
Definition expected (st : parser) (ls : list string) : list (string * string) :=
  map summary (sections st) ++
  match current_section st with
  | None => render_blocks kept (blocks ls)
  | Some cur =>
    render_from kept (comparison cur)
      (diff_lines st ++ List.filter kept (until_comparison ls)) (blocks ls)
  end.

End DiffReportSpec.

(** ** Documents and operators *)

Module ProcessorSpec.
Import Processor.

(** A document is kept when its image is read and gives a text that is
    not empty. *)
Definition readable (image_to_string : string -> outcome string)
    (name : string) : Prop :=
  exists text, image_to_string name = Returned text /\ text <> EmptyString.

(** The operator that [mask_pii] builds for the entity type [ty]. *)
Definition replace_with (ty : string) : OperatorConfig :=
  mk_operator "replace" (placeholder ty).

End ProcessorSpec.

(** ** Sorting and sweeping spans *)

Module EngineInv.
Import Engine.

(** The order of a list sorted by [key]. *)
Definition by_key {A} (key : A -> nat) (x y : A) : Prop := key x <= key y.

(** [x] ends where [y] starts or before. *)
Definition before (x y : EntitySpan) : Prop := span_end x <= span_start y.

(** The state of the sweep once every span that starts before [lo] is
    read: the winners so far follow one another and end at [lo] or before,
    and the open group, if any, starts at [lo] or after. *)
Definition sweep_ok (lo : nat)
    (st : list EntitySpan * option (EntitySpan * nat)) : Prop :=
  StronglySorted before (fst st)
  /\ Forall (fun c => span_end c <= lo) (fst st)
  /\ match snd st with
     | None => True
     | Some (best, group_end) => lo <= span_start best /\ span_end best <= group_end
     end.

End EngineInv.

(** ** Matching a sequence against itself *)

Module SameInv.
Import Difflib.

Section Same.

Variable a : list string.

(** The element at [i] is indexed: it is not dropped as popular. *)
Definition nonpop (i : nat) : bool :=
  match a !! i with
  | Some x => negb (is_popular a x)
  | None => false
  end.

(** Row [i] finds column [j]: the elements are equal and indexed. *)
Definition hit (i j : nat) : bool := eq_at a a i j && nonpop i.

(** The length of the run of hits that ends at [(i, j)]. *)
Fixpoint run (i j : nat) : nat :=
  match i with
  | O => if hit 0 j then 1 else 0
  | S i' =>
    if hit (S i') j then S (match j with O => 0 | S j' => run i' j' end) else 0
  end.

(** The run that row [i] reads at column [j - 1], from the row before. *)
Definition prev (i j : nat) : nat :=
  match i, j with
  | S i', S j' => run i' j'
  | _, _ => 0
  end.

(** The column test of a row whose element is [x]. *)
Definition column (x : string) (j : nat) : bool :=
  match a !! j with
  | Some y => String.eqb y x
  | None => false
  end.

(** The best match lies on the diagonal and inside the sequence. *)
Definition diag_ok (best : Match) : Prop :=
  m_a best = m_b best /\ m_a best + m_size best <= length a.

End Same.

End SameInv.

(** ** Matching blocks, opcodes and hunks *)

Module DiffInv.
Import Difflib.

(** The block [m] lies in [a[alo:ahi]] and [b[blo:bhi]]. *)
Definition inside (alo ahi blo bhi : nat) (m : Match) : Prop :=
  alo <= m_a m /\ m_a m + m_size m <= ahi
  /\ blo <= m_b m /\ m_b m + m_size m <= bhi.

(** *** The work list of [get_matching_blocks] *)

(** A window [alo, ahi, blo, bhi] of the work list, and the window that a
    block covers. *)
Definition box : Type := nat * nat * nat * nat.
Definition lo_a (q : box) : nat := let '(x, _, _, _) := q in x.
Definition hi_a (q : box) : nat := let '(_, x, _, _) := q in x.
Definition lo_b (q : box) : nat := let '(_, _, x, _) := q in x.
Definition hi_b (q : box) : nat := let '(_, _, _, x) := q in x.

Definition box_of (m : Match) : box :=
  (m_a m, m_a m + m_size m, m_b m, m_b m + m_size m).

(** Two windows are apart when one ends, in both sequences, where the
    other starts or before. *)
Definition before (x y : box) : Prop := hi_a x <= lo_a y /\ hi_b x <= lo_b y.
Definition apart (x y : box) : Prop := before x y \/ before y x.
Definition within (x y : box) : Prop :=
  lo_a y <= lo_a x /\ hi_a x <= hi_a y /\ lo_b y <= lo_b x /\ hi_b x <= hi_b y.

(** Every two windows of the list are apart. *)
Fixpoint pairwise (l : list box) : Prop :=
  match l with
  | [] => True
  | x :: l' => Forall (apart x) l' /\ pairwise l'
  end.

(** The cost of a work list: every item costs one unit of fuel, and the
    rows left to split shrink with every block found. *)
Fixpoint weight (queue : list box) : nat :=
  match queue with
  | [] => 0
  | q :: queue' => 2 * (hi_a q - lo_a q) + 1 + weight queue'
  end.

(** [x] ends in both sequences where [y] starts or before. *)
Definition block_before (x y : Match) : Prop :=
  m_a x + m_size x <= m_a y /\ m_b x + m_size x <= m_b y.

(** *** Positions reached by a list of opcodes *)

(** Where a list of opcodes that starts at [i] ends in [a], and where one
    that starts at [j] ends in [b]. *)
Fixpoint end_a (i : nat) (ops : list opcode) : nat :=
  match ops with
  | [] => i
  | c :: ops' => end_a (op_i2 c) ops'
  end.

Fixpoint end_b (j : nat) (ops : list opcode) : nat :=
  match ops with
  | [] => j
  | c :: ops' => end_b (op_j2 c) ops'
  end.

Section Blocks.

Variables a b : list string.

(** The block [m] pairs equal elements of [a] and [b]. *)
Definition genuine (m : Match) : Prop :=
  forall t, t < m_size m -> eq_at a b (m_a m + t) (m_b m + t) = true.

(** The best match of a window lies in the window and is genuine. *)
Definition best_ok (alo ahi blo bhi : nat) (m : Match) : Prop :=
  inside alo ahi blo bhi m /\ genuine m.

(** The run lengths that row [i] reads: every entry closes a run of equal
    elements that ends on row [i - 1] and stays inside the window. *)
Definition prev_ok (alo blo : nat) (i : nat) (j2len : gmap nat nat) : Prop :=
  forall j k, j2len !! j = Some k ->
    1 <= k /\ alo + k <= i /\ blo + k <= j + 1
    /\ forall t, t < k -> eq_at a b (i - 1 - t) (j - t) = true.

(** The work list and the blocks found so far: the windows are well
    formed, the blocks are genuine and not empty, and windows and blocks
    are apart from one another. *)
Definition loop_ok (queue : list box) (blocks : list Match) : Prop :=
  Forall (fun q => lo_a q <= hi_a q /\ lo_b q <= hi_b q) queue
  /\ Forall (fun m => genuine m /\ 0 < m_size m) blocks
  /\ pairwise (queue ++ map box_of blocks).

(** An [equal] opcode pairs equal elements, one for one; an [insert]
    takes nothing from [a] and a [delete] nothing from [b]. *)
Definition op_ok (c : opcode) : Prop :=
  match op_tag c with
  | Equal =>
    op_i2 c - op_i1 c = op_j2 c - op_j1 c
    /\ forall t, t < op_i2 c - op_i1 c ->
                 a !! (op_i1 c + t) = b !! (op_j1 c + t)
  | Insert => op_i1 c = op_i2 c
  | Delete => op_j1 c = op_j2 c
  | Replace => True
  end.

(** The opcodes tile both sequences from [(i, j)] to [(i', j')]. *)
Fixpoint path (i j : nat) (ops : list opcode) (i' j' : nat) : Prop :=
  match ops with
  | [] => i = i' /\ j = j'
  | c :: ops' =>
    op_i1 c = i /\ op_j1 c = j /\ i <= op_i2 c /\ j <= op_j2 c /\ op_ok c
    /\ path (op_i2 c) (op_j2 c) ops' i' j'
  end.

(** The opcodes follow one another in both sequences from [(i, j)] on,
    with or without gaps. *)
Fixpoint mono (i j : nat) (ops : list opcode) : Prop :=
  match ops with
  | [] => True
  | c :: ops' =>
    i <= op_i1 c /\ j <= op_j1 c /\ op_i1 c <= op_i2 c /\ op_j1 c <= op_j2 c
    /\ op_ok c /\ mono (op_i2 c) (op_j2 c) ops'
  end.

(** The lines of [a] that the rendering of an opcode shows, and the lines
    of [b] it shows; an [equal] opcode is rendered from [a]. *)
Definition a_side (c : opcode) : list string :=
  match op_tag c with
  | Insert => []
  | _ => slice a (op_i1 c) (op_i2 c)
  end.

Definition b_side (c : opcode) : list string :=
  match op_tag c with
  | Equal => slice a (op_i1 c) (op_i2 c)
  | Delete => []
  | _ => slice b (op_j1 c) (op_j2 c)
  end.

End Blocks.

End DiffInv.

(** ** Changes in an edit script *)

Module DiffShape.
Import Difflib.

(** The edit script holds an opcode that is not [equal]. *)
Definition changes (ops : list opcode) : bool :=
  existsb (fun c => negb (is_equal (op_tag c))) ops.

(** The first character of a line of a unified diff after the two file
    lines: a hunk line, a context line, a deleted or an added line. *)
Definition diff_mark (c : ascii) : bool :=
  Ascii.eqb c "@" || Ascii.eqb c " " || Ascii.eqb c "-" || Ascii.eqb c "+".

Definition marked (line : string) : bool :=
  match line with
  | String c _ => diff_mark c
  | EmptyString => false
  end.

(** The lines a unified diff of [a] and [b] is made of: the two file
    lines, the hunk lines, and lines of [a] or [b] behind their mark;
    a context line is a line of [a]. *)
Definition diff_line (a b : list string) (fromfile tofile line : string) : Prop :=
  line = "--- " +:+ fromfile
  \/ line = "+++ " +:+ tofile
  \/ (exists i1 i2 j1 j2,
        line = "@@ -" +:+ format_range_unified i1 i2
               +:+ " +" +:+ format_range_unified j1 j2 +:+ " @@")
  \/ (exists x, In x a /\ (line = " " +:+ x \/ line = "-" +:+ x))
  \/ (exists x, In x b /\ line = "+" +:+ x).

End DiffShape.
(** ** What the hunks show of an edit script *)

Module Hunks.
Import Difflib.

(** The last [n] lines of an unchanged run, and its first [n] lines. *)
Definition keep_last (n : nat) (c : opcode) : opcode :=
  mk_op Equal (max (op_i1 c) (op_i2 c - n)) (op_i2 c)
              (max (op_j1 c) (op_j2 c - n)) (op_j2 c).

Definition keep_first (n : nat) (c : opcode) : opcode :=
  mk_op Equal (op_i1 c) (min (op_i2 c) (op_i1 c + n))
              (op_j1 c) (min (op_j2 c) (op_j1 c + n)).

(** An opcode between two others: a change as it is; an unchanged run of
    more than [2 n] lines by its first [n] and its last [n] lines, and a
    shorter one as it is. *)
Definition between (n : nat) (c : opcode) : list opcode :=
  if is_equal (op_tag c) && (n + n <? op_i2 c - op_i1 c)
  then [keep_first n c; keep_last n c]
  else [c].

(** The opcodes after the first one: the last one, when it is an unchanged
    run, by its first [n] lines. *)
Fixpoint shown_after (n : nat) (ops : list opcode) : list opcode :=
  match ops with
  | [] => []
  | [c] => [if is_equal (op_tag c) then keep_first n c else c]
  | c :: rest => between n c ++ shown_after n rest
  end.

(** What a diff with [n] lines of context shows of the edit script [ops]:
    every change, and of every unchanged run the [n] lines next to a
    change.  A script that is empty or one unchanged run shows nothing. *)
Definition shown (n : nat) (ops : list opcode) : list opcode :=
  match ops with
  | [] => []
  | [c] => if is_equal (op_tag c) then [] else [c]
  | c :: rest =>
    (if is_equal (op_tag c) then keep_last n c else c) :: shown_after n rest
  end.

End Hunks.
(** ** Unchanged runs apart from one another *)

Module Runs.
Import Difflib.

(** The block [y] starts in both sequences where [x] ends. *)
Definition adjacent (x y : Match) : Prop :=
  m_a x + m_size x = m_a y /\ m_b x + m_size x = m_b y.

(** No block of the list is followed by one adjacent to it; [p] is the
    block before the list. *)
Fixpoint spaced_from (p : Match) (l : list Match) : Prop :=
  match l with
  | [] => True
  | x :: l' => ~ adjacent p x /\ spaced_from x l'
  end.

Definition spaced (l : list Match) : Prop :=
  match l with
  | [] => True
  | x :: l' => spaced_from x l'
  end.

(** The last opcode of the list is [equal]. *)
Definition ends_equal (ops : list opcode) : bool :=
  match last ops with
  | Some c => is_equal (op_tag c)
  | None => false
  end.

(** No [equal] opcode is followed by another: every unchanged run has a
    change on each side, or the end of the script. *)
Fixpoint alternating (ops : list opcode) : Prop :=
  match ops with
  | [] => True
  | c :: ops' =>
    match ops' with
    | [] => True
    | c' :: _ => is_equal (op_tag c) && is_equal (op_tag c') = false
    end
    /\ alternating ops'
  end.

End Runs.
(** ** The sections of a report, with their header lines *)

Module ReportLines.
Import DiffReport.

(** The lines that are not empty. *)
Definition dense (ls : list string) : list string :=
  List.filter Py.truthy ls.

(** Each comparison line with the header lines read before it and the
    lines between it and the next comparison line. *)
Fixpoint headed_blocks (seen ls : list string)
    : list (string * list string * list string) :=
  match ls with
  | [] => []
  | l :: ls' =>
    if is_comparison l then
      (l, seen, until_comparison ls') :: headed_blocks seen ls'
    else if is_header l then headed_blocks (seen ++ [l]) ls'
    else headed_blocks seen ls'
  end.

(** One section per block, the last block only when a line of it reaches
    the [diff] field. *)
Fixpoint render_sections (bs : list (string * list string * list string))
    : list section :=
  match bs with
  | [] => []
  | (c, seen, body) :: bs' =>
    match bs', List.filter kept body with
    | [], [] => []
    | _, lines =>
      mk_section c (last_two seen) (Py.join Py.nl lines) :: render_sections bs'
    end
  end.

(** The section of the open block, whose kept lines are already known. *)
Definition render_open (cur : section) (lines : list string)
    (bs : list (string * list string * list string)) : list section :=
  match bs, lines with
  | [], [] => []
  | _, _ =>
    mk_section (comparison cur) (header cur) (Py.join Py.nl lines)
    :: render_sections bs
  end.

(** What the loop and the final test return from any state. *)
Definition expected_sections (st : parser) (ls : list string) : list section :=
  sections st ++
  match current_section st with
  | None => render_sections (headed_blocks (header_lines st) ls)
  | Some cur =>
    render_open cur (diff_lines st ++ List.filter kept (until_comparison ls))
                (headed_blocks (header_lines st) ls)
  end.

(** A line that neither opens a section nor is a report-header line. *)
Definition plain (line : string) : bool :=
  negb (is_comparison line) && negb (is_header line).

End ReportLines.
(** ** A report as the parser reads it *)

Module Pipeline.
Import DiffReport.

(** The line that opens the section of a pair. *)
Definition comparison_line (name1 name2 : string) : string :=
  "Comparison: " +:+ name1 +:+ " vs " +:+ name2.

(** The two lines of the report's title. *)
Definition title_lines (now : string) : list string :=
  ["Document Comparison Report"; "Generated: " +:+ now].

(** The section written for a pair, around the diff text or the masked
    diff text [body]. *)
Definition section_text (s : string * string * string) : string :=
  Processor.comparison_header (fst (fst s)) (snd (fst s))
  +:+ snd s +:+ Processor.section_end.

Definition report_text (now : string) (secs : list (string * string * string))
    : string :=
  Py.join EmptyString (Processor.report_title now :: map section_text secs).

(** The lines of a section that are not empty. *)
Definition section_lines (s : string * string * string) : list string :=
  [comparison_line (fst (fst s)) (snd (fst s)); Processor.rule]
  ++ ReportLines.dense (Py.splitlines (snd s)) ++ [Processor.rule].

(** The section the parser is to return for it. *)
Definition parsed_section (now : string) (s : string * string * string)
    : section :=
  mk_section (comparison_line (fst (fst s)) (snd (fst s)))
             (title_lines now)
             (Py.join Py.nl
                (Processor.rule
                 :: List.filter nonblank (Py.splitlines (snd s))
                 ++ [Processor.rule])).

(** Names without line boundaries, and a body none of whose lines opens a
    section or is a report-header line. *)
Definition well_formed (s : string * string * string) : Prop :=
  Engine.break_free (fst (fst s)) = true
  /\ Engine.break_free (snd (fst s)) = true
  /\ Forall (fun l => ReportLines.plain l = true) (Py.splitlines (snd s)).

(** The lines of the diff text of a pair. *)
Definition body_lines (diff : list string) : list string :=
  match diff with
  | [] => ["No Differences Found"]
  | _ => "Differences Found:" :: diff
  end.

(** The documents kept from a list of images. *)
Definition documents_of (image_to_string : string -> outcome string)
    (images : list string) : dict string :=
  fst (Processor.parse_all image_to_string images []).

(** The diff of a pair of documents. *)
Definition pair_diff (documents : dict string) (p : string * string)
    : list string :=
  Processor.compare_texts (Processor.text_of documents (fst p))
                          (Processor.text_of documents (snd p))
                          (fst p) (snd p).

(** The pairs with the diff text of each, and with its masked diff text. *)
Definition unmasked_sections (documents : dict string)
    : list (string * string * string) :=
  map (fun p => (p, Processor.diff_text (pair_diff documents p)))
      (Processor.pairs documents).

Definition masked_sections (self : DocumentProcessor) (documents : dict string)
    : list (string * string * string) :=
  map (fun p => (p, fst (Processor.mask_pii self
                           (Processor.diff_text (pair_diff documents p)))))
      (Processor.pairs documents).

End Pipeline.
(** ** Pairs of a list *)

Module Pairs.

(** [itertools.combinations(l, 2)]: every element with each of the later
    ones, in the order of the list. *)
Fixpoint all_pairs {A} (l : list A) : list (A * A) :=
  match l with
  | [] => []
  | x :: l' => map (pair x) l' ++ all_pairs l'
  end.

End Pairs.
(** ** The shape of a match *)

Module Shape.

(** The text [s] has one character for each test of [ps], in order. *)
Fixpoint fits (ps : list (ascii -> bool)) (s : string) : bool :=
  match ps, s with
  | [], EmptyString => true
  | p :: ps', String c s' => p c && fits ps' s'
  | _, _ => false
  end.

(** Three digits, a dash, two digits, a dash, four digits. *)
Definition ssn_shape : list (ascii -> bool) :=
  [Re.digit; Re.digit; Re.digit; Re.chr "-";
   Re.digit; Re.digit; Re.chr "-";
   Re.digit; Re.digit; Re.digit; Re.digit].

End Shape.
(** ** [pii_sum_ollama.py] and [pii_report_sum.py]: the readable report

    The two scripts hold the same [generate_readable_diff] and
    [process_report] but for the client they call: Ollama's [chat] with
    [self.model_name] in the first, Groq's [chat.completions.create] with a
    fixed model name in the second.  The client is a parameter: the reply's
    content, or the exception raised anywhere in the [try] block. *)

Module Summary.
Import DiffReport.

(** What a run does besides returning: the records of the [logger] and
    the calls of the chat model, with the model name, the system message
    and the user message. *)
Inductive event :=
| Logged (lv : level) (msg : string)
| Asked (model system user : string).

Definition traced (A : Type) : Type := A * list event.

#[global] Instance traced_ret : MRet traced := fun A x => (x, []).
#[global] Instance traced_bind : MBind traced := fun A B f c =>
  let '(x, l1) := c in
  let '(y, l2) := f x in
  (y, l1 ++ l2).

Definition emit (e : event) : traced unit := (tt, [e]).

Definition system_message : string :=
  "You are a precise summarizer of document differences.".

(** The f-string of [generate_readable_diff]. *)
Definition prompt (diff_text comparison : string) : string :=
  Py.nl
  +:+ "You are an expert in summarizing document differences in a clear, human-readable format. Below is a unified diff from a masked comparison report of patient registration forms, showing changes between two documents ("
  +:+ comparison
  +:+ "). The PII has been masked (e.g., <PERSON>, <PHONE_NUMBER>). Your task is to convert this diff into a concise, natural language summary, focusing on meaningful field changes (e.g., Date of Birth, Address, Diagnosis). Use bullet points to list each change, and group by field where possible. Ignore minor formatting differences (e.g., extra spaces) unless they affect meaning. If no significant changes exist, state that clearly."
  +:+ Py.nl +:+ Py.nl
  +:+ "Diff:" +:+ Py.nl
  +:+ "```" +:+ Py.nl
  +:+ diff_text +:+ Py.nl
  +:+ "```" +:+ Py.nl
  +:+ Py.nl
  +:+ "Example output:" +:+ Py.nl
  +:+ "- **Date of Birth**: Changed from <DATE_TIME> to <DATE_TIME>." +:+ Py.nl
  +:+ "- **Address**: Updated from <LOCATION> to <LOCATION>." +:+ Py.nl
  +:+ "- **Diagnosis**: Changed from Hypertension to Asthma." +:+ Py.nl
  +:+ Py.nl
  +:+ "Provide only the bullet-point summary, no additional commentary."
  +:+ Py.nl.

(** The marker looked for in a section's diff. *)
Definition marker : string := "No Differences Found".

Section WithModel.

(** [self.model_name], or the name fixed in the call. *)
Variable model_name : string.

(** The chat client, from the model name, the system message and the user
    message to the content of the reply. *)
Variable chat : string -> string -> string -> outcome string.

(** [str(datetime.now())] and [str(output_file)]. *)
Variables now output_file : string.

(** [generate_readable_diff(diff_text, comparison)] *)
Definition generate_readable_diff (diff_text comparison : string)
    : traced string :=
  emit (Asked model_name system_message (prompt diff_text comparison));;
  match chat model_name system_message (prompt diff_text comparison) with
  | Returned content =>
    emit (Logged INFO ("Generated summary for " +:+ comparison));;
    mret (Py.strip content)
  | Raised e =>
    emit (Logged ERROR ("Failed to generate summary for " +:+ comparison
                        +:+ ": " +:+ e));;
    mret "Error generating summary."
  end.

(** The body of the loop [for section in sections]: the text written for
    one section. *)
Definition write_section (s : section) : traced string :=
  body ← (if Engine.contains (diff s) marker
          then mret ("No significant differences detected." +:+ Py.nl)
          else summary ← generate_readable_diff (diff s) (comparison s);
               mret (summary +:+ Py.nl));
  mret (comparison s +:+ Py.nl +:+ Processor.rule +:+ Py.nl
        +:+ body
        +:+ Py.nl +:+ Processor.rule +:+ Py.nl +:+ Py.nl).

Fixpoint write_sections (ss : list section) : traced string :=
  match ss with
  | [] => mret EmptyString
  | s :: ss' =>
    text ← write_section s;
    rest ← write_sections ss';
    mret (text +:+ rest)
  end.

(** [process_report()], from the content of the input file, which is taken
    to exist: the content of the file written.  The line printed on the
    console at the end is left out. *)
Definition process_report (content : string) : traced string :=
  let sections := read_diff_file content in
  emit (Logged INFO ("Extracted "
                     +:+ Difflib.str_of_nat (length sections)
                     +:+ " comparison sections"));;
  body ← write_sections sections;
  emit (Logged INFO ("Readable report saved to " +:+ output_file));;
  mret ("Readable Comparison Report" +:+ Py.nl +:+ "Generated: " +:+ now
        +:+ Py.nl +:+ Py.nl +:+ body).

End WithModel.

(** The calls of the chat model among the events. *)
Definition asked (events : list event) : list event :=
  List.filter (fun e => match e with Asked _ _ _ => true | _ => false end)
              events.

(** The text written between the rules of a section. *)
Definition summary_of (chat : string -> string -> string -> outcome string)
    (model_name : string) (s : section) : string :=
  if Engine.contains (diff s) marker then "No significant differences detected."
  else match chat model_name system_message (prompt (diff s) (comparison s)) with
       | Returned content => Py.strip content
       | Raised _ => "Error generating summary."
       end.

End Summary.
(** ** [image_comparison.py] and [main.py]: comparing with a vision model *)

(** [base64.b64encode(data).decode('utf-8')]: the standard alphabet, with
    padding. *)
Module Base64.

Definition b64_char (n : N) : ascii :=
  if (n <? 26)%N then ascii_of_N (65 + n)
  else if (n <? 52)%N then ascii_of_N (71 + n)
  else if (n <? 62)%N then ascii_of_N (n - 4)
  else if (n =? 62)%N then "+"%char
  else "/"%char.

Fixpoint b64encode (data : list Byte.byte) : string :=
  match data with
  | [] => EmptyString
  | [x] =>
    let a := Byte.to_N x in
    String (b64_char (a / 4))
      (String (b64_char ((a mod 4) * 16)) "==")
  | [x; y] =>
    let a := Byte.to_N x in
    let b := Byte.to_N y in
    String (b64_char (a / 4))
      (String (b64_char ((a mod 4) * 16 + b / 16))
         (String (b64_char ((b mod 16) * 4)) "="))
  | x :: y :: z :: rest =>
    let a := Byte.to_N x in
    let b := Byte.to_N y in
    let c := Byte.to_N z in
    String (b64_char (a / 4))
      (String (b64_char ((a mod 4) * 16 + b / 16))
         (String (b64_char ((b mod 16) * 4 + c / 64))
            (String (b64_char (c mod 64)) (b64encode rest))))
  end%N.

End Base64.

Module Vision.

(** What a run does besides returning: the lines printed, the calls of the
    vision model with the model name, the prompt and the encoded images,
    and the text handed to the output file at the end; whether that write
    went through shows in the line printed after it. *)
Inductive event :=
| Printed (msg : string)
| Asked (model prompt : string) (images : list string)
| Wrote (path content : string).

(** The double quote of the prompts. *)
Definition quote : string := String (ascii_of_nat 34) EmptyString.

(** ["llava:latest"], the default of [model]. *)
Definition default_model : string := "llava:latest".

End Vision.

(** *** [image_comparison.py] *)

Module ImageComparison.
Import Vision.

Definition traced (A : Type) : Type := A * list event.

#[global] Instance traced_ret : MRet traced := fun A x => (x, []).
#[global] Instance traced_bind : MBind traced := fun A B f c =>
  let '(x, l1) := c in
  let '(y, l2) := f x in
  (y, l1 ++ l2).

Definition emit (e : event) : traced unit := (tt, [e]).

(** The f-string of [compare_image_pair]. *)
Definition prompt (img1_name img2_name : string) : string :=
  Py.nl
  +:+ "You are a helpful assistant tasked with comparing two images of IRS Form 1042 PDFs ("
  +:+ img1_name
  +:+ " and "
  +:+ img2_name
  +:+ "). Analyze the content of both images and identify 5-7 key differences in a clear, structured format. Focus on changes in fields, instructions, structure, or significant elements. Ignore minor formatting or stylistic changes. Return the differences as a numbered list, with each item describing the difference and specifying what changed between the two versions."
  +:+ Py.nl
  +:+ Py.nl
  +:+ "Example output:"
  +:+ Py.nl
  +:+ "1. Header Information: The first image has no website link, while the second image includes a link to www.irs.gov/form1042."
  +:+ Py.nl
  +:+ "2. Identification Number: The first image uses "
  +:+ quote
  +:+ "Taxpayer identification number,"
  +:+ quote
  +:+ " while the second image uses "
  +:+ quote
  +:+ "Employer identification number."
  +:+ quote
  +:+ Py.nl
  +:+ Py.nl
  +:+ "Provide only the numbered list, without additional explanation."
  +:+ Py.nl.

Section WithWorld.

(** [open(path, "rb").read()]: the bytes of the file, or the exception. *)
Variable read_bytes : string -> outcome (list Byte.byte).

(** [Path(path).name] *)
Variable path_name : string -> string.

(** [ollama.chat(model, messages)['message']['content']] for one user
    message with its images, or the exception raised. *)
Variable chat : string -> string -> list string -> outcome string.

(** [open(path, "w").write(text)] *)
Variable write_text : string -> string -> outcome unit.

(** [encode_image(image_path)] *)
Definition encode_image (image_path : string) : traced string :=
  match read_bytes image_path with
  | Returned data => mret (Base64.b64encode data)
  | Raised e =>
    emit (Printed ("Error encoding image " +:+ image_path +:+ ": " +:+ e));;
    mret EmptyString
  end.

(** [compare_image_pair(img1_path, img2_path, model)] *)
Definition compare_image_pair (img1_path img2_path model : string)
    : traced string :=
  base64_image1 ← encode_image img1_path;
  base64_image2 ← encode_image img2_path;
  if negb (Py.truthy base64_image1) || negb (Py.truthy base64_image2) then
    mret ("Comparison between " +:+ path_name img1_path +:+ " and "
          +:+ path_name img2_path +:+ ": Failed to encode images." +:+ Py.nl)
  else
    let img1_name := path_name img1_path in
    let img2_name := path_name img2_path in
    emit (Asked model (prompt img1_name img2_name)
                [base64_image1; base64_image2]);;
    match chat model (prompt img1_name img2_name)
               [base64_image1; base64_image2] with
    | Returned content =>
      mret ("Comparison between " +:+ img1_name +:+ " and " +:+ img2_name
            +:+ ":" +:+ Py.nl +:+ content +:+ Py.nl)
    | Raised e =>
      emit (Printed ("Error comparing " +:+ img1_path +:+ " and "
                     +:+ img2_path +:+ " with Ollama: " +:+ e));;
      mret ("Error comparing " +:+ path_name img1_path +:+ " and "
            +:+ path_name img2_path +:+ ": " +:+ e +:+ Py.nl)
    end.

(** The loop [for img1, img2 in combinations(image_files, 2)]. *)
Fixpoint compare_pairs (ps : list (string * string)) : traced (list string) :=
  match ps with
  | [] => mret []
  | (img1, img2) :: ps' =>
    emit (Printed ("Comparing " +:+ path_name img1 +:+ " and "
                   +:+ path_name img2 +:+ "..."));;
    comparison ← compare_image_pair img1 img2 default_model;
    comparisons ← compare_pairs ps';
    mret (comparison :: comparisons)
  end.

(** [process_and_compare_images(input_dir, output_file)], from the list
    [image_files] of the paths found in the directory. *)
Definition process_and_compare_images (image_files : list string)
    (output_file : string) : traced unit :=
  if length image_files <? 2 then
    emit (Printed
            "At least two Form 1042 image files are required for comparison.")
  else
    comparisons ← compare_pairs (Pairs.all_pairs image_files);
    emit (Wrote output_file (Py.join Py.nl comparisons));;
    match write_text output_file (Py.join Py.nl comparisons) with
    | Returned _ =>
      emit (Printed ("Comparison results saved to " +:+ output_file))
    | Raised e =>
      emit (Printed ("Error saving comparison to " +:+ output_file
                     +:+ ": " +:+ e))
    end.

End WithWorld.

(** The calls of the model among the events. *)
Definition asked (events : list event) : list event :=
  List.filter (fun e => match e with Asked _ _ _ => true | _ => false end)
              events.

(** The file at [path] can be read and is not empty. *)
Definition encodable (read_bytes : string -> outcome (list Byte.byte))
    (path : string) : Prop :=
  exists data, read_bytes path = Returned data /\ data <> [].

End ImageComparison.

(** *** [main.py] *)

Module PdfComparison.
Import Vision.

(** The files that can be read, by path, and the events so far. *)
Record world := mk_world {
  files : gmap string (list Byte.byte);
  events : list event
}.

(** A computation that reads and writes files and emits events. *)
Definition run (A : Type) : Type := world -> A * world.

#[global] Instance run_ret : MRet run := fun A x w => (x, w).
#[global] Instance run_bind : MBind run := fun A B f c w =>
  let '(x, w') := c w in f x w'.

Definition emit (e : event) : run unit :=
  fun w => (tt, mk_world (files w) (events w ++ [e])).

Definition store (path : string) (data : list Byte.byte) : run unit :=
  fun w => (tt, mk_world (<[path := data]> (files w)) (events w)).

Definition lookup_file (path : string) : run (option (list Byte.byte)) :=
  fun w => (files w !! path, w).

(** [os.path.join(a, b)] on POSIX paths, for two components. *)
Definition ends_with_slash (a : string) : bool :=
  match String.rev a with
  | String c _ => Ascii.eqb c "/"
  | EmptyString => false
  end.

Definition path_join (a b : string) : string :=
  if Py.startswith b "/" then b
  else if negb (Py.truthy a) || ends_with_slash a then a +:+ b
  else a +:+ "/" +:+ b.

(** The f-string of [compare_pdf_pair]. *)
Definition prompt (pdf1_name pdf2_name : string) : string :=
  Py.nl
  +:+ "You are a helpful assistant tasked with comparing two images of IRS Form 1042 PDFs ("
  +:+ pdf1_name
  +:+ " and "
  +:+ pdf2_name
  +:+ "). Analyze the content of both images and identify 5-7 key differences in a clear, structured format. Focus on changes in fields, instructions, structure, or significant elements. Ignore minor formatting or stylistic changes. Return the differences as a numbered list, with each item describing the difference and specifying what changed between the two versions."
  +:+ Py.nl
  +:+ Py.nl
  +:+ "Example output:"
  +:+ Py.nl
  +:+ "1. Header Information: The first PDF has no website link, while the second PDF includes a link to www.irs.gov/form1042."
  +:+ Py.nl
  +:+ "2. Identification Number: The first PDF uses "
  +:+ quote
  +:+ "Taxpayer identification number,"
  +:+ quote
  +:+ " while the second PDF uses "
  +:+ quote
  +:+ "Employer identification number."
  +:+ quote
  +:+ Py.nl
  +:+ Py.nl
  +:+ "Provide only the numbered list, without additional explanation."
  +:+ Py.nl.

Section WithWorld.

(** The page images of [pdf2image]. *)
Variable image : Type.

(** [os.makedirs(output_dir, exist_ok=True)] *)
Variable makedirs : string -> outcome unit.

(** [convert_from_path(pdf_path, first_page=1, last_page=max_pages)] *)
Variable convert_from_path : string -> nat -> outcome (list image).

(** [image.save(image_path, "JPEG")]: the bytes written, or the exception. *)
Variable save_jpeg : image -> string -> outcome (list Byte.byte).

(** [str(e)] of the exception of [open] on a path that cannot be read. *)
Variable read_error : string -> string.

(** [Path(path).stem] and [Path(path).name] *)
Variables path_stem path_name : string -> string.

Variable chat : string -> string -> list string -> outcome string.

Variable write_text : string -> string -> outcome unit.

(** [encode_image(image_path)] *)
Definition encode_image (image_path : string) : run string :=
  data ← lookup_file image_path;
  match data with
  | Some data => mret (Base64.b64encode data)
  | None =>
    emit (Printed ("Error encoding image " +:+ image_path +:+ ": "
                   +:+ read_error image_path));;
    mret EmptyString
  end.

(** The loop [for i, image in enumerate(images)] of [pdf_to_images], from
    index [i]: the paths appended, or the exception of the first [save]
    that fails; the pages saved before it stay. *)
Fixpoint save_pages (output_dir pdf_name : string) (i : nat)
    (images : list image) : run (outcome (list string)) :=
  match images with
  | [] => mret (Returned [])
  | img :: rest =>
    let image_path :=
      path_join output_dir
                (pdf_name +:+ "_page_" +:+ Difflib.str_of_nat (i + 1) +:+ ".jpg") in
    match save_jpeg img image_path with
    | Raised e => mret (Raised e)
    | Returned data =>
      store image_path data;;
      paths ← save_pages output_dir pdf_name (S i) rest;
      mret (match paths with
            | Returned ps => Returned (image_path :: ps)
            | Raised e => Raised e
            end)
    end
  end.

(** The [try] block of [pdf_to_images]. *)
Definition pdf_to_images_try (pdf_path output_dir : string) (max_pages : nat)
    : run (outcome (list string)) :=
  match makedirs output_dir with
  | Raised e => mret (Raised e)
  | Returned _ =>
    match convert_from_path pdf_path max_pages with
    | Raised e => mret (Raised e)
    | Returned images => save_pages output_dir (path_stem pdf_path) 0 images
    end
  end.

(** [pdf_to_images(pdf_path, output_dir, max_pages)] *)
Definition pdf_to_images (pdf_path output_dir : string) (max_pages : nat)
    : run (list string) :=
  r ← pdf_to_images_try pdf_path output_dir max_pages;
  match r with
  | Returned image_paths => mret image_paths
  | Raised e =>
    emit (Printed ("Error converting PDF " +:+ pdf_path +:+ " to images: "
                   +:+ e));;
    mret []
  end.

(** [compare_pdf_pair(pdf1_path, pdf2_path, model)] *)
Definition compare_pdf_pair (pdf1_path pdf2_path model : string) : run string :=
  let temp_dir := "temp_images" in
  pdf1_images ← pdf_to_images pdf1_path temp_dir 1;
  pdf2_images ← pdf_to_images pdf2_path temp_dir 1;
  match pdf1_images, pdf2_images with
  | image1 :: _, image2 :: _ =>
    base64_image1 ← encode_image image1;
    base64_image2 ← encode_image image2;
    if negb (Py.truthy base64_image1) || negb (Py.truthy base64_image2) then
      emit (Printed ("Failed to encode images for " +:+ pdf1_path +:+ " or "
                     +:+ pdf2_path));;
      mret ("Comparison between " +:+ path_name pdf1_path +:+ " and "
            +:+ path_name pdf2_path +:+ ": Failed to encode images." +:+ Py.nl)
    else
      let pdf1_name := path_name pdf1_path in
      let pdf2_name := path_name pdf2_path in
      emit (Asked model (prompt pdf1_name pdf2_name)
                  [base64_image1; base64_image2]);;
      match chat model (prompt pdf1_name pdf2_name)
                 [base64_image1; base64_image2] with
      | Returned content =>
        mret ("Comparison between " +:+ pdf1_name +:+ " and " +:+ pdf2_name
              +:+ ":" +:+ Py.nl +:+ content +:+ Py.nl)
      | Raised e =>
        emit (Printed ("Error comparing " +:+ pdf1_path +:+ " and "
                       +:+ pdf2_path +:+ " with Ollama: " +:+ e));;
        mret ("Error comparing " +:+ path_name pdf1_path +:+ " and "
              +:+ path_name pdf2_path +:+ ": " +:+ e +:+ Py.nl)
      end
  | _, _ =>
    emit (Printed ("Failed to convert one or both PDFs: " +:+ pdf1_path
                   +:+ ", " +:+ pdf2_path));;
    mret ("Comparison between " +:+ path_name pdf1_path +:+ " and "
          +:+ path_name pdf2_path +:+ ": Failed to process images." +:+ Py.nl)
  end.

(** The loop [for pdf1, pdf2 in combinations(pdf_files, 2)]. *)
Fixpoint compare_pairs (ps : list (string * string)) : run (list string) :=
  match ps with
  | [] => mret []
  | (pdf1, pdf2) :: ps' =>
    emit (Printed ("Comparing " +:+ path_name pdf1 +:+ " and "
                   +:+ path_name pdf2 +:+ "..."));;
    comparison ← compare_pdf_pair pdf1 pdf2 default_model;
    comparisons ← compare_pairs ps';
    mret (comparison :: comparisons)
  end.

(** [process_and_compare_pdfs(input_dir, output_file)], from the list
    [pdf_files] of the paths found in the directory.  The text handed to
    the output file is kept as an event; it is not read back. *)
Definition process_and_compare_pdfs (pdf_files : list string)
    (output_file : string) : run unit :=
  if length pdf_files <? 2 then
    emit (Printed "At least two Form 1042 PDFs are required for comparison.")
  else
    comparisons ← compare_pairs (Pairs.all_pairs pdf_files);
    emit (Wrote output_file (Py.join Py.nl comparisons));;
    match write_text output_file (Py.join Py.nl comparisons) with
    | Returned _ =>
      emit (Printed ("Comparison results saved to " +:+ output_file))
    | Raised e =>
      emit (Printed ("Error saving comparison to " +:+ output_file
                     +:+ ": " +:+ e))
    end.

End WithWorld.

(** The calls of the model among the events. *)
Definition asked (evs : list event) : list event :=
  List.filter (fun e => match e with Asked _ _ _ => true | _ => false end) evs.

End PdfComparison.
(** The path of page [k], counted from 0, of a PDF with stem [pdf_name]. *)

Module PdfPages.

Definition page_path (output_dir pdf_name : string) (k : nat) : string :=
  PdfComparison.path_join output_dir
    (pdf_name +:+ "_page_" +:+ Difflib.str_of_nat (k + 1) +:+ ".jpg").

End PdfPages.
(** ** Sample inputs *)

Module Samples.

(** A time stamp. *)
Definition stamp : string := "2025-01-01 10:00:00".

(** A chat model that always answers. *)
Definition answering (model system user : string) : outcome string :=
  Returned "- **Name**: Changed from <PERSON> to <PERSON>.".

(** Two image files of one byte each. *)
Definition two_files (path : string) : outcome (list Byte.byte) :=
  if String.eqb path "in/a_f1042.png" then Returned [Byte.x01]
  else if String.eqb path "in/b_f1042.png" then Returned [Byte.x02]
  else Raised "No such file or directory".

(** A vision model that always answers. *)
Definition seeing (model prompt : string) (images : list string)
    : outcome string :=
  Returned "1. Header Information: none.".

(** Two PDFs of the same stem in two directories, of one page each; a page
    is held as the bytes of its JPEG file. *)
Definition two_pdfs (pdf_path : string) (last_page : nat)
    : outcome (list (list Byte.byte)) :=
  if String.eqb pdf_path "old/f1042.pdf" then Returned [[Byte.x01]]
  else if String.eqb pdf_path "new/f1042.pdf" then Returned [[Byte.x02]]
  else Raised "Unable to get page count.".

Definition save_page (page : list Byte.byte) (path : string)
    : outcome (list Byte.byte) :=
  Returned page.

Definition made (path : string) : outcome unit := Returned tt.

Definition stem_f1042 (path : string) : string := "f1042".

(** Two PDFs of different stems in one directory. *)
Definition two_versions (pdf_path : string) (last_page : nat)
    : outcome (list (list Byte.byte)) :=
  if String.eqb pdf_path "in/f1042_2022.pdf" then Returned [[Byte.x01]]
  else if String.eqb pdf_path "in/f1042_2023.pdf" then Returned [[Byte.x02]]
  else Raised "Unable to get page count.".

Definition stem_of_version (path : string) : string :=
  if String.eqb path "in/f1042_2022.pdf" then "f1042_2022" else "f1042_2023".

Definition missing (path : string) : string :=
  "[Errno 2] No such file or directory".

Definition empty_world : PdfComparison.world :=
  PdfComparison.mk_world ∅ [].

End Samples.

(* ================================================================= *)
(** * Properties *)

(** ** The section parser *)

Module DiffReportFacts.
Import DiffReport DiffReportSpec.

Lemma render_blocks_cons keep c body bs :
  render_blocks keep ((c, body) :: bs)
  = render_from keep c (List.filter keep body) bs.
Proof. simpl. destruct bs, (List.filter keep body); reflexivity. Qed.

Lemma summary_close cur d done :
  map summary (close_section cur d done)
  = map summary done ++ [(comparison cur, Py.join Py.nl d)].
Proof. unfold close_section. rewrite map_app. reflexivity. Qed.

Lemma loop_expected ls : forall st,
  map summary (finish (fold_left step ls st)) = expected st ls.
Proof.
  induction ls as [|l ls IH]; intros [done cur d h].
  - unfold expected, finish; simpl. rewrite app_nil_r.
    destruct cur as [cur|]; [|now rewrite app_nil_r].
    destruct d; simpl; [now rewrite app_nil_r|].
    now rewrite summary_close.
  - cbn [fold_left]. rewrite IH. unfold expected, step.
    cbn [sections current_section diff_lines header_lines until_comparison blocks].
    destruct (is_comparison l) eqn:Hc.
    + cbn [sections current_section diff_lines comparison].
      rewrite render_blocks_cons.
      destruct cur as [cur|]; [|reflexivity].
      rewrite summary_close, <- app_assoc, app_nil_r. f_equal.
      unfold render_from at 2. rewrite render_blocks_cons.
      now destruct d.
    + destruct (is_header l) eqn:Hh.
      * cbn [sections current_section diff_lines List.filter].
        assert (Hk : kept l = false) by (unfold kept; now rewrite Hh).
        rewrite Hk. now destruct cur.
      * destruct cur as [cur|]; [|reflexivity].
        cbn [List.filter].
        assert (Hk : kept l = Py.truthy (Py.strip l))
          by (unfold kept, nonblank; now rewrite Hh).
        rewrite Hk.
        destruct (Py.truthy (Py.strip l));
          cbn [sections current_section diff_lines]; [|reflexivity].
        now rewrite <- app_assoc.
Qed.

End DiffReportFacts.

(** C10 (as amended).  For every text, [read_diff_file] returns one section
    per line beginning with "Comparison:", in order; a section's [diff]
    field joins the lines between its comparison line and the next that are
    neither blank nor report-header lines (lines beginning with "Document
    Comparison Report" or "Generated:"); the section of the last comparison
    line is dropped when no such line follows it. *)
Theorem read_diff_file_sections (content : string) :
  map DiffReport.summary (DiffReport.read_diff_file content)
  = DiffReport.sections_by_kept content.
Proof.
  unfold DiffReport.read_diff_file, DiffReport.sections_by_kept.
  rewrite DiffReportFacts.loop_expected.
  unfold DiffReportSpec.expected. reflexivity.
Qed.

(** C10, the claim as worded, fails on a text whose last section holds a
    line beginning with "Generated:": the line is not blank, yet it does
    not reach the [diff] field, and with no other line the section is
    dropped. *)
Lemma read_diff_file_skips_header_lines :
  DiffReport.read_diff_file
    ("Comparison: a vs b" +:+ Py.nl +:+ "Generated: today") = []
  /\ DiffReport.sections_by_nonblank
       ("Comparison: a vs b" +:+ Py.nl +:+ "Generated: today")
     = [("Comparison: a vs b", "Generated: today")]
  /\ map DiffReport.summary
       (DiffReport.read_diff_file
          ("Comparison: a vs b" +:+ Py.nl +:+ "Generated: today"))
     <> DiffReport.sections_by_nonblank
          ("Comparison: a vs b" +:+ Py.nl +:+ "Generated: today").
Proof. repeat split; try reflexivity. discriminate. Qed.

(** ** Masking fails open *)

Module ProcessorFacts.
Import Processor.

Lemma mask_pii_try_raised self text e :
  mask_pii_try self text = Raised e <->
  (analyze (analyzer self) text "en" entities score_threshold = Raised e
   \/ exists results,
        analyze (analyzer self) text "en" entities score_threshold
        = Returned results
        /\ anonymize (anonymizer self) text results (operators results)
           = Raised e).
Proof.
  unfold mask_pii_try, mbind, outcome_bind, mret, outcome_ret.
  destruct (analyze _ _ _ _ _) as [results|e1] eqn:Ha.
  - destruct (anonymize _ _ _ _) as [masked|e2] eqn:Hb.
    + split; [discriminate|].
      intros [H|(rs & H1 & H2)]; [discriminate|].
      injection H1 as <-. rewrite Hb in H2. discriminate.
    + split.
      * intros H. injection H as <-. right. now exists results.
      * intros [H|(rs & H1 & H2)]; [discriminate|].
        injection H1 as <-. rewrite Hb in H2. now injection H2 as <-.
  - split.
    + intros H. injection H as <-. now left.
    + intros [H|(rs & H1 & H2)]; [now injection H as <-|discriminate].
Qed.

Lemma mask_pii_raised self text e :
  mask_pii_try self text = Raised e ->
  mask_pii self text = (text, [(ERROR, "Error masking PII: " +:+ e)]).
Proof. unfold mask_pii. now intros ->. Qed.

Lemma compare_pair_unfold self documents name1 name2 :
  compare_pair self documents (name1, name2)
  = let body := diff_text (compare_texts (text_of documents name1)
                                         (text_of documents name2) name1 name2) in
    ((comparison_header name1 name2 +:+ body +:+ section_end,
      comparison_header name1 name2 +:+ fst (mask_pii self body) +:+ section_end),
     (INFO, "Comparing " +:+ name1 +:+ " with " +:+ name2)
     :: snd (mask_pii self body)).
Proof.
  unfold compare_pair, mbind, logged_bind, mret, logged_ret, log. cbn zeta.
  destruct (mask_pii self _) as [masked l]. cbn [fst snd].
  now rewrite app_nil_r.
Qed.

End ProcessorFacts.

(** C1.  When the analyzer or the anonymizer raises while [mask_pii] masks
    a text, [mask_pii] returns that text unchanged, raises nothing, and
    reports the condition as one ERROR record of the log. *)
Theorem mask_pii_fails_open (self : DocumentProcessor) (text e : string) :
  (analyze (analyzer self) text "en" Processor.entities Processor.score_threshold
   = Raised e
   \/ exists results,
        analyze (analyzer self) text "en" Processor.entities
                Processor.score_threshold = Returned results
        /\ anonymize (anonymizer self) text results (Processor.operators results)
           = Raised e) ->
  Processor.mask_pii self text = (text, [(ERROR, "Error masking PII: " +:+ e)]).
Proof.
  intros H. apply ProcessorFacts.mask_pii_raised.
  now apply ProcessorFacts.mask_pii_try_raised.
Qed.

Lemma mask_pii_fails_open_witness :
  Processor.mask_pii Reading.failing_processor "Name: Al"
  = ("Name: Al", [(ERROR, "Error masking PII: analyzer unavailable")]).
Proof.
  apply (mask_pii_fails_open Reading.failing_processor "Name: Al"
                             "analyzer unavailable").
  left. reflexivity.
Defined.

(** C2 (as amended).  For every pair whose masking step fails, the section
    appended to the masked report is the very section appended to the
    unmasked report, header, unmasked diff text and closing rule, with
    nothing added; the failure shows in the log only, as an ERROR record. *)
Theorem masking_failure_falls_back (self : DocumentProcessor)
    (documents : dict string) (name1 name2 e : string) :
  Processor.mask_pii_try self
    (Processor.diff_text
       (Processor.compare_texts (Processor.text_of documents name1)
          (Processor.text_of documents name2) name1 name2)) = Raised e ->
  snd (fst (Processor.compare_pair self documents (name1, name2)))
  = fst (fst (Processor.compare_pair self documents (name1, name2)))
  /\ fst (fst (Processor.compare_pair self documents (name1, name2)))
     = Processor.comparison_header name1 name2
       +:+ Processor.diff_text
             (Processor.compare_texts (Processor.text_of documents name1)
                (Processor.text_of documents name2) name1 name2)
       +:+ Processor.section_end
  /\ snd (Processor.compare_pair self documents (name1, name2))
     = [(INFO, "Comparing " +:+ name1 +:+ " with " +:+ name2);
        (ERROR, "Error masking PII: " +:+ e)].
Proof.
  intros H. rewrite ProcessorFacts.compare_pair_unfold. cbn zeta.
  rewrite (ProcessorFacts.mask_pii_raised _ _ _ H). cbn [fst snd].
  repeat split.
Qed.

Lemma masking_failure_falls_back_witness :
  snd (fst (Processor.compare_pair Reading.failing_processor Reading.two_names
              ("a.png", "b.png")))
  = fst (fst (Processor.compare_pair Reading.failing_processor Reading.two_names
                ("a.png", "b.png"))).
Proof.
  apply (masking_failure_falls_back Reading.failing_processor Reading.two_names
           "a.png" "b.png" "analyzer unavailable").
  reflexivity.
Defined.

(** C2, the claim as worded, fails: with an analyzer that raises, the
    masked section of the pair is the unmasked section, character for
    character, so nothing in the report flags the fallback. *)
Lemma masking_failure_not_flagged :
  Processor.mask_pii_try Reading.failing_processor
    (Processor.diff_text
       (Processor.compare_texts "Name: Al" "Name: Bob" "a.png" "b.png"))
  = Raised "analyzer unavailable"
  /\ ~ Reading.fallback_flagged Reading.failing_processor Reading.two_names
         ("a.png", "b.png").
Proof.
  split; [reflexivity|].
  unfold Reading.fallback_flagged. intros H. apply H.
  vm_compute. reflexivity.
Qed.

(** ** Which documents are compared *)

Module DocumentFacts.
Import Processor ProcessorSpec.

Lemma truthy_nonempty s : Py.truthy s = true <-> s <> EmptyString.
Proof. destruct s; simpl; split; congruence. Qed.

Lemma keys_dict_set {V} (d : dict V) k v n :
  In n (keys (dict_set d k v)) <-> n = k \/ In n (keys d).
Proof.
  induction d as [|[k' v'] d IH]; simpl.
  - intuition.
  - destruct (String.eqb k' k) eqn:E; simpl.
    + apply String.eqb_eq in E. subst. intuition.
    + unfold keys in IH. rewrite IH. intuition.
Qed.

Lemma NoDup_keys_dict_set {V} (d : dict V) k v :
  List.NoDup (keys d) -> List.NoDup (keys (dict_set d k v)).
Proof.
  induction d as [|[k' v'] d IH]; simpl; intros H.
  - constructor; [intros []|constructor].
  - inversion H as [|? ? Hn Hd]; subst.
    destruct (String.eqb k' k) eqn:E; simpl.
    + now constructor.
    + constructor; [|now apply IH].
      intros Hin. apply (keys_dict_set d k v k') in Hin.
      destruct Hin as [->|Hin]; [|now apply Hn].
      now rewrite String.eqb_refl in E.
Qed.

Lemma fst_bind {A B} (c : logged A) (f : A -> logged B) :
  fst (c ≫= f) = fst (f (fst c)).
Proof.
  unfold mbind, logged_bind. destruct c as [x l1]. simpl.
  now destruct (f x).
Qed.

Lemma parse_image_truthy image_to_string name :
  Py.truthy (fst (parse_image image_to_string name)) = true
  <-> readable image_to_string name.
Proof.
  unfold parse_image, readable.
  destruct (image_to_string name) as [text|e]; simpl.
  - rewrite truthy_nonempty. split.
    + intros H. now exists text.
    + intros (t & Ht & Hne). now injection Ht as ->.
  - split; [discriminate|]. now intros (t & Ht & _).
Qed.

Lemma parse_all_keys image_to_string images : forall documents name,
  In name (keys (fst (parse_all image_to_string images documents)))
  <-> In name (keys documents)
      \/ (In name images /\ readable image_to_string name).
Proof.
  induction images as [|img rest IH]; intros documents name.
  - simpl. intuition.
  - cbn [parse_all]. rewrite fst_bind, IH.
    pose proof (parse_image_truthy image_to_string img) as Hr.
    destruct (Py.truthy (fst (parse_image image_to_string img))).
    + rewrite keys_dict_set. simpl. split.
      * intros [[->|H]|[H1 H2]]; [right|now left|right; auto].
        split; [now left|]. now apply Hr.
      * intros [H|[[->|H1] H2]]; auto.
    + simpl. split.
      * intros [H|[H1 H2]]; auto.
      * intros [H|[[->|H1] H2]]; auto.
        apply Hr in H2. discriminate.
Qed.

Lemma parse_all_NoDup image_to_string images : forall documents,
  List.NoDup (keys documents) ->
  List.NoDup (keys (fst (parse_all image_to_string images documents))).
Proof.
  induction images as [|img rest IH]; intros documents H; [exact H|].
  cbn [parse_all]. rewrite fst_bind. apply IH.
  destruct (Py.truthy _); [now apply NoDup_keys_dict_set|exact H].
Qed.

Lemma in_pairs (documents : dict string) name1 name2 :
  In (name1, name2) (pairs documents)
  <-> exists i j, i < j /\ keys documents !! i = Some name1
                  /\ keys documents !! j = Some name2.
Proof.
  unfold pairs. rewrite in_concat. split.
  - intros (l & Hl & Hin).
    apply list_elem_of_In, elem_of_lookup_imap in Hl.
    destruct Hl as (i & n1 & -> & Hi).
    apply in_map_iff in Hin. destruct Hin as (n2 & Heq & Hin).
    injection Heq as -> ->.
    apply list_elem_of_In, list_elem_of_lookup in Hin.
    destruct Hin as (j & Hj). rewrite lookup_drop in Hj.
    exists i, (S i + j). split; [lia|]. auto.
  - intros (i & j & Hij & Hi & Hj).
    exists (map (fun name2 => (name1, name2)) (drop (S i) (keys documents))).
    split.
    + apply list_elem_of_In, elem_of_lookup_imap. exists i, name1. auto.
    + apply in_map. apply list_elem_of_In, list_elem_of_lookup.
      exists (j - S i). rewrite lookup_drop.
      now replace (S i + (j - S i)) with j by lia.
Qed.

End DocumentFacts.

(** C6 (as amended).  A document takes part in the pairwise comparison
    exactly when its image is read and the text extracted from it is not
    empty: the names kept are those of such images, each once, and every
    two of them are compared, the earlier with the later.  A document whose
    extracted text is the empty string is left out, like one whose
    extraction failed. *)
Theorem compared_documents (image_to_string : string -> outcome string)
    (images : list string) :
  (forall name,
      In name (keys (fst (Processor.parse_all image_to_string images [])))
      <-> In name images
          /\ exists text, image_to_string name = Returned text
                          /\ text <> EmptyString)
  /\ List.NoDup (keys (fst (Processor.parse_all image_to_string images [])))
  /\ (forall name1 name2,
        In (name1, name2)
           (Processor.pairs (fst (Processor.parse_all image_to_string images [])))
        <-> exists i j,
              i < j
              /\ keys (fst (Processor.parse_all image_to_string images []))
                 !! i = Some name1
              /\ keys (fst (Processor.parse_all image_to_string images []))
                 !! j = Some name2).
Proof.
  split; [|split].
  - intros name. rewrite DocumentFacts.parse_all_keys. simpl.
    unfold ProcessorSpec.readable. intuition.
  - apply DocumentFacts.parse_all_NoDup. constructor.
  - intros name1 name2. apply DocumentFacts.in_pairs.
Qed.

(** C6, the claim as worded, fails: the blank page is read without error,
    its text is the empty string, and it is neither kept as a document nor
    paired with another. *)
Lemma empty_text_document_left_out :
  Reading.blank_page_reader "blank.png" = Returned EmptyString
  /\ fst (Processor.parse_all Reading.blank_page_reader
            ["a.png"; "blank.png"; "c.png"] [])
     = [("a.png", "Name: Al"); ("c.png", "Name: Bob")]
  /\ Processor.pairs
       (fst (Processor.parse_all Reading.blank_page_reader
               ["a.png"; "blank.png"; "c.png"] []))
     = [("a.png", "c.png")].
Proof. repeat split. Qed.

(** ** Strings by offsets *)

Module StringFacts.
Import Engine.

Lemma app_cons c (a b : string) : String c a +:+ b = String c (a +:+ b).
Proof. reflexivity. Qed.

Lemma app_nil_l (a : string) : EmptyString +:+ a = a.
Proof. reflexivity. Qed.

Lemma take_nil n : str_take n EmptyString = EmptyString.
Proof. now destruct n. Qed.

Lemma app_assoc (a b c : string) : (a +:+ b) +:+ c = a +:+ (b +:+ c).
Proof.
  induction a as [|x a IH]; [reflexivity|].
  now rewrite !app_cons, IH.
Qed.

Lemma app_nil_r (a : string) : a +:+ EmptyString = a.
Proof.
  induction a as [|x a IH]; [reflexivity|]. now rewrite app_cons, IH.
Qed.

Lemma take_drop n s : str_take n s +:+ str_drop n s = s.
Proof.
  revert s. induction n as [|n IH]; intros [|c s]; try reflexivity.
  cbn [str_take str_drop]. now rewrite app_cons, IH.
Qed.

Lemma length_take n s : n <= String.length s -> String.length (str_take n s) = n.
Proof.
  revert s. induction n as [|n IH]; intros [|c s]; simpl; intros H;
    try reflexivity; try lia.
  rewrite IH; [reflexivity|lia].
Qed.

Lemma take_app_le n a b :
  n <= String.length a -> str_take n (a +:+ b) = str_take n a.
Proof.
  revert a. induction n as [|n IH]; intros a H; [reflexivity|].
  destruct a as [|c a]; [simpl in H; lia|].
  rewrite app_cons. cbn [str_take]. f_equal. apply IH. simpl in H. lia.
Qed.

Lemma drop_app_length a b : str_drop (String.length a) (a +:+ b) = b.
Proof.
  induction a as [|c a IH]; [now destruct b|].
  rewrite app_cons. exact IH.
Qed.

Lemma drop_take_app n s b :
  n <= String.length s -> str_drop n (str_take n s +:+ b) = b.
Proof.
  intros H. pose proof (drop_app_length (str_take n s) b) as E.
  now rewrite length_take in E.
Qed.

Lemma take_take n m s : n <= m -> str_take n (str_take m s) = str_take n s.
Proof.
  revert m s. induction n as [|n IH]; intros [|m] [|c s] H; simpl;
    try reflexivity; try lia.
  rewrite IH; [reflexivity|lia].
Qed.

Lemma drop_drop n m s : str_drop n (str_drop m s) = str_drop (m + n) s.
Proof.
  revert s. induction m as [|m IH]; intros s; simpl; [reflexivity|].
  destruct s as [|c s]; [now destruct n|apply IH].
Qed.

(** [text[:i] + text[i:j] = text[:j]] *)
Lemma take_slice s i j :
  i <= j -> str_take i s +:+ str_slice s i j = str_take j s.
Proof.
  revert s j. induction i as [|i IH]; intros s j H.
  - unfold str_slice. rewrite Nat.sub_0_r. now destruct s, j.
  - destruct j as [|j]; [lia|]. destruct s as [|c s].
    + unfold str_slice. cbn [str_drop]. now rewrite !take_nil.
    + cbn [str_take]. rewrite app_cons. f_equal. apply IH. lia.
Qed.

(** [text[i:] = text[i:j] + text[j:]] *)
Lemma drop_slice s i j :
  i <= j -> str_drop i s = str_slice s i j +:+ str_drop j s.
Proof.
  intros H. unfold str_slice.
  replace (str_drop j s) with (str_drop (j - i) (str_drop i s)).
  - now rewrite take_drop.
  - rewrite drop_drop. f_equal. lia.
Qed.

End StringFacts.

(** ** Resolution and replacement *)

Module EngineFacts.
Import Engine EngineInv.

(** *** Insertion sort *)

Lemma in_insert_by {A} (key : A -> nat) x y (l : list A) :
  In y (insert_by key x l) <-> y = x \/ In y l.
Proof.
  induction l as [|z l IH]; simpl; [intuition|].
  destruct (key x <? key z); simpl; [intuition|].
  rewrite IH. intuition.
Qed.

Lemma in_sort_by {A} (key : A -> nat) (l : list A) x :
  In x (sort_by key l) <-> In x l.
Proof.
  unfold sort_by.
  enough (forall acc, In x (fold_left (fun acc x => insert_by key x acc) l acc)
                      <-> In x acc \/ In x l) as H.
  { rewrite H. simpl. intuition. }
  induction l as [|y l IH]; intros acc; simpl; [intuition|].
  rewrite IH, in_insert_by. intuition.
Qed.

Lemma insert_by_sorted {A} (key : A -> nat) x (l : list A) :
  StronglySorted (by_key key) l -> StronglySorted (by_key key) (insert_by key x l).
Proof.
  induction 1 as [|z l Hs IH Hz]; simpl.
  - repeat constructor.
  - destruct (key x <? key z) eqn:E.
    + apply Nat.ltb_lt in E. constructor; [now constructor|].
      constructor; [unfold by_key; lia|].
      eapply Forall_impl; [exact Hz|]. unfold by_key. intros; lia.
    + apply Nat.ltb_ge in E. constructor; [exact IH|].
      apply List.Forall_forall. intros y Hy. apply in_insert_by in Hy.
      destruct Hy as [->|Hy]; [exact E|].
      rewrite List.Forall_forall in Hz. now apply Hz.
Qed.

Lemma sort_by_sorted {A} (key : A -> nat) (l : list A) :
  StronglySorted (by_key key) (sort_by key l).
Proof.
  unfold sort_by.
  enough (forall acc, StronglySorted (by_key key) acc ->
            StronglySorted (by_key key)
              (fold_left (fun acc x => insert_by key x acc) l acc)) as H.
  { apply H. constructor. }
  induction l as [|y l IH]; intros acc Hacc; simpl; [exact Hacc|].
  apply IH. now apply insert_by_sorted.
Qed.

Lemma insert_by_last {A} (key : A -> nat) x (l : list A) :
  Forall (fun y => key y <= key x) l -> insert_by key x l = l ++ [x].
Proof.
  induction 1 as [|y l Hy Hl IH]; simpl; [reflexivity|].
  destruct (key x <? key y) eqn:E; [apply Nat.ltb_lt in E; lia|].
  now rewrite IH.
Qed.

(** A list already in ascending order is left as it is. *)
Lemma sort_by_id {A} (key : A -> nat) (l : list A) :
  StronglySorted (by_key key) l -> sort_by key l = l.
Proof.
  unfold sort_by. intros H.
  enough (forall acc, StronglySorted (by_key key) (acc ++ l) ->
            fold_left (fun acc x => insert_by key x acc) l acc = acc ++ l) as G.
  { now apply (G []). }
  clear H. induction l as [|y l IH]; intros acc H; simpl.
  - now rewrite List.app_nil_r.
  - assert (Hy : Forall (fun z => key z <= key y) acc).
    { apply List.Forall_forall. intros z Hz.
      apply (StronglySorted_app_1_elem_of _ _ _ z y H).
      - now apply list_elem_of_In.
      - apply list_elem_of_In. now left. }
    rewrite (insert_by_last key y acc Hy), IH.
    + now rewrite <- List.app_assoc.
    + now rewrite <- List.app_assoc.
Qed.

(** *** The sweep over overlap groups *)

Lemma sorted_snoc (l : list EntitySpan) b :
  StronglySorted before l -> Forall (fun c => before c b) l ->
  StronglySorted before (l ++ [b]).
Proof.
  intros Hl Hb. apply StronglySorted_app_2; [|exact Hl|repeat constructor].
  intros x1 x2 H1 H2. apply list_elem_of_In in H1, H2.
  destruct H2 as [<-|[]]. rewrite List.Forall_forall in Hb. now apply Hb.
Qed.

Lemma pick_cases best x : pick best x = best \/ pick best x = x.
Proof. unfold pick. destruct (preferred x best); auto. Qed.

Lemma sweep_sorted (l : list EntitySpan) : forall lo st,
  StronglySorted (by_key span_start) l ->
  Forall (fun x => lo <= span_start x) l ->
  sweep_ok lo st ->
  exists lo', sweep_ok lo' (fold_left sweep l st).
Proof.
  induction l as [|x l IH]; intros lo [closed open] Hs Hlo Hok.
  - now exists lo.
  - inversion Hs as [|? ? Hs' Hx]; subst.
    inversion Hlo as [|? ? Hlox Hlo']; subst.
    destruct Hok as (Hc & Hf & Ho). cbn [fst snd] in *.
    cbn [fold_left]. destruct open as [[best group_end]|]; cbn [sweep].
    + destruct (span_start x <? group_end) eqn:E.
      * apply (IH lo); [exact Hs'|exact Hlo'|].
        repeat split; cbn [fst snd]; try assumption.
        -- destruct (pick_cases best x) as [-> | ->]; [tauto|lia].
        -- destruct (pick_cases best x) as [-> | ->]; lia.
      * apply Nat.ltb_ge in E. apply (IH (span_start x)); [exact Hs'| |].
        -- eapply Forall_impl; [exact Hx|]. unfold by_key. intros; lia.
        -- repeat split; cbn [fst snd]; try lia.
           ++ apply sorted_snoc; [exact Hc|].
              eapply Forall_impl; [exact Hf|]. unfold before. intros; lia.
           ++ apply Forall_app. split.
              ** eapply Forall_impl; [exact Hf|]. cbn. intros; lia.
              ** repeat constructor. lia.
    + apply (IH lo); [exact Hs'|exact Hlo'|].
      repeat split; cbn [fst snd]; try assumption; lia.
Qed.

(** The winners of a list in ascending order of start do not overlap: each
    ends where the next starts or before. *)
Lemma winners_sorted (l : list EntitySpan) :
  StronglySorted (by_key span_start) l -> StronglySorted before (winners l).
Proof.
  intros Hs. unfold winners.
  destruct (sweep_sorted l 0 ([], None) Hs) as (lo & Hc & Hf & Ho).
  - apply List.Forall_forall. intros; lia.
  - repeat split; cbn; constructor.
  - destruct (fold_left sweep l ([], None)) as [closed [[best ge]|]];
      cbn [fst snd] in *; [|exact Hc].
    apply sorted_snoc; [exact Hc|].
    eapply Forall_impl; [exact Hf|]. unfold before. cbn. intros; lia.
Qed.

Lemma sweep_in (l : list EntitySpan) : forall st w,
  In w (fst (fold_left sweep l st))
  \/ (exists ge, snd (fold_left sweep l st) = Some (w, ge)) ->
  In w (fst st) \/ (exists ge, snd st = Some (w, ge)) \/ In w l.
Proof.
  induction l as [|x l IH]; intros [closed open] w H; [tauto|].
  cbn [fold_left] in H. apply IH in H. clear IH.
  destruct open as [[best group_end]|]; cbn [sweep] in H.
  - destruct (span_start x <? group_end); cbn [fst snd] in *.
    + destruct H as [H|[(ge & H)|H]]; [tauto| |simpl; tauto].
      injection H as H _.
      destruct (pick_cases best x) as [E|E]; rewrite E in H; subst.
      * right. left. now exists group_end.
      * simpl. tauto.
    + destruct H as [H|[(ge & H)|H]]; [| |simpl; tauto].
      * apply in_app_or in H. destruct H as [H|[<-|[]]]; [tauto|].
        right. left. now exists group_end.
      * injection H as -> _. simpl. tauto.
  - cbn [fst snd] in *.
    destruct H as [H|[(ge & H)|H]]; [tauto| |simpl; tauto].
    injection H as -> _. simpl. tauto.
Qed.

Lemma winners_in (l : list EntitySpan) w : In w (winners l) -> In w l.
Proof.
  unfold winners. intros H.
  destruct (sweep_in l ([], None) w) as [[]|[(ge & E)|Hin]]; try easy.
  destruct (fold_left sweep l ([], None)) as [closed [[best ge]|]];
    cbn [fst snd].
  - apply in_app_or in H. destruct H as [H|[<-|[]]]; [now left|].
    right. now exists ge.
  - now left.
Qed.

(** Every resolved span was detected and scores at least the threshold. *)
Lemma resolve_in threshold spans w :
  In w (resolve threshold spans) ->
  In w spans /\ (threshold <= span_score w)%Q.
Proof.
  unfold resolve, above_threshold. intros H.
  apply winners_in, in_sort_by, filter_In in H.
  destruct H as [Hin Hq]. split; [exact Hin|].
  now apply Qle_bool_iff.
Qed.

Lemma resolve_sorted threshold spans :
  StronglySorted before (resolve threshold spans).
Proof. apply winners_sorted, sort_by_sorted. Qed.

End EngineFacts.

Module MaskFacts.
Import Processor ProcessorSpec Engine EngineInv StringFacts EngineFacts.

(** *** The operators built by [mask_pii] *)

Lemma fold_operators (rs : list RecognizerResult) : forall (m : gmap string OperatorConfig) ty,
  In ty (map entity_type rs) \/ m !! ty = Some (replace_with ty) ->
  fold_left (fun ops r => <[entity_type r := replace_with (entity_type r)]> ops)
            rs m !! ty = Some (replace_with ty).
Proof.
  induction rs as [|r rs IH]; intros m ty H; simpl.
  - destruct H as [[]|H]. exact H.
  - apply IH. simpl in H.
    destruct (decide (entity_type r = ty)) as [<-|Hne].
    + right. apply lookup_insert_eq.
    + destruct H as [[H|H]|H]; [contradiction|now left|].
      right. now rewrite lookup_insert_ne.
Qed.

(** Every result's entity type has its [replace] operator, whose new value
    is the type between angle brackets. *)
Lemma operators_lookup (results : list RecognizerResult) r :
  In r results ->
  operators results !! entity_type r = Some (replace_with (entity_type r)).
Proof.
  intros H. apply fold_operators. left. now apply in_map.
Qed.

Lemma replacement_operators results r :
  In r results -> replacement (operators results) r = placeholder (entity_type r).
Proof.
  intros H. unfold replacement. now rewrite (operators_lookup results r H).
Qed.

(** *** Replacement from the last span to the first *)

Lemma chain_sorted len : forall rs lo,
  chain len lo rs ->
  StronglySorted (by_key start) rs /\ Forall (fun r => lo <= start r) rs.
Proof.
  induction rs as [|r rs IH]; intros lo H; simpl in H.
  - split; constructor.
  - destruct H as (H1 & H2 & H3 & H4).
    destruct (IH _ H4) as [Hs Hf]. split.
    + constructor; [exact Hs|].
      eapply Forall_impl; [exact Hf|]. unfold by_key. intros; cbn in *; lia.
    + constructor; [exact H1|].
      eapply Forall_impl; [exact Hf|]. intros; cbn in *; lia.
Qed.

Lemma replace_chain policy text : forall rs lo,
  chain (String.length text) lo rs ->
  (forall r, In r rs -> replacement policy r = placeholder (entity_type r)) ->
  fold_right (fun r t => replace_span policy t r) text rs
  = str_take lo text +:+ spliced text lo rs.
Proof.
  induction rs as [|r rs IH]; intros lo Hc Hp.
  - simpl. now rewrite take_drop.
  - destruct Hc as (H1 & H2 & H3 & H4). cbn [fold_right spliced].
    rewrite (IH (end_ r) H4) by (intros; apply Hp; now right).
    unfold replace_span.
    rewrite take_app_le by (rewrite length_take; lia).
    rewrite take_take by lia.
    rewrite drop_take_app by exact H3.
    rewrite (Hp r) by now left.
    now rewrite <- (take_slice text lo (start r) H1), !app_assoc.
Qed.

Lemma anonymize_text_chain policy text rs :
  chain (String.length text) 0 rs ->
  (forall r, In r rs -> replacement policy r = placeholder (entity_type r)) ->
  anonymize_text policy text rs = spliced text 0 rs.
Proof.
  intros Hc Hp. unfold anonymize_text.
  rewrite (sort_by_id start rs) by apply (chain_sorted _ _ _ Hc).
  rewrite <- (rev_involutive rs) at 2.
  rewrite <- (fold_left_rev_right (fun r t => replace_span policy t r)).
  rewrite rev_involutive.
  now rewrite (replace_chain policy text rs 0 Hc Hp).
Qed.

(** *** The resolved spans as a chain *)

Lemma to_result_chain len (ws : list EntitySpan) :
  StronglySorted before ws ->
  (forall w, In w ws -> span_start w <= span_end w /\ span_end w <= len) ->
  forall lo, (forall w, In w ws -> lo <= span_start w) ->
  chain len lo (map to_result ws).
Proof.
  induction 1 as [|w ws Hs IH Hw]; intros Hwf lo Hlo; simpl; [exact I|].
  destruct (Hwf w) as [H1 H2]; [now left|].
  repeat split; try assumption.
  - apply Hlo. now left.
  - apply IH.
    + intros; apply Hwf; now right.
    + intros w' Hin. rewrite List.Forall_forall in Hw. now apply Hw.
Qed.

Lemma results_chain detector text :
  (forall r, In r (results_of detector text) ->
             start r <= end_ r /\ end_ r <= String.length text) ->
  chain (String.length text) 0 (results_of detector text).
Proof.
  intros H. unfold results_of. apply to_result_chain.
  - apply resolve_sorted.
  - intros w Hw. apply (H (to_result w)). unfold results_of. now apply in_map.
  - intros; lia.
Qed.

Lemma mask_pii_spec detector text :
  mask_pii (spec_processor detector) text
  = (anonymize_text (operators (results_of detector text)) text
                    (results_of detector text),
     [(INFO, "Masked " +:+ Difflib.str_of_nat (length (results_of detector text))
             +:+ " PII entities")]).
Proof. reflexivity. Qed.

Lemma results_requested detector text r :
  In r (results_of detector text) ->
  In (entity_type r) entities /\ (score_threshold <= score r)%Q.
Proof.
  unfold results_of. intros H. apply in_map_iff in H.
  destruct H as (w & <- & Hw). apply resolve_in in Hw.
  destruct Hw as [Hin Hq]. split; [|exact Hq].
  unfold requested in Hin. apply filter_In in Hin. destruct Hin as [_ He].
  apply existsb_exists in He. destruct He as (e & He & Heq).
  apply String.eqb_eq in Heq. cbn. now rewrite Heq.
Qed.

Lemma entities_upper_case : Forall (fun e => upper_case e = true) entities.
Proof. repeat constructor. Qed.

Lemma entities_break_free :
  Forall (fun e => break_free (placeholder e) = true) entities.
Proof. repeat constructor. Qed.

(** *** Counting lines *)

Lemma lf_is_linebreak c : Py.is_lf c = true -> Py.is_linebreak c = true.
Proof.
  unfold Py.is_lf, Py.is_linebreak. intros H. apply N.eqb_eq in H.
  now rewrite H.
Qed.

Lemma lines_plain f c s :
  Py.is_linebreak c = false ->
  length (Py.splitlines_from f (String c s))
  = max 1 (length (Py.splitlines_from false s)).
Proof.
  intros H. cbn [Py.splitlines_from].
  assert (Hlf : Py.is_lf c = false).
  { destruct (Py.is_lf c) eqn:E; [|reflexivity].
    apply lf_is_linebreak in E. congruence. }
  rewrite Hlf, andb_false_r, H.
  destruct (Py.splitlines_from false s); simpl; lia.
Qed.

Lemma lines_break_free f x s :
  x <> EmptyString -> break_free x = true ->
  length (Py.splitlines_from f (x +:+ s))
  = max 1 (length (Py.splitlines_from false s)).
Proof.
  revert f. induction x as [|c x IH]; intros f Hne Hb; [congruence|].
  cbn [break_free] in Hb. apply andb_true_iff in Hb. destruct Hb as [Hc Hx].
  apply negb_true_iff in Hc. rewrite app_cons, lines_plain by exact Hc.
  destruct x as [|d x].
  - now rewrite app_nil_l.
  - rewrite IH; [lia|discriminate|exact Hx].
Qed.

(** Replacing a piece without line boundaries by another one keeps the
    number of lines. *)
Lemma lines_replace x y s : forall a f,
  x <> EmptyString -> break_free x = true ->
  y <> EmptyString -> break_free y = true ->
  length (Py.splitlines_from f (a +:+ x +:+ s))
  = length (Py.splitlines_from f (a +:+ y +:+ s)).
Proof.
  induction a as [|c a IH]; intros f Hx1 Hx2 Hy1 Hy2.
  - rewrite !app_nil_l, !lines_break_free by assumption. reflexivity.
  - rewrite !app_cons. cbn [Py.splitlines_from].
    destruct (f && Py.is_lf c); [now apply IH|].
    destruct (Py.is_linebreak c).
    + cbn [length]. f_equal. now apply IH.
    + specialize (IH false Hx1 Hx2 Hy1 Hy2).
      destruct (Py.splitlines_from false (a +:+ x +:+ s)),
               (Py.splitlines_from false (a +:+ y +:+ s));
        simpl in *; congruence.
Qed.

Lemma length_drop n s : String.length (str_drop n s) = String.length s - n.
Proof.
  revert s. induction n as [|n IH]; intros [|c s]; simpl; try reflexivity.
  apply IH.
Qed.

Lemma slice_nonempty text i j :
  i < j -> j <= String.length text -> str_slice text i j <> EmptyString.
Proof.
  intros H1 H2 E. apply (f_equal String.length) in E.
  unfold str_slice in E. rewrite length_take in E; simpl in E; [lia|].
  rewrite length_drop. lia.
Qed.

Lemma lines_spliced text : forall rs lo a f,
  chain (String.length text) lo rs ->
  (forall r, In r rs -> within_lines text r
                        /\ break_free (placeholder (entity_type r)) = true) ->
  length (Py.splitlines_from f (a +:+ spliced text lo rs))
  = length (Py.splitlines_from f (a +:+ str_drop lo text)).
Proof.
  induction rs as [|r rs IH]; intros lo a f Hc Hr; [reflexivity|].
  destruct Hc as (H1 & H2 & H3 & H4).
  destruct (Hr r) as [(Hw1 & Hw2 & Hw3) Hp]; [now left|].
  cbn [spliced].
  rewrite <- !app_assoc, (IH (end_ r)); [|exact H4|intros; apply Hr; now right].
  rewrite (drop_slice text lo (start r) H1), (drop_slice text (start r) (end_ r) H2).
  pose proof (lines_replace (placeholder (entity_type r))
                (str_slice text (start r) (end_ r)) (str_drop (end_ r) text)
                (a +:+ str_slice text lo (start r)) f) as E.
  rewrite !app_assoc in E |- *. apply E; try assumption.
  - discriminate.
  - now apply slice_nonempty.
Qed.

(** What [mask_pii] returns under the model of the engines: the text with
    the resolved spans, which follow one another, replaced one by one. *)
Lemma mask_pii_spliced (detector : string -> list EntitySpan) (text : string) :
  (forall r, In r (results_of detector text) ->
             start r <= end_ r /\ end_ r <= String.length text) ->
  fst (mask_pii (spec_processor detector) text)
  = spliced text 0 (results_of detector text)
  /\ chain (String.length text) 0 (results_of detector text).
Proof.
  intros H.
  pose proof (results_chain detector text H) as Hc.
  split; [|exact Hc].
  rewrite mask_pii_spec. cbn [fst].
  apply anonymize_text_chain; [exact Hc|].
  intros r Hr. now apply replacement_operators.
Qed.

End MaskFacts.

(** C8.  Under the resolution and the anonymizer of the specification, and
    for detected spans that lie within the text, [mask_pii] returns the
    text with the substring of every resolved span replaced by the
    placeholder [<ENTITY_TYPE>] and the rest unchanged.  The resolved spans
    follow one another without overlap; the type of each is one of the
    requested upper-case names, and [mask_pii] builds its [replace]
    operator with that placeholder, so no type is without an entry. *)
Theorem masked_spans_become_placeholders
    (detector : string -> list Engine.EntitySpan) (text : string) :
  (forall r, In r (Engine.results_of detector text) ->
             start r <= end_ r /\ end_ r <= String.length text) ->
  fst (Processor.mask_pii (Engine.spec_processor detector) text)
  = Engine.spliced text 0 (Engine.results_of detector text)
  /\ Engine.chain (String.length text) 0 (Engine.results_of detector text)
  /\ forall r, In r (Engine.results_of detector text) ->
       In (entity_type r) Processor.entities
       /\ Engine.upper_case (entity_type r) = true
       /\ Processor.operators (Engine.results_of detector text) !! entity_type r
          = Some (mk_operator "replace" ("<" +:+ entity_type r +:+ ">")).
Proof.
  intros H.
  destruct (MaskFacts.mask_pii_spliced detector text H) as [E Hc].
  split; [exact E|]. split; [exact Hc|].
  intros r Hr.
  destruct (MaskFacts.results_requested detector text r Hr) as [He _].
  repeat split; [exact He| |now apply MaskFacts.operators_lookup].
  pose proof MaskFacts.entities_upper_case as Hu.
  rewrite List.Forall_forall in Hu. now apply Hu.
Qed.

Lemma masked_spans_become_placeholders_witness :
  fst (Processor.mask_pii Reading.pattern_processor "SSN: 123-45-6789")
  = Engine.spliced "SSN: 123-45-6789" 0
      (Engine.results_of Reading.pattern_detector "SSN: 123-45-6789").
Proof.
  refine (proj1 (masked_spans_become_placeholders Reading.pattern_detector
                   "SSN: 123-45-6789" _)).
  intros r Hr. vm_compute in Hr. destruct Hr as [<-|[]]. vm_compute. lia.
Defined.

(** C3 (as amended).  Under the resolution and the anonymizer of the
    specification, [mask_pii]'s output has exactly as many lines as its
    input whenever every resolved span is a non-empty range of the text
    that holds no line boundary: only text inside lines is rewritten. *)
Theorem mask_pii_keeps_line_count
    (detector : string -> list Engine.EntitySpan) (text : string) :
  (forall r, In r (Engine.results_of detector text) ->
             Engine.within_lines text r) ->
  length (Py.splitlines
            (fst (Processor.mask_pii (Engine.spec_processor detector) text)))
  = length (Py.splitlines text).
Proof.
  intros H.
  assert (Hb : forall r, In r (Engine.results_of detector text) ->
                         start r <= end_ r /\ end_ r <= String.length text).
  { intros r Hr. destruct (H r Hr) as (H1 & H2 & _). lia. }
  destruct (MaskFacts.mask_pii_spliced detector text Hb) as [-> Hc].
  unfold Py.splitlines.
  pose proof (MaskFacts.lines_spliced text (Engine.results_of detector text)
                0 EmptyString false Hc) as E.
  rewrite !StringFacts.app_nil_l in E. apply E.
  intros r Hr. split; [now apply H|].
  destruct (MaskFacts.results_requested detector text r Hr) as [He _].
  pose proof MaskFacts.entities_break_free as Hf.
  rewrite List.Forall_forall in Hf. now apply Hf.
Qed.

Lemma mask_pii_keeps_line_count_witness :
  length (Py.splitlines
            (fst (Processor.mask_pii Reading.pattern_processor
                    ("Name: Al" +:+ Py.nl +:+ "Phone: 555-123-4567"))))
  = length (Py.splitlines ("Name: Al" +:+ Py.nl +:+ "Phone: 555-123-4567")).
Proof.
  apply (mask_pii_keeps_line_count Reading.pattern_detector
           ("Name: Al" +:+ Py.nl +:+ "Phone: 555-123-4567")).
  intros r Hr. vm_compute in Hr.
  destruct Hr as [<-|[<-|[]]]; vm_compute; repeat split; lia.
Defined.

(** C3, the claim as worded, fails: the e-mail pattern admits a line
    boundary between its two parts, so two lines of a diff, "-Total" and
    "-12.50", are matched as one address and come out as a single line. *)
Lemma mask_pii_joins_lines :
  fst (Processor.mask_pii Reading.pattern_processor
         ("-Total" +:+ Py.nl +:+ "-12.50")) = "-<EMAIL_ADDRESS>"
  /\ length (Py.splitlines ("-Total" +:+ Py.nl +:+ "-12.50")) = 2
  /\ length (Py.splitlines
               (fst (Processor.mask_pii Reading.pattern_processor
                       ("-Total" +:+ Py.nl +:+ "-12.50")))) = 1.
Proof.
  split; [vm_compute; reflexivity|].
  split; vm_compute; reflexivity.
Qed.

Module ThresholdFacts.
Import Processor Engine EngineInv EngineFacts.








End ThresholdFacts.

Module SingleFacts.
Import Processor Engine.




End SingleFacts.


(** ** The report *)

Module ReportFacts.
Import Processor ProcessorSpec DocumentFacts.

Lemma compare_all_fst self documents : forall ps unmasked masked,
  fst (compare_all self documents ps unmasked masked)
  = (unmasked ++ map (fun p => fst (fst (compare_pair self documents p))) ps,
     masked ++ map (fun p => snd (fst (compare_pair self documents p))) ps).
Proof.
  induction ps as [|p ps IH]; intros unmasked masked.
  - simpl. now rewrite !List.app_nil_r.
  - cbn [compare_all]. rewrite fst_bind, IH. cbn [map].
    now rewrite <- !List.app_assoc.
Qed.

(** The two files are the title followed by the sections of the pairs. *)
Lemma process_directory_files self image_to_string now images :
  2 <= length images ->
  exists docs,
    fst (process_directory self image_to_string now images)
    = Some (mk_written
              (Py.join EmptyString
                 (report_title now
                  :: map (fun s => fst (snd s))
                         (report_sections self image_to_string images)))
              (Py.join EmptyString
                 (report_title now
                  :: map (fun s => snd (snd s))
                         (report_sections self image_to_string images)))
              docs).
Proof.
  intros H. unfold process_directory.
  rewrite fst_bind. cbn [log fst].
  destruct (length images <? 2) eqn:E; [apply Nat.ltb_lt in E; lia|].
  rewrite !fst_bind, compare_all_fst. cbn [fst snd].
  eexists. unfold mret, logged_ret. cbn [fst].
  unfold report_sections. rewrite !map_map. cbn [snd fst]. reflexivity.
Qed.

End ReportFacts.

(** The unmasked report holds the frame of the report format for every
    pair: the comparison line, a rule of eighty [=], then the marker when
    [compare_texts] finds no difference between the two documents and
    otherwise the heading and the lines of their diff joined by newlines,
    ending its line, a blank line, and the rule again. *)
Lemma unmasked_section_format (self : DocumentProcessor)
    (documents : dict string) (name1 name2 : string) :
  String.length Processor.rule = 80
  /\ Processor.rule = string_of_list_ascii (repeat "="%char 80)
  /\ fst (fst (Processor.compare_pair self documents (name1, name2)))
     = "Comparison: " +:+ name1 +:+ " vs " +:+ name2 +:+ Py.nl
       +:+ Processor.rule +:+ Py.nl
       +:+ match Processor.compare_texts
                   (Processor.text_of documents name1)
                   (Processor.text_of documents name2) name1 name2 with
           | [] => "No Differences Found"
           | diff => "Differences Found:" +:+ Py.nl +:+ Py.join Py.nl diff
           end +:+ Py.nl
       +:+ Py.nl +:+ Processor.rule +:+ Py.nl +:+ Py.nl.
Proof.
  split; [reflexivity|]. split; [reflexivity|].
  rewrite ProcessorFacts.compare_pair_unfold. cbn zeta. cbn [fst].
  unfold Processor.comparison_header, Processor.section_end, Processor.diff_text.
  destruct (Processor.compare_texts _ _ _ _) as [|d diff];
    now rewrite !StringFacts.app_assoc.
Qed.

(** C9 fails for the masked report.  Two documents whose only lines are
    "Name: Al" and "Name: Bob": the name pattern's trailing [\s*] takes the
    diff text's final newline into the last match, the masked diff text no
    longer ends its line, and the masked section has no blank line before
    the closing rule, while the unmasked section has one. *)
Lemma masked_section_without_blank_line :
  map (fun s => (Py.splitlines (fst (snd s)), Py.splitlines (snd (snd s))))
      (Processor.report_sections Reading.pattern_processor
         Reading.two_names_reader ["a.png"; "b.png"])
  = [(["Comparison: a.png vs b.png"; Processor.rule; "Differences Found:";
       "--- a.png"; "+++ b.png"; "@@ -1 +1 @@"; "-Name: Al"; "+Name: Bob";
       ""; Processor.rule; ""],
      ["Comparison: a.png vs b.png"; Processor.rule; "Differences Found:";
       "--- a.png"; "+++ b.png"; "@@ -1 +1 @@"; "-<PERSON>"; "+<PERSON>";
       Processor.rule; ""])].
Proof. vm_compute. reflexivity. Qed.

(** ** Comparing a document with itself *)

Module SameFacts.
Import Difflib.

Section Same.

Variable a : list string.

Local Abbreviation nonpop := (SameInv.nonpop a).
Local Abbreviation hit := (SameInv.hit a).
Local Abbreviation run := (SameInv.run a).
Local Abbreviation prev := (SameInv.prev a).
Local Abbreviation column := (SameInv.column a).
Local Abbreviation diag_ok := (SameInv.diag_ok a).

Lemma run_eq i j : run i j = if hit i j then S (prev i j) else 0.
Proof. destruct i; reflexivity. Qed.

Lemma run_le i : forall j, run i j <= S i.
Proof.
  induction i as [|i IH]; intros j; rewrite run_eq; destruct (hit _ j);
    try lia.
  - simpl. lia.
  - destruct j; simpl; [lia|]. specialize (IH j). lia.
Qed.

Lemma eq_at_refl i : i < length a -> eq_at a a i i = true.
Proof.
  intros H. unfold eq_at. destruct (lookup_lt_is_Some_2 a i H) as [x ->].
  apply String.eqb_refl.
Qed.

Lemma hit_min i j : hit i j = true -> hit (min i j) (min i j) = true.
Proof.
  unfold hit, eq_at, nonpop. intros H. apply andb_true_iff in H.
  destruct H as [He Hn].
  destruct (a !! i) as [x|] eqn:Ei; [|discriminate].
  destruct (a !! j) as [y|] eqn:Ej; [|discriminate].
  apply String.eqb_eq in He. subst y.
  destruct (Nat.min_dec i j) as [-> | ->]; [rewrite Ei|rewrite Ej];
    now rewrite String.eqb_refl.
Qed.

(** A common run is never longer than the run on the diagonal at its
    lower end. *)
Lemma run_diag i : forall j, run i j <= run (min i j) (min i j).
Proof.
  induction i as [|i IH]; intros j; rewrite (run_eq _ j).
  - destruct (hit 0 j) eqn:E; [|lia]. apply hit_min in E.
    rewrite run_eq, E. simpl. lia.
  - destruct (hit (S i) j) eqn:E; [|lia]. apply hit_min in E.
    rewrite (run_eq (min _ _)), E.
    destruct j as [|j]; simpl; [lia|]. specialize (IH j). lia.
Qed.

Lemma run_out i j : length a <= j -> run i j = 0.
Proof.
  intros H. rewrite run_eq. unfold hit, eq_at.
  rewrite (lookup_ge_None_2 a j H). now destruct (a !! i).
Qed.

Lemma positions_filter (x : string) (l : list string) : forall s,
  positions x l s
  = List.filter (fun j => match l !! (j - s) with
                          | Some y => String.eqb y x
                          | None => false
                          end) (seq s (length l)).
Proof.
  induction l as [|y l IH]; intros s; [reflexivity|].
  cbn [positions length seq List.filter]. rewrite Nat.sub_diag. cbn [lookup list_lookup].
  rewrite IH.
  assert (E : List.filter (fun j => match (y :: l) !! (j - s) with
                                    | Some y => String.eqb y x
                                    | None => false
                                    end) (seq (S s) (length l))
              = List.filter (fun j => match l !! (j - S s) with
                                      | Some y => String.eqb y x
                                      | None => false
                                      end) (seq (S s) (length l))).
  { apply filter_ext_in. intros j Hj. apply in_seq in Hj.
    replace (j - s) with (S (j - S s)) by lia. reflexivity. }
  rewrite E. now destruct (String.eqb y x).
Qed.

Lemma positions_column x :
  positions x a 0 = List.filter (column x) (seq 0 (length a)).
Proof.
  rewrite positions_filter. apply filter_ext. intros j.
  now rewrite Nat.sub_0_r.
Qed.

Section Row.

Variables (i : nat) (x : string) (j2len : gmap nat nat).
Hypothesis Hi : a !! i = Some x.
Hypothesis Hx : is_popular a x = false.
Hypothesis Hprev : forall j, j2len_get j2len j = prev i j.

Lemma hit_column j : hit i j = column x j.
Proof.
  unfold hit, eq_at, nonpop, column. rewrite Hi, Hx.
  destruct (a !! j) as [y|]; [|reflexivity].
  simpl. rewrite andb_true_r. apply String.eqb_sym.
Qed.

Lemma scan_row_same : forall len lb best new,
  lb + len = length a ->
  diag_ok best ->
  (forall i' j, i' < i -> run i' j <= m_size best) ->
  (forall j, j < lb -> run i j <= m_size best) ->
  (forall j, default 0 (new !! j) = if j <? lb then run i j else 0) ->
  let r := scan_row 0 (length a) i j2len
             (List.filter (column x) (seq lb len)) best new in
  diag_ok (fst r)
  /\ (forall i' j, i' < S i -> run i' j <= m_size (fst r))
  /\ (forall j, default 0 (snd r !! j) = run i j).
Proof.
  induction len as [|len IH]; intros lb best new Hlen Hd Hrows Hcols Hnew.
  - cbn zeta. cbn [seq List.filter scan_row fst snd].
    split; [exact Hd|split].
    + intros i' j Hi'. destruct (decide (i' = i)) as [->|Hne].
      * destruct (le_lt_dec (length a) j) as [Hj|Hj].
        -- rewrite run_out by exact Hj. lia.
        -- apply Hcols. lia.
      * apply Hrows. lia.
    + intros j. rewrite Hnew.
      destruct (j <? lb) eqn:E; [reflexivity|].
      apply Nat.ltb_ge in E. symmetry. apply run_out. lia.
  - cbn [seq List.filter].
    assert (Hi_lt : i < length a) by (eapply lookup_lt_Some; exact Hi).
    destruct (column x lb) eqn:Ec.
    + cbn [scan_row].
      assert (Hb0 : (lb <? 0) = false) by (apply Nat.ltb_ge; lia).
      assert (Hb : (length a <=? lb) = false) by (apply Nat.leb_gt; lia).
      rewrite Hb0, Hb, Hprev.
      assert (Hk : run i lb = prev i lb + 1).
      { rewrite run_eq, hit_column, Ec. lia. }
      rewrite <- Hk.
      assert (Hnew' : forall j,
                 default 0 (<[lb := run i lb]> new !! j)
                 = if j <? S lb then run i j else 0).
      { intros j. destruct (decide (j = lb)) as [->|Hne].
        - rewrite lookup_insert_eq.
          replace (lb <? S lb) with true
            by (symmetry; apply Nat.ltb_lt; lia).
          reflexivity.
        - rewrite lookup_insert_ne by congruence. rewrite Hnew.
          destruct (j <? lb) eqn:E1, (j <? S lb) eqn:E2; try reflexivity.
          + apply Nat.ltb_lt in E1. apply Nat.ltb_ge in E2. lia.
          + apply Nat.ltb_ge in E1. apply Nat.ltb_lt in E2. lia. }
      destruct (m_size best <? run i lb) eqn:E.
      * apply Nat.ltb_lt in E.
        assert (lb = i) as ->.
        { destruct (lt_eq_lt_dec lb i) as [[H|H]|H]; [|exact H|].
          - pose proof (run_diag i lb) as Hm. rewrite Nat.min_r in Hm by lia.
            specialize (Hrows lb lb H). lia.
          - pose proof (run_diag i lb) as Hm. rewrite Nat.min_l in Hm by lia.
            specialize (Hcols i H). lia. }
        pose proof (run_le i i) as Hle.
        apply IH; [lia| | | |exact Hnew'].
        -- unfold diag_ok. cbn. lia.
        -- intros i' j Hi'. specialize (Hrows i' j Hi'). cbn. lia.
        -- intros j Hj. cbn.
           destruct (decide (j = i)) as [->|Hne]; [lia|].
           assert (j < i) as Hlt by lia. specialize (Hcols j Hlt). lia.
      * apply Nat.ltb_ge in E.
        apply IH; [lia|exact Hd|exact Hrows| |exact Hnew'].
        intros j Hj. destruct (decide (j = lb)) as [->|Hne]; [lia|].
        apply Hcols. lia.
    + assert (Hz : run i lb = 0) by (now rewrite run_eq, hit_column, Ec).
      apply IH; [lia|exact Hd|exact Hrows| |].
      * intros j Hj. destruct (decide (j = lb)) as [->|Hne]; [lia|].
        apply Hcols. lia.
      * intros j. rewrite Hnew.
        destruct (decide (j = lb)) as [->|Hne].
        -- rewrite Nat.ltb_irrefl, (proj2 (Nat.ltb_lt lb (S lb))) by lia.
           now rewrite Hz.
        -- destruct (j <? lb) eqn:E1, (j <? S lb) eqn:E2; try reflexivity.
           ++ apply Nat.ltb_lt in E1. apply Nat.ltb_ge in E2. lia.
           ++ apply Nat.ltb_ge in E1. apply Nat.ltb_lt in E2. lia.
Qed.

End Row.

Lemma scan_rows_same : forall cnt i j2len best,
  i + cnt = length a ->
  diag_ok best ->
  (forall i' j, i' < i -> run i' j <= m_size best) ->
  (forall j, j2len_get j2len j = prev i j) ->
  diag_ok (scan_rows a a 0 (length a) (seq i cnt) j2len best).
Proof.
  induction cnt as [|cnt IH]; intros i j2len best Hlen Hd Hrows Hprev;
    [exact Hd|].
  cbn [seq scan_rows].
  assert (Hi_lt : i < length a) by lia.
  destruct (lookup_lt_is_Some_2 a i Hi_lt) as [x Hx]. rewrite Hx.
  unfold b2j_get. destruct (is_popular a x) eqn:Hp.
  - cbn [scan_row]. apply IH; [lia|exact Hd| |].
    + intros i' j Hi'. destruct (decide (i' = i)) as [->|Hne].
      * rewrite run_eq. unfold hit, nonpop. rewrite Hx, Hp.
        rewrite andb_false_r. lia.
      * apply Hrows. lia.
    + intros [|j]; [reflexivity|]. cbn. rewrite lookup_empty. cbn.
      rewrite run_eq. unfold hit, nonpop. rewrite Hx, Hp.
      now rewrite andb_false_r.
  - rewrite positions_column.
    pose proof (scan_row_same i x j2len Hx Hp Hprev (length a) 0 best ∅) as H.
    cbn zeta in H.
    destruct (scan_row 0 (length a) i j2len
                (List.filter (column x) (seq 0 (length a))) best ∅)
      as [best' new] eqn:E.
    cbn [fst snd] in H.
    destruct H as (Hd' & Hrows' & Hnew); [reflexivity|exact Hd|exact Hrows| | |].
    + intros; lia.
    + intros j. now rewrite lookup_empty.
    + apply IH; [lia|exact Hd'|exact Hrows'|].
      intros [|j]; [reflexivity|]. cbn. apply Hnew.
Qed.

Lemma junk_at_false j : junk_at a j = false.
Proof. unfold junk_at, isbjunk. now destruct (a !! j). Qed.

Lemma extend_left_diag : forall i k,
  i <= length a ->
  extend_left a a false 0 0 i i k = mk_match 0 0 (k + i).
Proof.
  induction i as [|i IH]; intros k H.
  - cbn. f_equal. lia.
  - cbn [extend_left]. rewrite junk_at_false, eq_at_refl by lia.
    cbn [Nat.ltb Nat.leb andb Bool.eqb].
    rewrite IH by lia. f_equal. lia.
Qed.

Lemma extend_right_diag : forall room k,
  room = length a - k -> k <= length a ->
  extend_right a a false (length a) 0 0 room k = mk_match 0 0 (length a).
Proof.
  induction room as [|room IH]; intros k Hr Hk.
  - cbn. f_equal. lia.
  - cbn [extend_right]. cbn [Nat.add].
    rewrite junk_at_false, eq_at_refl by lia.
    replace (k <? length a) with true by (symmetry; apply Nat.ltb_lt; lia).
    cbn [andb Bool.eqb]. apply IH; lia.
Qed.

Lemma extend_junk_id alo ahi blo bhi m :
  extend a a true alo ahi blo bhi m = m.
Proof.
  unfold extend.
  assert (E : extend_left a a true alo blo (m_a m) (m_b m) (m_size m) = m).
  { destruct m as [i j k]. cbn [m_a m_b m_size].
    destruct i as [|i], j as [|j]; try reflexivity.
    cbn [extend_left]. rewrite junk_at_false. cbn [Bool.eqb].
    now rewrite andb_false_r. }
  rewrite E. destruct m as [i j k]. cbn [m_a m_b m_size].
  destruct (ahi - (i + k)) as [|room]; [reflexivity|].
  cbn [extend_right]. rewrite junk_at_false. cbn [Bool.eqb].
  now rewrite andb_false_r.
Qed.

(** The longest match of a sequence with itself is the whole sequence. *)
Lemma find_longest_match_same :
  find_longest_match a a 0 (length a) 0 (length a) = mk_match 0 0 (length a).
Proof.
  unfold find_longest_match. rewrite extend_junk_id.
  rewrite Nat.sub_0_r.
  pose proof (scan_rows_same (length a) 0 ∅ (mk_match 0 0 0)) as H.
  destruct H as [H1 H2]; try reflexivity.
  - split; cbn; lia.
  - intros; lia.
  - now intros [|j].
  - destruct (scan_rows a a 0 (length a) (seq 0 (length a)) ∅ (mk_match 0 0 0))
      as [i j k]. cbn [m_a m_b m_size] in *. subst j.
    unfold extend. cbn [m_a m_b m_size].
    rewrite extend_left_diag by lia. cbn [m_a m_b m_size].
    apply extend_right_diag; lia.
Qed.

Lemma matching_blocks_same :
  get_matching_blocks a a
  = if 0 <? length a
    then [mk_match 0 0 (length a); mk_match (length a) (length a) 0]
    else [mk_match 0 0 0].
Proof.
  unfold get_matching_blocks.
  replace (2 * length a + 2) with (S (2 * length a + 1)) by lia.
  cbn [matching_loop]. rewrite find_longest_match_same. cbn [m_a m_b m_size].
  destruct (0 <? length a) eqn:E.
  - rewrite Nat.ltb_irrefl. cbn [andb Nat.add].
    rewrite Nat.ltb_irrefl. cbn [andb].
    replace (2 * length a + 1) with (S (2 * length a)) by lia.
    cbn [matching_loop snd app].
    change (merge_sort match_le [mk_match 0 0 (length a)])
      with [mk_match 0 0 (length a)].
    unfold collapse.
    cbn [fold_left collapse_step m_a m_b m_size Nat.add Nat.eqb andb].
    now rewrite E.
  - apply Nat.ltb_ge in E. assert (length a = 0) as -> by lia. reflexivity.
Qed.

Lemma opcodes_same :
  get_opcodes a a
  = if 0 <? length a then [mk_op Equal 0 (length a) 0 (length a)] else [].
Proof.
  unfold get_opcodes. rewrite matching_blocks_same.
  destruct (0 <? length a) eqn:E; [|reflexivity].
  cbn [fold_left opcode_step m_a m_b m_size Nat.add].
  rewrite !Nat.ltb_irrefl, E. reflexivity.
Qed.

(** Comparing a sequence with itself gives no group of opcodes. *)
Lemma grouped_opcodes_same (n : nat) : get_grouped_opcodes a a n = [].
Proof.
  unfold get_grouped_opcodes. rewrite opcodes_same.
  destruct (0 <? length a) eqn:E.
  - cbn [trim_first trim_last is_equal op_tag op_i1 op_i2 op_j1 op_j2
         fold_left group_step andb].
    replace (n + n <? _) with false; [reflexivity|].
    symmetry. apply Nat.ltb_ge. lia.
  - cbn [trim_first trim_last is_equal op_tag op_i1 op_i2 op_j1 op_j2
         fold_left group_step andb].
    replace (n + n <? _) with false; [reflexivity|].
    symmetry. apply Nat.ltb_ge. lia.
Qed.

Lemma unified_diff_same (fromfile tofile : string) (n : nat) :
  unified_diff a a fromfile tofile n = [].
Proof. unfold unified_diff. now rewrite grouped_opcodes_same. Qed.

End Same.
End SameFacts.

(** C5 (as amended).  Diffing a document against itself yields an empty
    diff: no hunk at all and no reported difference; the report records the
    literal "No Differences Found" for such a pair. *)
Theorem identical_documents_report (text name1 name2 : string)
    (self : DocumentProcessor) :
  Processor.compare_texts text text name1 name2 = []
  /\ Processor.diff_hunks text text = []
  /\ Processor.diff_text (Processor.compare_texts text text name1 name2)
     = "No Differences Found" +:+ Py.nl
  /\ fst (fst (Processor.compare_pair self [(name1, text); (name2, text)]
                 (name1, name2)))
     = Processor.comparison_header name1 name2
       +:+ ("No Differences Found" +:+ Py.nl) +:+ Processor.section_end.
Proof.
  assert (E : forall t1 t2 n1 n2, t1 = t2 ->
                Processor.compare_texts t1 t2 n1 n2 = []).
  { intros t1 t2 n1 n2 <-. apply SameFacts.unified_diff_same. }
  split; [now apply E|]. split; [|split].
  - unfold Processor.diff_hunks.
    now rewrite SameFacts.grouped_opcodes_same.
  - now rewrite E.
  - rewrite ProcessorFacts.compare_pair_unfold. cbn zeta. cbn [fst].
    rewrite E; [reflexivity|].
    unfold Processor.text_of. cbn [dict_get].
    rewrite String.eqb_refl. cbn [default from_option].
    destruct (String.eqb name1 name2); [reflexivity|].
    now rewrite String.eqb_refl.
Qed.

(** C5, the claim as worded, fails: the diff of a one-line document with
    itself has no hunk, so it has no single [equal] hunk. *)
Lemma identical_documents_no_equal_hunk :
  Processor.diff_hunks "a" "a" = []
  /\ ~ (exists h, Processor.diff_hunks "a" "a" = [h]
                  /\ Difflib.op_tag h = Difflib.Equal).
Proof.
  split; [reflexivity|]. intros (h & H & _). discriminate H.
Qed.
Module DiffFacts.
Import Difflib DiffInv.

Section Blocks.

Variables a b : list string.

Local Abbreviation genuine := (DiffInv.genuine a b).
Local Abbreviation loop_ok := (DiffInv.loop_ok a b).
Local Abbreviation op_ok := (DiffInv.op_ok a b).
Local Abbreviation path := (DiffInv.path a b).
Local Abbreviation mono := (DiffInv.mono a b).
Local Abbreviation a_side := (DiffInv.a_side a).
Local Abbreviation b_side := (DiffInv.b_side a b).

Section Window.

Variables alo ahi blo bhi : nat.

Local Abbreviation best_ok := (DiffInv.best_ok a b alo ahi blo bhi).
Local Abbreviation prev_ok := (DiffInv.prev_ok a b alo blo).

Lemma j2len_get_ok i j2len j :
  prev_ok i j2len -> alo <= i -> blo <= j -> eq_at a b i j = true ->
  let k := j2len_get j2len j + 1 in
  1 <= k /\ alo + k <= i + 1 /\ blo + k <= j + 1
  /\ forall t, t < k -> eq_at a b (i - t) (j - t) = true.
Proof.
  intros Hp Hi Hj He. cbn zeta.
  destruct j as [|j]; cbn [j2len_get].
  - split; [lia|split; [lia|split; [lia|]]]. intros t Ht.
    assert (t = 0) as -> by lia. now rewrite !Nat.sub_0_r.
  - destruct (j2len !! j) as [k|] eqn:E; simpl.
    + destruct (Hp j k E) as (H1 & H2 & H3 & H4).
      split; [lia|split; [lia|split; [lia|]]]. intros t Ht.
      destruct t as [|t]; [now rewrite !Nat.sub_0_r|].
      specialize (H4 t). 
      replace (i - S t) with (i - 1 - t) by lia.
      replace (S j - S t) with (j - t) by lia. apply H4. lia.
    + split; [lia|split; [lia|split; [lia|]]]. intros t Ht.
      assert (t = 0) as -> by lia. now rewrite !Nat.sub_0_r.
Qed.

Lemma scan_row_ok i j2len :
  alo <= i -> i < ahi -> prev_ok i j2len ->
  forall js best new,
    (forall j, In j js -> eq_at a b i j = true) ->
    best_ok best -> prev_ok (S i) new ->
    best_ok (fst (scan_row blo bhi i j2len js best new))
    /\ prev_ok (S i) (snd (scan_row blo bhi i j2len js best new)).
Proof.
  intros Hi1 Hi2 Hp. induction js as [|j js IH]; intros best new Hjs Hb Hn.
  - now split.
  - cbn [scan_row].
    assert (Hjs' : forall j', In j' js -> eq_at a b i j' = true)
      by (intros; apply Hjs; now right).
    destruct (j <? blo) eqn:E1; [now apply IH|].
    destruct (bhi <=? j) eqn:E2; [now split|].
    apply Nat.ltb_ge in E1. apply Nat.leb_gt in E2.
    pose proof (j2len_get_ok i j2len j Hp Hi1 E1 (Hjs j (or_introl eq_refl)))
      as Hk. cbn zeta in Hk.
    set (k := j2len_get j2len j + 1) in *.
    destruct Hk as (K1 & K2 & K3 & K4).
    apply IH; [exact Hjs'| |].
    + destruct (m_size best <? k); [|exact Hb].
      split.
      * unfold inside. cbn [m_a m_b m_size]. lia.
      * intros t Ht. cbn [m_a m_b m_size] in *.
        replace (i + 1 - k + t) with (i - (k - 1 - t)) by lia.
        replace (j + 1 - k + t) with (j - (k - 1 - t)) by lia.
        apply K4. lia.
    + intros j' k' E. destruct (decide (j' = j)) as [->|Hne].
      * rewrite lookup_insert_eq in E. injection E as <-.
        split; [lia|split; [lia|split; [lia|]]]. intros t Ht.
        replace (S i - 1 - t) with (i - t) by lia. now apply K4.
      * rewrite lookup_insert_ne in E by congruence. now apply Hn.
Qed.

Lemma positions_eq x l : forall s j,
  In j (positions x l s) ->
  exists y, l !! (j - s) = Some y /\ String.eqb y x = true.
Proof.
  induction l as [|y l IH]; intros s j H; [destruct H|].
  cbn [positions] in H. destruct (String.eqb y x) eqn:E.
  - destruct H as [<-|H].
    + exists y. rewrite Nat.sub_diag. now split.
    + destruct (IH _ _ H) as (z & Hz & Ez). exists z. split; [|exact Ez].
      assert (S s <= j).
      { clear -H. revert s H. induction l as [|w l IHl]; intros s H;
          [destruct H|].
        cbn [positions] in H. destruct (String.eqb w x).
        - destruct H as [<-|H]; [lia|]. apply IHl in H. lia.
        - apply IHl in H. lia. }
      replace (j - s) with (S (j - S s)) by lia. exact Hz.
  - destruct (IH _ _ H) as (z & Hz & Ez). exists z. split; [|exact Ez].
    assert (S s <= j).
    { clear -H. revert s H. induction l as [|w l IHl]; intros s H;
        [destruct H|].
      cbn [positions] in H. destruct (String.eqb w x).
      - destruct H as [<-|H]; [lia|]. apply IHl in H. lia.
      - apply IHl in H. lia. }
    replace (j - s) with (S (j - S s)) by lia. exact Hz.
Qed.

Lemma b2j_get_eq i x j :
  a !! i = Some x -> In j (b2j_get b x) -> eq_at a b i j = true.
Proof.
  intros Hi Hj. unfold b2j_get in Hj.
  destruct (is_popular b x); [destruct Hj|].
  apply positions_eq in Hj. destruct Hj as (y & Hy & E).
  rewrite Nat.sub_0_r in Hy. unfold eq_at. rewrite Hi, Hy.
  now rewrite String.eqb_sym.
Qed.

Lemma prev_ok_empty i : prev_ok i ∅.
Proof. intros j k E. now rewrite lookup_empty in E. Qed.

Lemma scan_rows_ok : forall cnt i j2len best,
  alo <= i -> i + cnt <= ahi -> prev_ok i j2len -> best_ok best ->
  best_ok (scan_rows a b blo bhi (seq i cnt) j2len best).
Proof.
  induction cnt as [|cnt IH]; intros i j2len best H1 H2 Hp Hb; [exact Hb|].
  cbn [seq scan_rows].
  pose proof (scan_row_ok i j2len H1 ltac:(lia) Hp
                (match a !! i with Some x => b2j_get b x | None => [] end)
                best ∅) as H.
  destruct (scan_row blo bhi i j2len _ best ∅) as [best' new].
  cbn [fst snd] in H. destruct H as [Hb' Hn]; [|exact Hb|apply prev_ok_empty|].
  - intros j Hj. destruct (a !! i) as [x|] eqn:E; [|destruct Hj].
    now apply (b2j_get_eq i x).
  - apply IH; [lia|lia|exact Hn|exact Hb'].
Qed.

Lemma extend_left_ok junk : forall besti bestj bestsize,
  best_ok (mk_match besti bestj bestsize) ->
  best_ok (extend_left a b junk alo blo besti bestj bestsize).
Proof.
  induction besti as [|i IH]; intros bestj bestsize H; [exact H|].
  destruct bestj as [|j]; [exact H|]. cbn [extend_left].
  destruct ((alo <? S i) && (blo <? S j) && Bool.eqb (junk_at b j) junk
            && eq_at a b i j) eqn:E; [|exact H].
  apply andb_true_iff in E. destruct E as [E E4].
  apply andb_true_iff in E. destruct E as [E _].
  apply andb_true_iff in E. destruct E as [E1 E2].
  apply Nat.ltb_lt in E1, E2.
  destruct H as [(I1 & I2 & I3 & I4) G].
  unfold genuine in G. cbn [m_a m_b m_size] in *.
  apply IH. split.
  - unfold inside. cbn [m_a m_b m_size]. lia.
  - intros t Ht. cbn [m_a m_b m_size] in *. destruct t as [|t].
    + now rewrite !Nat.add_0_r.
    + replace (i + S t) with (S i + t) by lia.
      replace (j + S t) with (S j + t) by lia. apply G. lia.
Qed.

Lemma extend_right_ok junk besti bestj : forall room bestsize,
  room + besti + bestsize <= ahi ->
  best_ok (mk_match besti bestj bestsize) ->
  best_ok (extend_right a b junk bhi besti bestj room bestsize).
Proof.
  induction room as [|room IH]; intros bestsize Hr H; [exact H|].
  cbn [extend_right].
  destruct ((bestj + bestsize <? bhi)
            && Bool.eqb (junk_at b (bestj + bestsize)) junk
            && eq_at a b (besti + bestsize) (bestj + bestsize)) eqn:E;
    [|exact H].
  apply andb_true_iff in E. destruct E as [E E3].
  apply andb_true_iff in E. destruct E as [E1 _].
  apply Nat.ltb_lt in E1.
  destruct H as [(I1 & I2 & I3 & I4) G].
  unfold genuine in G. cbn [m_a m_b m_size] in *.
  apply IH; [lia|]. split.
  - unfold inside. cbn [m_a m_b m_size]. lia.
  - intros t Ht. cbn [m_a m_b m_size] in *.
    destruct (decide (t = bestsize)) as [->|Hne]; [exact E3|].
    apply G. lia.
Qed.

Lemma extend_ok junk m : best_ok m -> best_ok (extend a b junk alo ahi blo bhi m).
Proof.
  intros H. unfold extend.
  assert (Hl : best_ok (extend_left a b junk alo blo (m_a m) (m_b m) (m_size m))).
  { apply extend_left_ok. now destruct m. }
  destruct (extend_left a b junk alo blo (m_a m) (m_b m) (m_size m))
    as [i j k] eqn:E.
  cbn [m_a m_b m_size]. apply extend_right_ok; [|exact Hl].
  destruct Hl as [(I1 & I2 & I3 & I4) _]. cbn [m_a m_b m_size] in *. lia.
Qed.

(** [find_longest_match] returns a block of equal elements inside its
    window. *)
Lemma find_longest_match_ok :
  alo <= ahi -> blo <= bhi -> best_ok (find_longest_match a b alo ahi blo bhi).
Proof.
  intros H1 H2. unfold find_longest_match.
  apply extend_ok, extend_ok, scan_rows_ok; try lia.
  - apply prev_ok_empty.
  - split.
    + unfold inside. cbn [m_a m_b m_size]. lia.
    + intros t Ht. cbn [m_a m_b m_size] in Ht. lia.
Qed.

End Window.

(** *** The work list *)

Lemma apart_sym x y : apart x y -> apart y x.
Proof. unfold apart. tauto. Qed.

Lemma apart_within p q x : within p q -> apart q x -> apart p x.
Proof. unfold within, apart, before. intros. lia. Qed.

Lemma pairwise_perm l l' : Permutation l l' -> pairwise l -> pairwise l'.
Proof.
  induction 1 as [|x l l' Hp IH|x y l|l l' l'' H1 IH1 H2 IH2]; cbn.
  - tauto.
  - intros [H1 H2]. split; [now rewrite <- Hp|now apply IH].
  - intros [H1 [H2 H3]]. inversion H1 as [|? ? Hxy H1']; subst.
    repeat split; try assumption.
    constructor; [now apply apart_sym|assumption].
  - auto.
Qed.

Lemma pairwise_app_r l1 l2 : pairwise (l1 ++ l2) -> pairwise l2.
Proof. induction l1 as [|x l1 IH]; cbn; [tauto|]. intros [_ H]. auto. Qed.

Lemma pairwise_push p q l :
  within p q -> Forall (apart q) l -> pairwise l -> Forall (apart p) l.
Proof.
  intros Hw Hq _. eapply Forall_impl; [exact Hq|].
  intros x. now apply apart_within.
Qed.

Lemma loop_step alo ahi blo bhi queue blocks :
  loop_ok ((alo, ahi, blo, bhi) :: queue) blocks ->
  let x := find_longest_match a b alo ahi blo bhi in
  inside alo ahi blo bhi x /\ genuine x
  /\ (0 < m_size x ->
      loop_ok
        (let q1 := if (alo <? m_a x) && (blo <? m_b x)
                   then (alo, m_a x, blo, m_b x) :: queue else queue in
         if (m_a x + m_size x <? ahi) && (m_b x + m_size x <? bhi)
         then (m_a x + m_size x, ahi, m_b x + m_size x, bhi) :: q1 else q1)
        (blocks ++ [x]))
  /\ loop_ok queue blocks.
Proof.
  intros (Hq & Hb & Hp). cbn zeta.
  inversion Hq as [|? ? [Q1 Q2] Hq']; subst. cbn [lo_a hi_a lo_b hi_b] in *.
  destruct (find_longest_match_ok alo ahi blo bhi Q1 Q2) as [Hin Hg].
  set (x := find_longest_match a b alo ahi blo bhi) in *.
  cbn [pairwise app] in Hp. destruct Hp as [Hap Hpw].
  split; [exact Hin|]. split; [exact Hg|]. split.
  2:{ repeat split; assumption. }
  intros Hk. destruct Hin as (I1 & I2 & I3 & I4).
  set (T := queue ++ map box_of blocks) in *.
  set (L := (alo, m_a x, blo, m_b x) : box).
  set (R := (m_a x + m_size x, ahi, m_b x + m_size x, bhi) : box).
  set (q := (alo, ahi, blo, bhi) : box) in *.
  assert (WX : within (box_of x) q) by (unfold within, box_of; cbn; lia).
  assert (WL : within L q) by (unfold within; cbn; lia).
  assert (WR : within R q) by (unfold within; cbn; lia).
  assert (AX : Forall (apart (box_of x)) T) by now apply (pairwise_push _ q).
  assert (AL : Forall (apart L) T) by now apply (pairwise_push _ q).
  assert (AR : Forall (apart R) T) by now apply (pairwise_push _ q).
  assert (LX : apart L (box_of x)) by (left; unfold before, box_of; cbn; lia).
  assert (RX : apart R (box_of x)) by (right; unfold before, box_of; cbn; lia).
  assert (RL : apart R L) by (right; unfold before; cbn; lia).
  assert (Hblocks : Forall (fun m => genuine m /\ 0 < m_size m) (blocks ++ [x])).
  { apply Forall_app. split; [exact Hb|]. now repeat constructor. }
  assert (Hperm : forall pre,
             Permutation ((pre ++ queue) ++ map box_of (blocks ++ [x]))
                         (box_of x :: pre ++ T)).
  { intros pre. rewrite map_app. cbn [map]. unfold T.
    transitivity ((pre ++ queue ++ map box_of blocks) ++ [box_of x]).
    - now rewrite <- !List.app_assoc.
    - symmetry. apply Permutation_cons_append. }
  destruct ((alo <? m_a x) && (blo <? m_b x)),
           ((m_a x + m_size x <? ahi) && (m_b x + m_size x <? bhi)).
  - split; [|split; [exact Hblocks|]].
    + constructor; [cbn; lia|]. constructor; [cbn; lia|exact Hq'].
    + apply (pairwise_perm _ _ (Permutation_sym (Hperm [R; L]))).
      cbn [app pairwise]. repeat split; try assumption.
      * constructor; [now apply apart_sym|].
        constructor; [now apply apart_sym|exact AX].
      * constructor; assumption.
  - split; [|split; [exact Hblocks|]].
    + constructor; [cbn; lia|exact Hq'].
    + apply (pairwise_perm _ _ (Permutation_sym (Hperm [L]))).
      cbn [app pairwise]. repeat split; try assumption.
      constructor; [now apply apart_sym|exact AX].
  - split; [|split; [exact Hblocks|]].
    + constructor; [cbn; lia|exact Hq'].
    + apply (pairwise_perm _ _ (Permutation_sym (Hperm [R]))).
      cbn [app pairwise]. repeat split; try assumption.
      constructor; [now apply apart_sym|exact AX].
  - split; [exact Hq'|split; [exact Hblocks|]].
    apply (pairwise_perm _ _ (Permutation_sym (Hperm []))).
    cbn [app pairwise]. now split.
Qed.

Lemma matching_loop_ok : forall fuel queue blocks,
  loop_ok queue blocks ->
  loop_ok (fst (matching_loop a b fuel queue blocks))
          (snd (matching_loop a b fuel queue blocks)).
Proof.
  induction fuel as [|fuel IH]; intros queue blocks H; [exact H|].
  destruct queue as [|[[[alo ahi] blo] bhi] queue]; [exact H|].
  cbn [matching_loop].
  destruct (loop_step alo ahi blo bhi queue blocks H) as (_ & _ & H1 & H2).
  destruct (0 <? m_size (find_longest_match a b alo ahi blo bhi)) eqn:E.
  - apply Nat.ltb_lt in E. apply IH. now apply H1.
  - now apply IH.
Qed.

Lemma matching_loop_done : forall fuel queue blocks,
  loop_ok queue blocks -> weight queue <= fuel ->
  fst (matching_loop a b fuel queue blocks) = [].
Proof.
  induction fuel as [|fuel IH]; intros queue blocks H Hw.
  - destruct queue as [|q queue]; [reflexivity|].
    cbn [weight] in Hw. lia.
  - destruct queue as [|[[[alo ahi] blo] bhi] queue]; [reflexivity|].
    cbn [matching_loop].
    destruct (loop_step alo ahi blo bhi queue blocks H)
      as ((I1 & I2 & I3 & I4) & _ & H1 & H2).
    cbn [weight lo_a hi_a] in Hw.
    destruct (0 <? m_size (find_longest_match a b alo ahi blo bhi)) eqn:E.
    + apply Nat.ltb_lt in E. apply IH; [now apply H1|].
      destruct ((alo <? _) && (blo <? _)), ((_ + _ <? ahi) && (_ <? bhi));
        cbn [weight lo_a hi_a]; lia.
    + apply IH; [exact H2|lia].
Qed.

(** *** Sorting and joining the blocks *)

Lemma match_le_total : Total match_le.
Proof. intros x y. unfold match_le. lia. Qed.

Lemma match_le_trans : Transitive match_le.
Proof. intros x y z. unfold match_le. lia. Qed.

Lemma sorted_chain (s : list Match) :
  StronglySorted match_le s ->
  pairwise (map box_of s) ->
  Forall (fun m => 0 < m_size m) s ->
  StronglySorted block_before s.
Proof.
  induction 1 as [|x s Hs IH Hx]; intros Hp Hk; [constructor|].
  cbn [map pairwise] in Hp. destruct Hp as [Hap Hp].
  inversion Hk as [|? ? Kx Ks]; subst.
  constructor; [now apply IH|].
  rewrite List.Forall_forall in *. intros y Hy.
  specialize (Hx y Hy). specialize (Ks y Hy).
  specialize (Hap (box_of y) (in_map box_of s y Hy)).
  unfold apart, before, box_of in Hap. cbn [lo_a hi_a lo_b hi_b] in Hap.
  unfold match_le in Hx. unfold block_before. lia.
Qed.

(** The work list is empty when the fuel of [get_matching_blocks] is
    spent or before: no window is left unsearched. *)
Lemma matching_loop_exhausts :
  fst (matching_loop a b (2 * length a + 2)
         [(0, length a, 0, length b)] []) = [].
Proof.
  apply matching_loop_done.
  - repeat split.
    + repeat constructor; cbn; lia.
    + constructor.
    + cbn. repeat constructor.
  - cbn [weight lo_a hi_a]. lia.
Qed.

Lemma found_chain :
  let found := snd (matching_loop a b (2 * length a + 2)
                      [(0, length a, 0, length b)] []) in
  StronglySorted block_before (merge_sort match_le found)
  /\ Forall (fun m => genuine m /\ 0 < m_size m) (merge_sort match_le found).
Proof.
  cbn zeta.
  pose proof (matching_loop_ok (2 * length a + 2)
                [(0, length a, 0, length b)] []) as H.
  destruct H as (_ & Hb & Hp).
  { repeat split.
    - repeat constructor; cbn; lia.
    - constructor.
    - cbn. repeat constructor. }
  apply pairwise_app_r in Hp.
  set (found := snd (matching_loop a b _ _ _)) in *.
  pose proof (merge_sort_Permutation match_le found) as Hperm.
  assert (Hb' : Forall (fun m => genuine m /\ 0 < m_size m)
                       (merge_sort match_le found)) by now rewrite Hperm.
  split; [|exact Hb'].
  apply sorted_chain.
  - apply (@StronglySorted_merge_sort _ match_le _ match_le_trans match_le_total).
  - apply (pairwise_perm (map box_of found)); [|exact Hp].
    now apply Permutation_map, Permutation_sym.
  - eapply Forall_impl; [exact Hb'|]. now intros m [_ H].
Qed.

Lemma genuine_join x y :
  genuine x -> genuine y ->
  m_a x + m_size x = m_a y -> m_b x + m_size x = m_b y ->
  genuine (mk_match (m_a x) (m_b x) (m_size x + m_size y)).
Proof.
  intros Hx Hy Ea Eb t Ht. cbn [m_a m_b m_size] in *.
  destruct (le_lt_dec (m_size x) t) as [H|H]; [|now apply Hx].
  replace (m_a x + t) with (m_a y + (t - m_size x)) by lia.
  replace (m_b x + t) with (m_b y + (t - m_size x)) by lia.
  apply Hy. lia.
Qed.

Lemma collapse_loop : forall rest cur out,
  StronglySorted block_before (out ++ cur :: rest) ->
  Forall genuine (out ++ cur :: rest) ->
  Forall (fun m => 0 < m_size m) out ->
  let st := fold_left collapse_step rest (cur, out) in
  StronglySorted block_before (snd st ++ [fst st])
  /\ Forall genuine (snd st ++ [fst st])
  /\ Forall (fun m => 0 < m_size m) (snd st).
Proof.
  induction rest as [|x rest IH]; intros cur out Hs Hg Hk; [now cbn|].
  cbn [fold_left collapse_step].
  apply StronglySorted_app in Hs. destruct Hs as (Hab & Hout & Hcur).
  inversion Hcur as [|? ? Hrest Hc]; subst.
  inversion Hrest as [|? ? Hrest' Hx]; subst.
  inversion Hc as [|? ? Hcx Hc']; subst.
  apply Forall_app in Hg. destruct Hg as [Gout Gcur].
  inversion Gcur as [|? ? Gc Grest]; subst.
  inversion Grest as [|? ? Gx Grest']; subst.
  destruct ((m_a cur + m_size cur =? m_a x) && (m_b cur + m_size cur =? m_b x))
    eqn:E.
  - apply andb_true_iff in E. destruct E as [E1 E2].
    apply Nat.eqb_eq in E1, E2.
    apply IH; [| |exact Hk].
    + apply StronglySorted_app. split; [|split; [exact Hout|]].
      * intros o y Ho Hy. apply list_elem_of_In in Hy.
        destruct Hy as [<-|Hy].
        -- specialize (Hab o cur Ho ltac:(left)).
           unfold block_before in *. cbn [m_a m_b m_size]. lia.
        -- apply Hab; [exact Ho|]. right. right. now apply list_elem_of_In.
      * constructor; [exact Hrest'|].
        eapply Forall_impl; [exact Hx|].
        intros y. unfold block_before. cbn [m_a m_b m_size]. lia.
    + apply Forall_app. split; [exact Gout|].
      constructor; [|exact Grest']. now apply genuine_join.
  - destruct (0 <? m_size cur) eqn:Ek.
    + apply Nat.ltb_lt in Ek. apply IH.
      * rewrite <- List.app_assoc. cbn [app].
        apply StronglySorted_app. now split.
      * rewrite <- List.app_assoc. cbn [app].
        apply Forall_app. now split.
      * apply Forall_app. split; [exact Hk|]. now repeat constructor.
    + apply IH; [| |exact Hk].
      * apply StronglySorted_app. split; [|split; [exact Hout|exact Hrest]].
        intros o y Ho Hy. apply Hab; [exact Ho|]. now right.
      * apply Forall_app. now split.
Qed.

Lemma eq_at_lt i j : eq_at a b i j = true -> i < length a /\ j < length b.
Proof.
  unfold eq_at. intros H.
  destruct (a !! i) eqn:Ea; [|discriminate].
  destruct (b !! j) eqn:Eb; [|discriminate].
  split; eapply lookup_lt_Some; eassumption.
Qed.

(** The blocks of [get_matching_blocks] follow one another in both
    sequences and pair equal elements. *)
Lemma matching_blocks_chain :
  StronglySorted block_before (get_matching_blocks a b)
  /\ Forall genuine (get_matching_blocks a b).
Proof.
  unfold get_matching_blocks. destruct found_chain as [Hs Hg].
  set (sorted := merge_sort match_le _) in *.
  pose proof (collapse_loop sorted (mk_match 0 0 0) []) as H.
  cbn zeta in H. unfold collapse.
  destruct (fold_left collapse_step sorted (mk_match 0 0 0, [])) as [cur out].
  cbn [fst snd app] in H. destruct H as (Hs' & Hg' & Hk').
  { constructor; [exact Hs|]. apply Forall_forall. intros y _.
    unfold block_before. cbn. lia. }
  { constructor.
    - intros t Ht. cbn in Ht. lia.
    - eapply Forall_impl; [exact Hg|]. now intros m [H _]. }
  { constructor. }
  assert (Hend : forall m, genuine m -> 0 < m_size m ->
                   block_before m (mk_match (length a) (length b) 0)).
  { intros m Gm Km. specialize (Gm (m_size m - 1) ltac:(lia)).
    apply eq_at_lt in Gm. unfold block_before. cbn. lia. }
  assert (Hsent : genuine (mk_match (length a) (length b) 0)).
  { intros t Ht. cbn in Ht. lia. }
  apply Forall_app in Hg'. destruct Hg' as [Gout Gcur].
  inversion Gcur as [|? ? Gc _]; subst.
  apply StronglySorted_app in Hs'. destruct Hs' as (Hab & Hout & _).
  destruct (0 <? m_size cur) eqn:Ek.
  - apply Nat.ltb_lt in Ek. split.
    + apply StronglySorted_app. split; [|split].
      * intros x y Hx Hy. apply list_elem_of_In in Hy. destruct Hy as [<-|[]].
        apply list_elem_of_In, in_app_or in Hx. destruct Hx as [Hx|[<-|[]]].
        -- apply Hend.
           ++ rewrite List.Forall_forall in Gout. now apply Gout.
           ++ rewrite List.Forall_forall in Hk'. now apply Hk'.
        -- now apply Hend.
      * apply StronglySorted_app. split; [exact Hab|].
        split; [exact Hout|repeat constructor].
      * repeat constructor.
    + apply Forall_app. split; [|now repeat constructor].
      apply Forall_app. split; [exact Gout|now repeat constructor].
  - split.
    + apply StronglySorted_app. split; [|split; [exact Hout|repeat constructor]].
      intros x y Hx Hy. apply list_elem_of_In in Hy. destruct Hy as [<-|[]].
      apply list_elem_of_In in Hx. apply Hend.
      * rewrite List.Forall_forall in Gout. now apply Gout.
      * rewrite List.Forall_forall in Hk'. now apply Hk'.
    + apply Forall_app. split; [exact Gout|now repeat constructor].
Qed.

(** *** Opcodes *)

Ltac split6 := split; [|split; [|split; [|split; [|split]]]].

Lemma path_app : forall l1 l2 i j i1 j1 i2 j2,
  path i j l1 i1 j1 -> path i1 j1 l2 i2 j2 -> path i j (l1 ++ l2) i2 j2.
Proof.
  induction l1 as [|c l1 IH]; intros l2 i j i1 j1 i2 j2 H1 H2.
  - destruct H1 as [-> ->]. exact H2.
  - destruct H1 as (E1 & E2 & E3 & E4 & E5 & H1). cbn [app path].
    repeat split; try assumption. eapply IH; eassumption.
Qed.

Lemma path_mono : forall ops i j i' j', path i j ops i' j' -> mono i j ops.
Proof.
  induction ops as [|c ops IH]; intros i j i' j' H; [exact I|].
  destruct H as (E1 & E2 & E3 & E4 & E5 & H). cbn [mono].
  split6; try lia; try assumption. eapply IH; eassumption.
Qed.

Lemma genuine_lookup m t :
  genuine m -> t < m_size m -> a !! (m_a m + t) = b !! (m_b m + t).
Proof.
  intros G Ht. specialize (G t Ht). unfold eq_at in G.
  destruct (a !! (m_a m + t)) as [x|]; [|discriminate].
  destruct (b !! (m_b m + t)) as [y|]; [|discriminate].
  apply String.eqb_eq in G. now subst.
Qed.

Lemma opcode_step_path i j answer x :
  path 0 0 answer i j -> genuine x -> i <= m_a x -> j <= m_b x ->
  exists ans,
    opcode_step (i, j, answer) x = (m_a x + m_size x, m_b x + m_size x, ans)
    /\ path 0 0 ans (m_a x + m_size x) (m_b x + m_size x).
Proof.
  intros Hp G Hi Hj. unfold opcode_step. cbn zeta.
  set (gap := if (i <? m_a x) && (j <? m_b x)
              then answer ++ [mk_op Replace i (m_a x) j (m_b x)]
              else if i <? m_a x
                   then answer ++ [mk_op Delete i (m_a x) j (m_b x)]
                   else if j <? m_b x
                        then answer ++ [mk_op Insert i (m_a x) j (m_b x)]
                        else answer).
  assert (Hgap : path 0 0 gap (m_a x) (m_b x)).
  { unfold gap.
    destruct (i <? m_a x) eqn:E1, (j <? m_b x) eqn:E2; cbn [andb];
      try apply Nat.ltb_lt in E1; try apply Nat.ltb_lt in E2;
      try apply Nat.ltb_ge in E1; try apply Nat.ltb_ge in E2.
    - eapply path_app; [exact Hp|]. cbn. unfold op_ok. cbn.
      repeat split; lia.
    - eapply path_app; [exact Hp|]. cbn. unfold op_ok. cbn.
      repeat split; lia.
    - eapply path_app; [exact Hp|]. cbn. unfold op_ok. cbn.
      repeat split; lia.
    - assert (i = m_a x) as <- by lia. assert (j = m_b x) as <- by lia.
      exact Hp. }
  eexists. split; [reflexivity|].
  destruct (0 <? m_size x) eqn:Ek.
  - eapply path_app; [exact Hgap|]. cbn [path op_i1 op_i2 op_j1 op_j2].
    split; [reflexivity|]. split; [reflexivity|].
    split; [lia|]. split; [lia|]. split; [|now split].
    unfold op_ok. cbn [op_tag op_i1 op_i2 op_j1 op_j2].
    split; [lia|]. intros t Ht. apply genuine_lookup; [exact G|lia].
  - apply Nat.ltb_ge in Ek.
    replace (m_a x + m_size x) with (m_a x) by lia.
    replace (m_b x + m_size x) with (m_b x) by lia. exact Hgap.
Qed.

Lemma opcode_loop : forall blocks i j answer,
  StronglySorted block_before blocks -> Forall genuine blocks ->
  Forall (fun m => i <= m_a m /\ j <= m_b m) blocks ->
  path 0 0 answer i j ->
  exists i' j' ans,
    fold_left opcode_step blocks (i, j, answer) = (i', j', ans)
    /\ path 0 0 ans i' j'
    /\ (i', j') = match last blocks with
                  | Some m => (m_a m + m_size m, m_b m + m_size m)
                  | None => (i, j)
                  end.
Proof.
  induction blocks as [|x blocks IH]; intros i j answer Hs Hg Hlo Hp.
  - exists i, j, answer. now repeat split.
  - inversion Hs as [|? ? Hs' Hx]; subst.
    inversion Hg as [|? ? Gx Hg']; subst.
    inversion Hlo as [|? ? [Lx1 Lx2] Hlo']; subst.
    destruct (opcode_step_path i j answer x Hp Gx Lx1 Lx2) as (ans & E & Hp').
    cbn [fold_left]. rewrite E.
    destruct (IH (m_a x + m_size x) (m_b x + m_size x) ans Hs' Hg')
      as (i' & j' & ans' & E' & Hp'' & Hl); [|exact Hp'|].
    + eapply Forall_impl; [exact Hx|]. intros m [H1 H2]. lia.
    + exists i', j', ans'. split; [exact E'|]. split; [exact Hp''|].
      rewrite Hl, last_cons. now destruct (last blocks).
Qed.

(** The opcodes of [get_opcodes] tile both sequences from end to end. *)
Lemma opcodes_path : path 0 0 (get_opcodes a b) (length a) (length b).
Proof.
  unfold get_opcodes. destruct matching_blocks_chain as [Hs Hg].
  destruct (opcode_loop (get_matching_blocks a b) 0 0 [] Hs Hg)
    as (i' & j' & ans & E & Hp & Hl).
  - apply Forall_forall. intros; lia.
  - now cbn.
  - rewrite E. cbn [snd]. unfold get_matching_blocks in Hl.
    rewrite last_snoc in Hl. cbn [m_a m_b m_size] in Hl.
    injection Hl as -> ->. now rewrite !Nat.add_0_r in Hp.
Qed.

(** *** Groups *)

Lemma mono_app : forall l1 l2 i j,
  mono i j (l1 ++ l2) <-> mono i j l1 /\ mono (end_a i l1) (end_b j l1) l2.
Proof.
  induction l1 as [|c l1 IH]; intros l2 i j; cbn [app mono end_a end_b].
  - tauto.
  - rewrite IH. tauto.
Qed.

Lemma equal_sub c i1 i2 j1 j2 :
  op_tag c = Equal -> op_ok c ->
  op_i1 c <= i1 -> i2 <= op_i2 c -> op_j1 c <= j1 ->
  i1 - op_i1 c = j1 - op_j1 c -> i2 - i1 = j2 - j1 ->
  op_ok (mk_op Equal i1 i2 j1 j2).
Proof.
  unfold op_ok. intros -> [Hd He] H1 H2 H3 H4 H5.
  cbn [op_tag op_i1 op_i2 op_j1 op_j2]. split; [exact H5|].
  intros t Ht.
  replace (i1 + t) with (op_i1 c + (i1 - op_i1 c + t)) by lia.
  replace (j1 + t) with (op_j1 c + (i1 - op_i1 c + t)) by lia.
  apply He. lia.
Qed.

Lemma op_ok_equal_lengths c :
  op_tag c = Equal -> op_ok c -> op_i2 c - op_i1 c = op_j2 c - op_j1 c.
Proof. unfold op_ok. now intros -> [H _]. Qed.

Lemma trim_first_mono n codes : mono 0 0 codes -> mono 0 0 (trim_first n codes).
Proof.
  destruct codes as [|c codes]; [trivial|]. cbn [trim_first].
  destruct (is_equal (op_tag c)) eqn:E; [|trivial].
  assert (Et : op_tag c = Equal) by (now destruct (op_tag c)).
  intros (H1 & H2 & H3 & H4 & H5 & H6).
  pose proof (op_ok_equal_lengths c Et H5) as Hd.
  cbn [mono op_i1 op_i2 op_j1 op_j2].
  split6; try lia; [|exact H6].
  apply (equal_sub c); try assumption; lia.
Qed.

Lemma trim_last_mono n : forall codes i j,
  mono i j codes -> mono i j (trim_last n codes).
Proof.
  induction codes as [|c codes IH]; intros i j H; [exact I|].
  destruct H as (H1 & H2 & H3 & H4 & H5 & H6).
  destruct codes as [|c' codes].
  - cbn [trim_last]. destruct (is_equal (op_tag c)) eqn:E.
    + assert (Et : op_tag c = Equal) by (now destruct (op_tag c)).
      pose proof (op_ok_equal_lengths c Et H5) as Hd.
      cbn [mono op_i1 op_i2 op_j1 op_j2].
      split6; try lia; try exact I.
      apply (equal_sub c); try assumption; lia.
    + cbn [mono]. split6; try assumption; exact I.
  - change (trim_last n (c :: c' :: codes))
      with (c :: trim_last n (c' :: codes)).
    cbn [mono]. split6; try assumption. now apply IH.
Qed.

Lemma group_loop n : forall rest yielded group,
  mono 0 0 (concat yielded ++ group ++ rest) ->
  let st := fold_left (group_step n) rest (yielded, group) in
  mono 0 0 (concat (fst st) ++ snd st).
Proof.
  induction rest as [|c rest IH]; intros yielded group H.
  - cbn. now rewrite List.app_nil_r in H.
  - cbn [fold_left group_step].
    destruct (is_equal (op_tag c) && (n + n <? op_i2 c - op_i1 c)) eqn:E.
    + apply andb_true_iff in E. destruct E as [E1 E2].
      apply Nat.ltb_lt in E2.
      assert (Et : op_tag c = Equal) by (now destruct (op_tag c)).
      apply IH. rewrite concat_app. cbn [concat].
      rewrite List.app_nil_r, <- !List.app_assoc. cbn [app].
      rewrite List.app_assoc in H |- *.
      apply mono_app in H. apply mono_app. destruct H as [HP Hc].
      split; [exact HP|].
      destruct Hc as (H1 & H2 & H3 & H4 & H5 & H6).
      pose proof (op_ok_equal_lengths c Et H5) as Hd.
      cbn [mono op_i1 op_i2 op_j1 op_j2].
      split6; try lia; [apply (equal_sub c); try assumption; lia|].
      split6; try lia; [apply (equal_sub c); try assumption; lia|].
      exact H6.
    + apply IH. rewrite <- List.app_assoc. exact H.
Qed.

(** The opcodes of all groups follow one another in both sequences. *)
Lemma grouped_mono n : mono 0 0 (concat (get_grouped_opcodes a b n)).
Proof.
  unfold get_grouped_opcodes.
  pose proof opcodes_path as Hp.
  set (codes := match get_opcodes a b with
                | [] => [mk_op Equal 0 1 0 1]
                | cs => cs
                end).
  assert (Hc : mono 0 0 codes).
  { unfold codes. destruct (get_opcodes a b) as [|c cs].
    - destruct Hp as [Ha Hb].
      cbn [mono op_i1 op_i2 op_j1 op_j2]. split6; try lia; try exact I.
      unfold op_ok. cbn [op_tag op_i1 op_i2 op_j1 op_j2].
      split; [reflexivity|]. intros t _.
      now rewrite !lookup_ge_None_2 by lia.
    - eapply path_mono. exact Hp. }
  pose proof (group_loop n (trim_last n (trim_first n codes)) [] []) as H.
  cbn zeta in H.
  destruct (fold_left (group_step n) (trim_last n (trim_first n codes)) ([], []))
    as [yielded group].
  cbn [fst snd concat app] in H.
  specialize (H (trim_last_mono n _ 0 0 (trim_first_mono n codes Hc))).
  assert (Hy : mono 0 0 (concat yielded)).
  { apply mono_app in H. tauto. }
  assert (Hfull : mono 0 0 (concat (yielded ++ [group]))).
  { rewrite concat_app. cbn [concat]. now rewrite List.app_nil_r. }
  destruct group as [|c [|c' group]]; try assumption.
  now destruct (is_equal (op_tag c)).
Qed.

(** *** The lines of the rendering *)

Lemma pick_prefixed keep c (ls : list string) :
  flat_map (pick_line keep) (prefixed (String c EmptyString) ls)
  = if keep c then ls else [].
Proof.
  unfold prefixed. induction ls as [|l ls IH]; cbn [map flat_map].
  - now destruct (keep c).
  - rewrite IH. change (String c EmptyString +:+ l) with (String c l).
    cbn [pick_line]. now destruct (keep c).
Qed.

Lemma source_render_op c :
  flat_map (pick_line (fun c => Ascii.eqb c " " || Ascii.eqb c "-"))
           (render_op a b c) = a_side c.
Proof.
  unfold render_op, a_side.
  destruct (op_tag c); rewrite ?flat_map_app, !pick_prefixed; cbn;
    now rewrite ?List.app_nil_r.
Qed.

Lemma target_render_op c :
  flat_map (pick_line (fun c => Ascii.eqb c " " || Ascii.eqb c "+"))
           (render_op a b c) = b_side c.
Proof.
  unfold render_op, b_side.
  destruct (op_tag c); rewrite ?flat_map_app, !pick_prefixed; cbn;
    now rewrite ?List.app_nil_r.
Qed.

Lemma flat_map_concat {A B} (f : A -> list B) (ls : list (list A)) :
  flat_map f (concat ls) = concat (map (flat_map f) ls).
Proof.
  induction ls as [|l ls IH]; [reflexivity|].
  cbn [concat map]. now rewrite flat_map_app, IH.
Qed.

Lemma side_render_group keep (f : opcode -> list string) group :
  keep "@"%char = false ->
  (forall c, flat_map (pick_line keep) (render_op a b c) = f c) ->
  flat_map (pick_line keep) (render_group a b group) = flat_map f group.
Proof.
  intros Hk Hf. unfold render_group.
  destruct group as [|c group]; [reflexivity|].
  destruct (last (c :: group)) as [l|] eqn:E.
  - match goal with
    | |- flat_map _ (?h :: _) = _ =>
      change h with (String "@" (String "@" (String " " (String "-"
        (format_range_unified (op_i1 c) (op_i2 l)
         +:+ " +" +:+ format_range_unified (op_j1 c) (op_j2 l) +:+ " @@")))))
    end.
    cbn [flat_map pick_line]. rewrite Hk. cbn [app].
    rewrite flat_map_concat, map_map.
    rewrite (map_ext _ f) by exact Hf.
    now rewrite flat_map_concat_map.
  - now rewrite last_cons in E; destruct (last group).
Qed.

Lemma side_unified_diff keep (f : opcode -> list string) fromfile tofile n :
  keep "@"%char = false ->
  (forall c, flat_map (pick_line keep) (render_op a b c) = f c) ->
  side keep (unified_diff a b fromfile tofile n)
  = flat_map f (concat (get_grouped_opcodes a b n)).
Proof.
  intros Hk Hf. unfold unified_diff, side.
  destruct (get_grouped_opcodes a b n) as [|g gs]; [reflexivity|].
  cbn [drop]. fold (pick_line keep). rewrite drop_0.
  rewrite !flat_map_concat, map_map. f_equal.
  apply map_ext. intros g'. now apply side_render_group.
Qed.

Lemma source_side_unified_diff fromfile tofile n :
  source_side (unified_diff a b fromfile tofile n)
  = flat_map a_side (concat (get_grouped_opcodes a b n)).
Proof.
  apply side_unified_diff; [reflexivity|]. apply source_render_op.
Qed.

Lemma target_side_unified_diff fromfile tofile n :
  target_side (unified_diff a b fromfile tofile n)
  = flat_map b_side (concat (get_grouped_opcodes a b n)).
Proof.
  apply side_unified_diff; [reflexivity|]. apply target_render_op.
Qed.

(** *** Slices in order form a subsequence *)

Lemma drop_split {A} (l : list A) i j :
  i <= j -> drop i l = slice l i j ++ drop j l.
Proof.
  intros H. unfold slice.
  replace (drop j l) with (drop (j - i) (drop i l)).
  - now rewrite take_drop.
  - rewrite drop_drop. f_equal. lia.
Qed.

Lemma slice_sublist {A} (l rest : list A) lo i1 i2 :
  lo <= i1 -> i1 <= i2 -> rest `sublist_of` drop i2 l ->
  slice l i1 i2 ++ rest `sublist_of` drop lo l.
Proof.
  intros H1 H2 Hr.
  rewrite (drop_split l lo i1 H1), (drop_split l i1 i2 H2).
  apply sublist_inserts_l. now apply sublist_app.
Qed.

Lemma skip_sublist {A} (l rest : list A) lo i2 :
  lo <= i2 -> rest `sublist_of` drop i2 l -> rest `sublist_of` drop lo l.
Proof.
  intros H Hr. rewrite (drop_split l lo i2 H). now apply sublist_inserts_l.
Qed.

Lemma ok_slices c :
  op_tag c = Equal -> op_ok c -> op_i1 c <= op_i2 c -> op_j1 c <= op_j2 c ->
  slice a (op_i1 c) (op_i2 c) = slice b (op_j1 c) (op_j2 c).
Proof.
  unfold op_ok. intros -> [Hd He] H1 H2. unfold slice. rewrite <- Hd.
  apply list_eq. intros t.
  destruct (le_lt_dec (op_i2 c - op_i1 c) t) as [H|H].
  - now rewrite !lookup_take_ge by lia.
  - rewrite !lookup_take_lt, !lookup_drop by lia. now apply He.
Qed.

Lemma mono_source : forall ops i j,
  mono i j ops -> flat_map a_side ops `sublist_of` drop i a.
Proof.
  induction ops as [|c ops IH]; intros i j H; [apply sublist_nil_l|].
  destruct H as (H1 & H2 & H3 & H4 & H5 & H6).
  specialize (IH _ _ H6). cbn [flat_map]. unfold a_side at 1.
  destruct (op_tag c); try (now apply slice_sublist).
  cbn [app]. apply (skip_sublist _ _ i (op_i2 c)); [lia|exact IH].
Qed.

Lemma mono_target : forall ops i j,
  mono i j ops -> flat_map b_side ops `sublist_of` drop j b.
Proof.
  induction ops as [|c ops IH]; intros i j H; [apply sublist_nil_l|].
  destruct H as (H1 & H2 & H3 & H4 & H5 & H6).
  specialize (IH _ _ H6). cbn [flat_map]. unfold b_side at 1.
  destruct (op_tag c) eqn:E; try (now apply slice_sublist).
  - rewrite (ok_slices c E H5 H3 H4). now apply slice_sublist.
  - cbn [app]. apply (skip_sublist _ _ j (op_j2 c)); [lia|exact IH].
Qed.

(** The source-side lines of a unified diff are lines of [a] in their
    order, and the target-side lines are lines of [b] in their order. *)
Lemma unified_diff_sides fromfile tofile n :
  source_side (unified_diff a b fromfile tofile n) `sublist_of` a
  /\ target_side (unified_diff a b fromfile tofile n) `sublist_of` b.
Proof.
  rewrite source_side_unified_diff, target_side_unified_diff.
  pose proof (grouped_mono n) as H. split.
  - apply (mono_source _ 0 0 H).
  - apply (mono_target _ 0 0 H).
Qed.

Lemma slice_join {A} (l : list A) i j k :
  i <= j -> j <= k -> slice l i j ++ slice l j k = slice l i k.
Proof.
  intros H1 H2. unfold slice.
  replace (drop j l) with (drop (j - i) (drop i l))
    by (rewrite drop_drop; f_equal; lia).
  rewrite take_take_drop. f_equal. lia.
Qed.

Lemma path_source : forall ops i j i' j',
  path i j ops i' j' -> i <= i' /\ flat_map a_side ops = slice a i i'.
Proof.
  induction ops as [|c ops IH]; intros i j i' j' H.
  - destruct H as [<- _]. split; [lia|]. unfold slice.
    now rewrite Nat.sub_diag.
  - destruct H as (<- & <- & H3 & H4 & H5 & H6).
    destruct (IH _ _ _ _ H6) as [Hle E]. split; [lia|].
    cbn [flat_map]. rewrite E.
    rewrite <- (slice_join a (op_i1 c) (op_i2 c) i' H3 Hle). f_equal.
    unfold a_side, op_ok in *. destruct (op_tag c); try reflexivity.
    unfold slice. replace (op_i2 c - op_i1 c) with 0 by lia. reflexivity.
Qed.

Lemma path_target : forall ops i j i' j',
  path i j ops i' j' -> j <= j' /\ flat_map b_side ops = slice b j j'.
Proof.
  induction ops as [|c ops IH]; intros i j i' j' H.
  - destruct H as [_ <-]. split; [lia|]. unfold slice.
    now rewrite Nat.sub_diag.
  - destruct H as (<- & <- & H3 & H4 & H5 & H6).
    destruct (IH _ _ _ _ H6) as [Hle E]. split; [lia|].
    cbn [flat_map]. rewrite E.
    rewrite <- (slice_join b (op_j1 c) (op_j2 c) j' H4 Hle). f_equal.
    unfold b_side. destruct (op_tag c) eqn:Et; try reflexivity.
    + now apply ok_slices.
    + unfold op_ok in H5. rewrite Et in H5. unfold slice.
      replace (op_j2 c - op_j1 c) with 0 by lia. reflexivity.
Qed.

Lemma slice_all {A} (l : list A) : slice l 0 (length l) = l.
Proof.
  unfold slice. rewrite drop_0, Nat.sub_0_r. apply firstn_all.
Qed.

(** The edit script of [get_opcodes] accounts for every line of both
    sequences, once and in order. *)
Lemma opcodes_cover :
  flat_map a_side (get_opcodes a b) = a
  /\ flat_map b_side (get_opcodes a b) = b.
Proof.
  pose proof opcodes_path as H. split.
  - destruct (path_source _ _ _ _ _ H) as [_ ->]. apply slice_all.
  - destruct (path_target _ _ _ _ _ H) as [_ ->]. apply slice_all.
Qed.

End Blocks.
End DiffFacts.

(** ** The hunks against the edit script *)

Module HunkFacts.
Import Difflib Hunks.

Lemma group_fold n : forall codes yielded group,
  concat (fst (fold_left (group_step n) codes (yielded, group)))
  ++ snd (fold_left (group_step n) codes (yielded, group))
  = concat yielded ++ group ++ flat_map (between n) codes.
Proof.
  induction codes as [|c codes IH]; intros yielded group.
  - cbn. now rewrite List.app_nil_r.
  - cbn [fold_left flat_map].
    assert (E : group_step n (yielded, group) c
                = if is_equal (op_tag c) && (n + n <? op_i2 c - op_i1 c)
                  then (yielded ++ [group ++ [keep_first n c]], [keep_last n c])
                  else (yielded, group ++ [c])) by reflexivity.
    rewrite E. clear E.
    assert (B : between n c
                = if is_equal (op_tag c) && (n + n <? op_i2 c - op_i1 c)
                  then [keep_first n c; keep_last n c] else [c]) by reflexivity.
    rewrite B. clear B.
    destruct (is_equal (op_tag c) && (n + n <? op_i2 c - op_i1 c)).
    + rewrite IH, concat_app. cbn [concat].
      rewrite List.app_nil_r, <- !List.app_assoc. reflexivity.
    + rewrite IH, <- !List.app_assoc. reflexivity.
Qed.

(** The group left by the loop over one opcode or more is not empty. *)
Lemma group_step_nonempty n st c : snd (group_step n st c) <> [].
Proof.
  destruct st as [yielded group]. unfold group_step.
  destruct (is_equal (op_tag c) && (n + n <? op_i2 c - op_i1 c)); cbn [snd].
  - discriminate.
  - now destruct group.
Qed.

Lemma group_fold_nonempty n : forall codes st,
  snd st <> [] -> snd (fold_left (group_step n) codes st) <> [].
Proof.
  induction codes as [|c codes IH]; intros st H; [exact H|].
  cbn [fold_left]. apply IH, group_step_nonempty.
Qed.

(** A run of at most [n] lines is not cut. *)
Lemma between_short n c :
  op_i2 c - op_i1 c <= n -> between n c = [c].
Proof.
  intros H. unfold between.
  destruct (n + n <? op_i2 c - op_i1 c) eqn:E;
    [apply Nat.ltb_lt in E; lia|].
  now rewrite andb_false_r.
Qed.

Lemma between_change n c : is_equal (op_tag c) = false -> between n c = [c].
Proof. intros H. unfold between. now rewrite H. Qed.

Lemma keep_first_short n c : op_i2 (keep_first n c) - op_i1 (keep_first n c) <= n.
Proof. cbn. lia. Qed.

Lemma keep_last_short n c : op_i2 (keep_last n c) - op_i1 (keep_last n c) <= n.
Proof. cbn. lia. Qed.

(** The last opcode of the trimmed list is not cut. *)
Lemma trim_last_end n : forall codes,
  codes <> [] ->
  exists init l,
    trim_last n codes = init ++ [l]
    /\ length init = length codes - 1
    /\ between n l = [l].
Proof.
  induction codes as [|c codes IH]; intros H; [congruence|].
  destruct codes as [|c' codes].
  - cbn [trim_last]. fold (keep_first n c).
    destruct (is_equal (op_tag c)) eqn:E.
    + exists [], (keep_first n c). split; [reflexivity|]. split; [reflexivity|].
      apply between_short, keep_first_short.
    + exists [], c. split; [reflexivity|]. split; [reflexivity|].
      now apply between_change.
  - destruct IH as (init & l & E & Hl & Hb); [discriminate|].
    change (trim_last n (c :: c' :: codes))
      with (c :: trim_last n (c' :: codes)).
    rewrite E. exists (c :: init), l. split; [reflexivity|].
    split; [|exact Hb]. cbn [length] in *. lia.
Qed.

Lemma trim_last_shown n : forall codes,
  flat_map (between n) (trim_last n codes) = shown_after n codes.
Proof.
  induction codes as [|c codes IH]; [reflexivity|].
  destruct codes as [|c' codes].
  - cbn [trim_last shown_after]. fold (keep_first n c).
    destruct (is_equal (op_tag c)) eqn:E; cbn [flat_map];
      rewrite List.app_nil_r.
    + apply between_short, keep_first_short.
    + now apply between_change.
  - change (trim_last n (c :: c' :: codes))
      with (c :: trim_last n (c' :: codes)).
    change (shown_after n (c :: c' :: codes))
      with (between n c ++ shown_after n (c' :: codes)).
    cbn [flat_map]. now rewrite IH.
Qed.

Lemma trim_first_length n codes : length (trim_first n codes) = length codes.
Proof.
  destruct codes as [|c codes]; [reflexivity|]. cbn [trim_first].
  now destruct (is_equal (op_tag c)).
Qed.

(** The loop over two opcodes or more leaves a group of two or more. *)
Lemma grouped_long n codes :
  2 <= length codes ->
  concat (let '(yielded, group) :=
            fold_left (group_step n) (trim_last n codes) ([], []) in
          match group with
          | [] => yielded
          | [c] => if is_equal (op_tag c) then yielded else yielded ++ [group]
          | _ => yielded ++ [group]
          end)
  = flat_map (between n) (trim_last n codes).
Proof.
  intros H.
  pose proof (group_fold n (trim_last n codes) [] []) as F.
  cbn [concat app] in F. rewrite <- F. clear F.
  destruct (trim_last_end n codes) as (init & l & E & Hl & Hb);
    [now destruct codes|].
  rewrite E, fold_left_app. cbn [fold_left].
  destruct init as [|c init]; [cbn [length] in Hl; lia|].
  pose proof (group_fold_nonempty n init (group_step n ([], []) c)
                (group_step_nonempty n _ c)) as Hg.
  cbn [fold_left].
  destruct (fold_left (group_step n) init (group_step n ([], []) c))
    as [yielded group].
  cbn [snd] in Hg. unfold group_step.
  unfold between in Hb.
  destruct (is_equal (op_tag l) && (n + n <? op_i2 l - op_i1 l));
    [discriminate Hb|].
  cbn [fst snd].
  destruct group as [|x [|y group]]; [congruence| |];
    cbn [app]; rewrite concat_app; cbn [concat]; now rewrite List.app_nil_r.
Qed.

(** An opcode that is not cut joins the group. *)
Lemma group_step_plain n yielded group c :
  between n c = [c] -> group_step n (yielded, group) c = (yielded, group ++ [c]).
Proof.
  unfold between, group_step.
  now destruct (is_equal (op_tag c) && (n + n <? op_i2 c - op_i1 c)).
Qed.

(** One opcode alone: a change is shown, an unchanged run is not. *)
Lemma grouped_single n c :
  concat (let '(yielded, group) :=
            fold_left (group_step n) (trim_last n (trim_first n [c])) ([], []) in
          match group with
          | [] => yielded
          | [c] => if is_equal (op_tag c) then yielded else yielded ++ [group]
          | _ => yielded ++ [group]
          end)
  = if is_equal (op_tag c) then [] else [c].
Proof.
  destruct (is_equal (op_tag c)) eqn:E.
  - assert (T : trim_last n (trim_first n [c]) = [keep_first n (keep_last n c)])
      by (unfold trim_first; rewrite E; reflexivity).
    rewrite T. cbn [fold_left].
    rewrite group_step_plain by apply between_short, keep_first_short.
    reflexivity.
  - assert (T : trim_last n (trim_first n [c]) = [c])
      by (unfold trim_first; rewrite E; cbn [trim_last]; now rewrite E).
    rewrite T. cbn [fold_left].
    rewrite group_step_plain by now apply between_change.
    cbn [app]. now rewrite E.
Qed.

Section Blocks.

Variables a b : list string.

(** The opcodes of all hunks are what [shown] keeps of the edit script. *)
Lemma grouped_shown n :
  concat (get_grouped_opcodes a b n) = shown n (get_opcodes a b).
Proof.
  unfold get_grouped_opcodes.
  destruct (get_opcodes a b) as [|c [|c' rest]].
  - now rewrite grouped_single.
  - now rewrite grouped_single.
  - rewrite grouped_long by (rewrite trim_first_length; cbn [length]; lia).
    cbn [trim_first shown].
    destruct (is_equal (op_tag c)) eqn:E.
    + fold (keep_last n c).
      change (trim_last n (keep_last n c :: c' :: rest))
        with (keep_last n c :: trim_last n (c' :: rest)).
      cbn [flat_map]. rewrite trim_last_shown.
      now rewrite (between_short n (keep_last n c) (keep_last_short n c)).
    + change (trim_last n (c :: c' :: rest))
        with (c :: trim_last n (c' :: rest)).
      cbn [flat_map]. rewrite trim_last_shown.
      now rewrite (between_change n c E).
Qed.

End Blocks.

(** Every change of the script is shown as it is. *)
Lemma shown_after_changes n c : forall ops,
  In c ops -> is_equal (op_tag c) = false -> In c (shown_after n ops).
Proof.
  induction ops as [|x ops IH]; intros H E; [destruct H|].
  destruct ops as [|y ops].
  - destruct H as [->|[]]. cbn [shown_after]. rewrite E. now left.
  - change (shown_after n (x :: y :: ops))
      with (between n x ++ shown_after n (y :: ops)).
    apply in_or_app. destruct H as [->|H].
    + left. rewrite (between_change n c E). now left.
    + right. now apply IH.
Qed.

Lemma shown_changes n c ops :
  In c ops -> is_equal (op_tag c) = false -> In c (shown n ops).
Proof.
  intros H E. destruct ops as [|x [|y ops]]; [destruct H| |].
  - destruct H as [->|[]]. cbn [shown]. rewrite E. now left.
  - cbn [shown]. destruct H as [->|H].
    + left. now rewrite E.
    + right. now apply shown_after_changes.
Qed.

(** An unchanged run in a hunk has at most [2 n] lines. *)
Lemma between_bound n c :
  Forall (fun x => is_equal (op_tag x) = true -> op_i2 x - op_i1 x <= n + n)
         (between n c).
Proof.
  unfold between.
  destruct (is_equal (op_tag c)) eqn:E; cbn [andb].
  - destruct (n + n <? op_i2 c - op_i1 c) eqn:L.
    + repeat constructor; cbn; lia.
    + apply Nat.ltb_ge in L. now repeat constructor.
  - repeat constructor. congruence.
Qed.

Lemma shown_after_bound n : forall ops,
  Forall (fun x => is_equal (op_tag x) = true -> op_i2 x - op_i1 x <= n + n)
         (shown_after n ops).
Proof.
  induction ops as [|x ops IH]; [constructor|].
  destruct ops as [|y ops].
  - cbn [shown_after]. constructor; [|constructor].
    destruct (is_equal (op_tag x)) eqn:E; [cbn; lia|congruence].
  - change (shown_after n (x :: y :: ops))
      with (between n x ++ shown_after n (y :: ops)).
    apply List.Forall_app. split; [apply between_bound|exact IH].
Qed.

Lemma shown_bound n ops :
  Forall (fun x => is_equal (op_tag x) = true -> op_i2 x - op_i1 x <= n + n)
         (shown n ops).
Proof.
  destruct ops as [|x [|y ops]]; [constructor| |].
  - cbn [shown]. destruct (is_equal (op_tag x)) eqn:E; [constructor|].
    repeat constructor. congruence.
  - cbn [shown]. constructor; [|apply shown_after_bound].
    destruct (is_equal (op_tag x)) eqn:E; [cbn; lia|congruence].
Qed.

End HunkFacts.

(** ** Unchanged runs alternate with changes *)

Module RunFacts.
Import Difflib DiffInv Runs.

Lemma spaced_from_snoc : forall l p x,
  spaced_from p (l ++ [x])
  <-> spaced_from p l /\ ~ adjacent (default p (last l)) x.
Proof.
  induction l as [|y l IH]; intros p x.
  - cbn. tauto.
  - cbn [app spaced_from]. rewrite IH.
    assert (E : default p (last (y :: l)) = default y (last l)).
    { destruct l as [|z l]; [reflexivity|]. rewrite last_cons_cons.
      destruct (last (z :: l)) eqn:L; [reflexivity|].
      now apply last_None in L. }
    rewrite E. tauto.
Qed.

Lemma ends_equal_snoc ops c : ends_equal (ops ++ [c]) = is_equal (op_tag c).
Proof. unfold ends_equal. now rewrite last_snoc. Qed.

Lemma alternating_snoc : forall ops c,
  alternating ops ->
  ends_equal ops && is_equal (op_tag c) = false ->
  alternating (ops ++ [c]).
Proof.
  induction ops as [|x ops IH]; intros c H E; [now cbn|].
  destruct H as [H1 H2]. cbn [app].
  destruct ops as [|y ops].
  - cbn [app alternating]. unfold ends_equal in E. cbn [last] in E.
    now split.
  - change (alternating (x :: (y :: ops) ++ [c]))
      with ((is_equal (op_tag x) && is_equal (op_tag y) = false)
            /\ alternating ((y :: ops) ++ [c])).
    split; [exact H1|]. apply IH; [exact H2|].
    unfold ends_equal in *. now rewrite last_cons_cons in E.
Qed.

Section Blocks.

Variables a b : list string.

(** The loop that joins adjacent blocks leaves none next to another. *)
Lemma collapse_spaced : forall rest cur out,
  Forall (fun m => 0 < m_size m) rest ->
  0 < m_size cur \/ out = [] ->
  spaced (out ++ [cur]) ->
  let st := fold_left collapse_step rest (cur, out) in
  spaced (snd st ++ [fst st]) /\ (0 < m_size (fst st) \/ snd st = []).
Proof.
  induction rest as [|x rest IH]; intros cur out Hk Hc Hs; [now cbn|].
  cbn [fold_left collapse_step].
  inversion Hk as [|? ? Kx Krest]; subst.
  destruct ((m_a cur + m_size cur =? m_a x) && (m_b cur + m_size cur =? m_b x))
    eqn:E.
  - apply IH; [exact Krest|left; cbn; lia|].
    destruct out as [|o out]; [exact I|].
    cbn [app spaced] in Hs |- *.
    apply spaced_from_snoc in Hs. apply spaced_from_snoc.
    destruct Hs as [Hs Hn]. split; [exact Hs|].
    unfold adjacent in *. now cbn [m_a m_b m_size].
  - destruct (0 <? m_size cur) eqn:Ek.
    + apply IH; [exact Krest|now left|].
      assert (Hn : ~ adjacent cur x).
      { unfold adjacent. intros [E1 E2].
        apply Nat.eqb_eq in E1, E2. now rewrite E1, E2 in E. }
      destruct out as [|o out]; [now cbn|].
      cbn [app spaced] in Hs |- *. rewrite <- List.app_assoc. cbn [app].
      change (out ++ [cur; x]) with (out ++ [cur] ++ [x]).
      apply spaced_from_snoc in Hs. destruct Hs as [Hs Hn'].
      rewrite List.app_assoc. apply spaced_from_snoc.
      split; [now apply spaced_from_snoc|]. now rewrite last_snoc.
    + apply Nat.ltb_ge in Ek.
      destruct Hc as [Hc| ->]; [lia|].
      apply IH; [exact Krest|now right|exact I].
Qed.

(** The joined blocks follow one another, none is empty and none is
    adjacent to the next. *)
Lemma collapsed_spaced :
  let found := snd (matching_loop a b (2 * length a + 2)
                      [(0, length a, 0, length b)] []) in
  StronglySorted block_before (collapse (merge_sort match_le found))
  /\ Forall (fun m => 0 < m_size m) (collapse (merge_sort match_le found))
  /\ spaced (collapse (merge_sort match_le found)).
Proof.
  cbn zeta. destruct (DiffFacts.found_chain a b) as [Hs Hg].
  set (sorted := merge_sort match_le _) in *.
  assert (Hk : Forall (fun m => 0 < m_size m) sorted)
    by (eapply Forall_impl; [exact Hg|]; now intros m [_ H]).
  pose proof (DiffFacts.collapse_loop a b sorted (mk_match 0 0 0) []) as H.
  pose proof (collapse_spaced sorted (mk_match 0 0 0) [] Hk) as H'.
  cbn zeta in H, H'. unfold collapse.
  destruct (fold_left collapse_step sorted (mk_match 0 0 0, [])) as [cur out].
  cbn [fst snd app] in H, H'. destruct H as (Hs' & _ & Hk').
  { constructor; [exact Hs|]. apply Forall_forall. intros y _.
    unfold block_before. cbn. lia. }
  { constructor.
    - intros t Ht. cbn in Ht. lia.
    - eapply Forall_impl; [exact Hg|]. now intros m [H _]. }
  { constructor. }
  destruct H' as [Hsp Hc]; [now right|exact I|].
  destruct (0 <? m_size cur) eqn:Ek.
  - apply Nat.ltb_lt in Ek. split; [exact Hs'|]. split; [|exact Hsp].
    apply Forall_app. split; [exact Hk'|now repeat constructor].
  - apply Nat.ltb_ge in Ek. destruct Hc as [Hc| ->]; [lia|].
    repeat split; constructor.
Qed.

(** Between two blocks that are not adjacent the loop of [get_opcodes]
    puts a change, so no [equal] opcode follows another. *)
Lemma opcode_loop_alternating : forall bs i j answer,
  Forall (fun m => 0 < m_size m) bs ->
  StronglySorted block_before bs ->
  spaced bs ->
  (forall x, head bs = Some x ->
             i <= m_a x /\ j <= m_b x
             /\ (ends_equal answer = true -> ~ (i = m_a x /\ j = m_b x))) ->
  alternating answer ->
  alternating (snd (fold_left opcode_step bs (i, j, answer))).
Proof.
  induction bs as [|x bs IH]; intros i j answer Hk Hs Hsp Hh Ha; [exact Ha|].
  cbn [fold_left opcode_step].
  inversion Hk as [|? ? Kx Kbs]; subst.
  inversion Hs as [|? ? Hs' Hx]; subst.
  destruct (Hh x eq_refl) as (Hi & Hj & Hne).
  apply Nat.ltb_lt in Kx. rewrite Kx.
  apply IH; [exact Kbs|exact Hs'| | |].
  - destruct bs as [|y bs]; [exact I|]. now destruct Hsp.
  - intros y Hy. destruct bs as [|y' bs]; [discriminate Hy|].
    injection Hy as ->. inversion Hx as [|? ? Hxy _]; subst.
    destruct Hsp as [Hn _]. unfold block_before in Hxy.
    split; [lia|]. split; [lia|]. intros _ [E1 E2]. apply Hn.
    now split.
  - apply alternating_snoc.
    + destruct (i <? m_a x) eqn:E1; destruct (j <? m_b x) eqn:E2;
        cbn [andb]; try (apply alternating_snoc; [exact Ha|];
                         cbn [op_tag is_equal]; apply andb_false_r).
      exact Ha.
    + destruct (i <? m_a x) eqn:E1; destruct (j <? m_b x) eqn:E2;
        cbn [andb]; rewrite ?ends_equal_snoc; try reflexivity.
      apply Nat.ltb_ge in E1, E2.
      destruct (ends_equal answer) eqn:E; [|reflexivity].
      exfalso. apply Hne; [reflexivity|]. lia.
Qed.

(** In the edit script of [get_opcodes] no unchanged run follows another. *)
Lemma opcodes_alternating : alternating (get_opcodes a b).
Proof.
  unfold get_opcodes, get_matching_blocks.
  destruct collapsed_spaced as (Hs & Hk & Hsp).
  set (bs := collapse _) in *.
  rewrite fold_left_app. cbn [fold_left].
  pose proof (opcode_loop_alternating bs 0 0 [] Hk Hs Hsp) as H.
  destruct (fold_left opcode_step bs (0, 0, [])) as [[i j] answer].
  cbn [snd] in H. unfold opcode_step. cbn [m_a m_b m_size snd].
  change (0 <? 0) with false. cbv iota.
  assert (Ha : alternating answer).
  { apply H; [|exact I]. intros x _. repeat split; try lia.
    intros E. discriminate E. }
  destruct (i <? length a); destruct (j <? length b); cbn [andb];
    try (apply alternating_snoc; [exact Ha|];
         cbn [op_tag is_equal]; apply andb_false_r).
  exact Ha.
Qed.

End Blocks.

End RunFacts.

(** C4 (as amended).  The unified diff that [compare_texts] returns shows
    the edit script of the two documents in part.  In the script no
    unchanged run follows another, so every unchanged run has a change on
    each side or an end of the script.  The hunks hold, in the order of
    the script, every opcode that is a change, as it is, and of every
    unchanged run the three lines next to a change: the last three lines
    of a run before the first change, the first three of a run after the
    last change, and of a run between two changes the first three and the
    last three, or all of it when it has six lines or fewer; an unchanged
    run in a hunk has at most six lines.  The edit script itself gives
    back both documents, so the source-side lines of all hunks (context
    and deleted lines) are the first document without the unchanged lines
    farther than three lines from every change, in their order, and the
    target-side lines (context and added lines) are the second document
    without them. *)
Theorem diff_sides_are_subsequences (text1 text2 name1 name2 : string) :
  Processor.diff_hunks text1 text2
  = Hunks.shown 3 (Difflib.get_opcodes (Py.splitlines text1)
                                       (Py.splitlines text2))
  /\ Difflib.source_side (Processor.compare_texts text1 text2 name1 name2)
     = flat_map (DiffInv.a_side (Py.splitlines text1))
         (Hunks.shown 3 (Difflib.get_opcodes (Py.splitlines text1)
                                             (Py.splitlines text2)))
  /\ Difflib.target_side (Processor.compare_texts text1 text2 name1 name2)
     = flat_map (DiffInv.b_side (Py.splitlines text1) (Py.splitlines text2))
         (Hunks.shown 3 (Difflib.get_opcodes (Py.splitlines text1)
                                             (Py.splitlines text2)))
  /\ flat_map (DiffInv.a_side (Py.splitlines text1))
       (Difflib.get_opcodes (Py.splitlines text1) (Py.splitlines text2))
     = Py.splitlines text1
  /\ flat_map (DiffInv.b_side (Py.splitlines text1) (Py.splitlines text2))
       (Difflib.get_opcodes (Py.splitlines text1) (Py.splitlines text2))
     = Py.splitlines text2
  /\ Runs.alternating
       (Difflib.get_opcodes (Py.splitlines text1) (Py.splitlines text2))
  /\ (forall c,
        In c (Difflib.get_opcodes (Py.splitlines text1) (Py.splitlines text2)) ->
        Difflib.is_equal (Difflib.op_tag c) = false ->
        In c (Processor.diff_hunks text1 text2))
  /\ Forall (fun c => Difflib.is_equal (Difflib.op_tag c) = true ->
                      Difflib.op_i2 c - Difflib.op_i1 c <= 6)
            (Processor.diff_hunks text1 text2)
  /\ Difflib.source_side (Processor.compare_texts text1 text2 name1 name2)
       `sublist_of` Py.splitlines text1
  /\ Difflib.target_side (Processor.compare_texts text1 text2 name1 name2)
       `sublist_of` Py.splitlines text2.
Proof.
  assert (H : Processor.diff_hunks text1 text2
              = Hunks.shown 3 (Difflib.get_opcodes (Py.splitlines text1)
                                                   (Py.splitlines text2)))
    by apply HunkFacts.grouped_shown.
  split; [exact H|].
  unfold Processor.compare_texts.
  rewrite DiffFacts.source_side_unified_diff, DiffFacts.target_side_unified_diff.
  fold (Processor.diff_hunks text1 text2). rewrite H.
  split; [reflexivity|]. split; [reflexivity|].
  split; [apply DiffFacts.opcodes_cover|].
  split; [apply DiffFacts.opcodes_cover|].
  split; [apply RunFacts.opcodes_alternating|].
  split; [intros c Hc E; now apply HunkFacts.shown_changes|].
  split; [apply (HunkFacts.shown_bound 3)|].
  rewrite <- H. unfold Processor.diff_hunks.
  rewrite <- (DiffFacts.source_side_unified_diff _ _ name1 name2),
          <- (DiffFacts.target_side_unified_diff _ _ name1 name2).
  apply DiffFacts.unified_diff_sides.
Qed.

(** C4, the claim as worded, fails: of two documents of five lines that
    differ in the last one, the diff shows lines 2 to 5; line 1 is farther
    than three lines from the change and appears on neither side. *)
Lemma diff_leaves_out_distant_lines :
  Processor.compare_texts Reading.five_lines Reading.five_lines_changed "a" "b"
  = ["--- a"; "+++ b"; "@@ -2,4 +2,4 @@"; " 2"; " 3"; " 4"; "-5"; "+five"]
  /\ Py.splitlines Reading.five_lines = ["1"; "2"; "3"; "4"; "5"]
  /\ Py.splitlines Reading.five_lines_changed = ["1"; "2"; "3"; "4"; "five"]
  /\ Difflib.source_side
       (Processor.compare_texts Reading.five_lines Reading.five_lines_changed
          "a" "b")
     = ["2"; "3"; "4"; "5"]
  /\ Difflib.target_side
       (Processor.compare_texts Reading.five_lines Reading.five_lines_changed
          "a" "b")
     = ["2"; "3"; "4"; "five"]
  /\ Difflib.source_side
       (Processor.compare_texts Reading.five_lines Reading.five_lines_changed
          "a" "b")
     <> Py.splitlines Reading.five_lines
  /\ Difflib.target_side
       (Processor.compare_texts Reading.five_lines Reading.five_lines_changed
          "a" "b")
     <> Py.splitlines Reading.five_lines_changed.
Proof.
  split; [vm_compute; reflexivity|].
  split; [vm_compute; reflexivity|].
  split; [vm_compute; reflexivity|].
  split; [vm_compute; reflexivity|].
  split; [vm_compute; reflexivity|].
  split; vm_compute; discriminate.
Qed.

(** ** Further properties of the comparison *)

(** The complete edit script that the matcher computes for two documents,
    before it is cut into hunks, accounts for every line of both: the
    lines its opcodes take from the first document are that document, and
    the lines they give to the second are the second. *)
Theorem edit_script_covers_documents (text1 text2 : string) :
  flat_map (DiffInv.a_side (Py.splitlines text1))
           (Difflib.get_opcodes (Py.splitlines text1) (Py.splitlines text2))
  = Py.splitlines text1
  /\ flat_map (DiffInv.b_side (Py.splitlines text1) (Py.splitlines text2))
              (Difflib.get_opcodes (Py.splitlines text1) (Py.splitlines text2))
     = Py.splitlines text2.
Proof. apply DiffFacts.opcodes_cover. Qed.

(** The search for matching blocks ends: with the fuel that
    [get_matching_blocks] gives it the work list runs empty, whatever the
    two sequences are, and the blocks returned follow one another in both
    sequences and pair equal lines. *)
Theorem matching_blocks_complete (a b : list string) :
  fst (Difflib.matching_loop a b (2 * length a + 2)
         [(0, length a, 0, length b)] []) = []
  /\ StronglySorted DiffInv.block_before (Difflib.get_matching_blocks a b)
  /\ Forall (DiffInv.genuine a b) (Difflib.get_matching_blocks a b).
Proof.
  split; [apply DiffFacts.matching_loop_exhausts|].
  apply DiffFacts.matching_blocks_chain.
Qed.

(** With fewer than two images [process_directory] compares nothing and
    writes nothing: it logs the number of images found and a warning. *)
Theorem too_few_images (self : DocumentProcessor)
    (image_to_string : string -> outcome string) (now name : string) :
  Processor.process_directory self image_to_string now []
  = (None, [(INFO, "Found 0 images");
            (WARNING, "Need at least 2 images to compare")])
  /\ Processor.process_directory self image_to_string now [name]
     = (None, [(INFO, "Found 1 images");
               (WARNING, "Need at least 2 images to compare")]).
Proof. split; reflexivity. Qed.
(** ** Lines of concatenated texts *)

Module LineFacts.
Import ReportLines StringFacts.

Lemma lines_empty s : Py.splitlines_from false s = [] -> s = EmptyString.
Proof.
  destruct s as [|c s]; [reflexivity|]. cbn [Py.splitlines_from andb].
  destruct (Py.is_linebreak c); [discriminate|].
  destruct (Py.splitlines_from false s); discriminate.
Qed.

Lemma not_lf c : Py.is_linebreak c = false -> Py.is_lf c = false.
Proof.
  intros H. destruct (Py.is_lf c) eqn:E; [|reflexivity].
  apply MaskFacts.lf_is_linebreak in E. congruence.
Qed.

(** A text, a newline and a second text: the lines of the first, then
    those of the second, with at most one empty line between them. *)
Lemma lines_nl s2 : forall s1 f,
  exists e,
    Py.splitlines_from f (s1 +:+ Py.nl +:+ s2)
    = Py.splitlines_from f s1 ++ e ++ Py.splitlines s2
    /\ (e = [] \/ e = [EmptyString]).
Proof.
  induction s1 as [|c s1 IH]; intros f.
  - rewrite app_nil_l. destruct f.
    + exists []. split; [reflexivity|now left].
    + exists [EmptyString]. split; [reflexivity|now right].
  - rewrite app_cons. cbn [Py.splitlines_from].
    destruct (f && Py.is_lf c); [apply IH|].
    destruct (Py.is_linebreak c) eqn:Hb.
    + destruct (IH (Py.is_cr c)) as (e & E & He). exists e.
      split; [now rewrite E|exact He].
    + destruct (IH false) as (e & E & He). rewrite E.
      destruct (Py.splitlines_from false s1) as [|l ls] eqn:El.
      * apply lines_empty in El. subst s1.
        exists []. split; [|now left].
        destruct He as [-> | ->]; [|reflexivity].
        rewrite app_nil_l in E. apply (f_equal (@length string)) in E.
        change (Py.splitlines_from false (Py.nl +:+ s2))
          with (EmptyString :: Py.splitlines s2) in E.
        cbn in E. lia.
      * exists e. split; [reflexivity|exact He].
Qed.

Lemma dense_app l1 l2 : dense (l1 ++ l2) = dense l1 ++ dense l2.
Proof. apply List.filter_app. Qed.

Lemma dense_lines_nl f s1 s2 :
  dense (Py.splitlines_from f (s1 +:+ Py.nl +:+ s2))
  = dense (Py.splitlines_from f s1) ++ dense (Py.splitlines s2).
Proof.
  destruct (lines_nl s2 s1 f) as (e & -> & [->| ->]);
    now rewrite !dense_app.
Qed.

(** A line without a line boundary is its own only line. *)
Lemma lines_of_line l f :
  l <> EmptyString -> Engine.break_free l = true ->
  Py.splitlines_from f l = [l].
Proof.
  revert f. induction l as [|c l IH]; intros f Hne Hb; [congruence|].
  cbn [Engine.break_free] in Hb. apply andb_true_iff in Hb.
  destruct Hb as [Hc Hl]. apply negb_true_iff in Hc.
  cbn [Py.splitlines_from]. rewrite (not_lf c Hc), andb_false_r, Hc.
  destruct l as [|d l]; [reflexivity|].
  now rewrite (IH false) by (discriminate || exact Hl).
Qed.

Lemma dense_line l f :
  Engine.break_free l = true -> dense (Py.splitlines_from f l) = dense [l].
Proof.
  intros Hb. destruct l as [|c l]; [reflexivity|].
  now rewrite lines_of_line.
Qed.

Lemma dense_splitlines_nl s1 s2 :
  dense (Py.splitlines (s1 +:+ Py.nl +:+ s2))
  = dense (Py.splitlines s1) ++ dense (Py.splitlines s2).
Proof. apply dense_lines_nl. Qed.

Lemma dense_splitline l :
  Engine.break_free l = true -> dense (Py.splitlines l) = dense [l].
Proof. apply dense_line. Qed.

(** The lines of [splitlines] hold no line boundary. *)
Lemma splitlines_break_free s : forall f,
  Forall (fun l => Engine.break_free l = true) (Py.splitlines_from f s).
Proof.
  induction s as [|c s IH]; intros f; [constructor|].
  cbn [Py.splitlines_from].
  destruct (f && Py.is_lf c); [apply IH|].
  destruct (Py.is_linebreak c) eqn:Hb.
  - constructor; [reflexivity|apply IH].
  - specialize (IH false).
    destruct (Py.splitlines_from false s) as [|l ls].
    + constructor; [|constructor]. cbn. now rewrite Hb.
    + inversion IH as [|? ? Hl Hls]; subst.
      constructor; [|exact Hls]. cbn. now rewrite Hb.
Qed.

Lemma break_free_app x y :
  Engine.break_free (x +:+ y) = Engine.break_free x && Engine.break_free y.
Proof.
  induction x as [|c x IH]; [reflexivity|].
  rewrite app_cons. cbn [Engine.break_free]. now rewrite IH, andb_assoc.
Qed.

End LineFacts.
(** ** When a diff is empty *)

Module DiffShapeFacts.
Import Difflib DiffInv DiffShape.

Section Changes.

Variables a b : list string.

Lemma unchanged_sides : forall ops,
  changes ops = false ->
  flat_map (a_side a) ops = flat_map (b_side a b) ops.
Proof.
  induction ops as [|c ops IH]; [reflexivity|].
  cbn [changes existsb flat_map]. intros H.
  apply orb_false_elim in H. destruct H as [Hc H].
  fold (changes ops) in H. rewrite (IH H). f_equal.
  unfold a_side, b_side. now destruct (op_tag c).
Qed.

(** An edit script without a change is the script of equal sequences. *)
Lemma unchanged_same : changes (get_opcodes a b) = false -> a = b.
Proof.
  intros H. destruct (DiffFacts.opcodes_cover a b) as [Ha Hb].
  pose proof (unchanged_sides _ H) as E. now rewrite Ha, Hb in E.
Qed.

Lemma changes_app l1 l2 : changes (l1 ++ l2) = changes l1 || changes l2.
Proof. unfold changes. apply existsb_app. Qed.

Lemma changes_trim_first n codes : changes (trim_first n codes) = changes codes.
Proof.
  destruct codes as [|c rest]; [reflexivity|]. cbn [trim_first].
  destruct (is_equal (op_tag c)) eqn:E; [|reflexivity].
  cbn [changes existsb op_tag is_equal]. now rewrite E.
Qed.

Lemma changes_trim_last n : forall codes,
  changes (trim_last n codes) = changes codes.
Proof.
  induction codes as [|c rest IH]; [reflexivity|].
  destruct rest as [|c' rest].
  - cbn [trim_last]. destruct (is_equal (op_tag c)) eqn:E; [|reflexivity].
    cbn [changes existsb op_tag is_equal]. now rewrite E.
  - change (trim_last n (c :: c' :: rest)) with (c :: trim_last n (c' :: rest)).
    cbn [changes existsb]. fold (changes (trim_last n (c' :: rest))).
    now rewrite IH.
Qed.

(** The grouping loop: once a change is read, a group is yielded or the
    change waits in the open group. *)
Lemma group_step_changes n yielded group c :
  yielded <> [] \/ changes (group ++ [c]) = true ->
  fst (group_step n (yielded, group) c) <> []
  \/ changes (snd (group_step n (yielded, group) c)) = true.
Proof.
  intros H. unfold group_step.
  destruct (is_equal (op_tag c) && (n + n <? op_i2 c - op_i1 c)).
  - left. now destruct yielded.
  - exact H.
Qed.

Lemma group_loop_changes n : forall codes st,
  fst st <> [] \/ changes (snd st ++ codes) = true ->
  fst (fold_left (group_step n) codes st) <> []
  \/ changes (snd (fold_left (group_step n) codes st)) = true.
Proof.
  induction codes as [|c codes IH]; intros [yielded group] H; cbn [fold_left].
  - now rewrite List.app_nil_r in H.
  - apply IH. cbn [fst snd] in H.
    destruct H as [H|H].
    + destruct (group_step_changes n yielded group c (or_introl H)) as [G|G];
        [now left|].
      right. now rewrite changes_app, G.
    + replace (group ++ c :: codes) with ((group ++ [c]) ++ codes) in H
        by now rewrite <- List.app_assoc.
      rewrite changes_app in H. apply orb_true_iff in H.
      destruct H as [H|H].
      * destruct (group_step_changes n yielded group c (or_intror H)) as [G|G];
          [now left|].
        right. now rewrite changes_app, G.
      * right. rewrite changes_app, H. apply orb_true_r.
Qed.

Lemma grouped_nonempty n :
  changes (get_opcodes a b) = true -> get_grouped_opcodes a b n <> [].
Proof.
  intros H. unfold get_grouped_opcodes.
  set (codes := trim_last n (trim_first n _)).
  assert (Hc : changes codes = true).
  { unfold codes. rewrite changes_trim_last, changes_trim_first.
    destruct (get_opcodes a b); [discriminate H|exact H]. }
  pose proof (group_loop_changes n codes ([], []) (or_intror Hc)) as G.
  destruct (fold_left (group_step n) codes ([], [])) as [yielded group].
  cbn [fst snd] in G.
  destruct group as [|c [|c' group]].
  - destruct G as [G|G]; [exact G|discriminate G].
  - destruct (is_equal (op_tag c)) eqn:E.
    + destruct G as [G|G]; [exact G|].
      cbn [changes existsb] in G. rewrite E in G. discriminate G.
    + now destruct yielded.
  - now destruct yielded.
Qed.

(** The unified diff is empty exactly for equal sequences. *)
Lemma unified_diff_empty fromfile tofile n :
  unified_diff a b fromfile tofile n = [] <-> a = b.
Proof.
  split.
  - intros H. destruct (changes (get_opcodes a b)) eqn:E.
    + apply (grouped_nonempty n) in E. unfold unified_diff in H.
      destruct (get_grouped_opcodes a b n); [contradiction|discriminate H].
    + now apply unchanged_same.
  - intros <-. apply SameFacts.unified_diff_same.
Qed.

(** No group is empty. *)
Lemma group_loop_nonempty n : forall codes st,
  Forall (fun g => g <> []) (fst st) ->
  Forall (fun g => g <> []) (fst (fold_left (group_step n) codes st)).
Proof.
  induction codes as [|c codes IH]; intros [yielded group] H; [exact H|].
  cbn [fold_left]. apply IH. unfold group_step.
  destruct (is_equal (op_tag c) && (n + n <? op_i2 c - op_i1 c)); [|exact H].
  cbn [fst] in *. apply Forall_app. split; [exact H|].
  constructor; [|constructor]. now destruct group.
Qed.

Lemma grouped_groups_nonempty n :
  Forall (fun g => g <> []) (get_grouped_opcodes a b n).
Proof.
  unfold get_grouped_opcodes.
  set (codes := trim_last n (trim_first n _)).
  pose proof (group_loop_nonempty n codes ([], []) (List.Forall_nil _)) as H.
  destruct (fold_left (group_step n) codes ([], [])) as [yielded group].
  cbn [fst] in H.
  destruct group as [|c [|c' group]]; [exact H| |].
  - destruct (is_equal (op_tag c)); [exact H|].
    apply Forall_app. split; [exact H|]. now repeat constructor.
  - apply Forall_app. split; [exact H|]. now repeat constructor.
Qed.

(** *** The lines of a diff *)

Lemma in_slice {A} (l : list A) i j x : In x (slice l i j) -> In x l.
Proof.
  unfold slice. intros H.
  rewrite <- (firstn_skipn i l). apply in_or_app. right.
  rewrite <- (firstn_skipn (j - i) (drop i l)). apply in_or_app. now left.
Qed.

Lemma render_op_lines fromfile tofile c :
  Forall (diff_line a b fromfile tofile) (render_op a b c).
Proof.
  assert (Ha : forall p, p = " " \/ p = "-" ->
            Forall (diff_line a b fromfile tofile)
                   (prefixed p (slice a (op_i1 c) (op_i2 c)))).
  { intros p Hp. apply List.Forall_forall. intros l Hl.
    apply in_map_iff in Hl. destruct Hl as (x & <- & Hx).
    right. right. right. left. exists x.
    split; [now apply in_slice in Hx|].
    destruct Hp as [-> | ->]; [now left|now right]. }
  assert (Hb : Forall (diff_line a b fromfile tofile)
                      (prefixed "+" (slice b (op_j1 c) (op_j2 c)))).
  { apply List.Forall_forall. intros l Hl.
    apply in_map_iff in Hl. destruct Hl as (x & <- & Hx).
    right. right. right. right. exists x.
    split; [now apply in_slice in Hx|reflexivity]. }
  unfold render_op. destruct (op_tag c).
  - apply Ha. now left.
  - apply Forall_app. split; [apply Ha; now right|exact Hb].
  - apply Ha. now right.
  - exact Hb.
Qed.

Lemma render_group_lines fromfile tofile group :
  Forall (diff_line a b fromfile tofile) (render_group a b group).
Proof.
  unfold render_group. destruct group as [|c group]; [constructor|].
  destruct (last (c :: group)) as [l|]; [|constructor].
  constructor.
  - right. right. left. now exists (op_i1 c), (op_i2 l), (op_j1 c), (op_j2 l).
  - apply List.Forall_forall. intros x Hx. apply in_concat in Hx.
    destruct Hx as (ls & Hls & Hx). apply in_map_iff in Hls.
    destruct Hls as (c' & <- & _).
    pose proof (render_op_lines fromfile tofile c') as H.
    rewrite List.Forall_forall in H. now apply H.
Qed.

Lemma unified_diff_lines fromfile tofile n :
  Forall (diff_line a b fromfile tofile) (unified_diff a b fromfile tofile n).
Proof.
  unfold unified_diff. destruct (get_grouped_opcodes a b n) as [|g gs];
    [constructor|].
  constructor; [now left|]. constructor; [right; now left|].
  apply List.Forall_forall. intros x Hx. apply in_concat in Hx.
  destruct Hx as (ls & Hls & Hx). apply in_map_iff in Hls.
  destruct Hls as (g' & <- & _).
  pose proof (render_group_lines fromfile tofile g') as H.
  rewrite List.Forall_forall in H. now apply H.
Qed.

(** A non-empty diff opens with the two file lines and a hunk line. *)
Lemma unified_diff_head fromfile tofile n :
  unified_diff a b fromfile tofile n = []
  \/ exists i1 i2 j1 j2 body,
       unified_diff a b fromfile tofile n
       = ("--- " +:+ fromfile) :: ("+++ " +:+ tofile)
         :: ("@@ -" +:+ format_range_unified i1 i2
             +:+ " +" +:+ format_range_unified j1 j2 +:+ " @@") :: body.
Proof.
  unfold unified_diff.
  destruct (get_grouped_opcodes a b n) as [|g gs] eqn:E; [now left|right].
  assert (Hg : g <> []).
  { intros ->. pose proof (grouped_groups_nonempty n) as H.
    rewrite E in H. inversion H; subst. congruence. }
  destruct g as [|c g]; [congruence|].
  cbn [map concat]. unfold render_group at 1.
  destruct (last (c :: g)) as [l|] eqn:El.
  - now exists (op_i1 c), (op_i2 l), (op_j1 c), (op_j2 l), 
      (concat (map (render_op a b) (c :: g))
       ++ concat (map (render_group a b) gs)).
  - rewrite last_cons in El. now destruct (last g).
Qed.

End Changes.

Lemma diff_line_marked a b fromfile tofile line :
  diff_line a b fromfile tofile line -> marked line = true.
Proof.
  intros [->|[->|[(i1 & i2 & j1 & j2 & ->)|[(x & _ & [->| ->])|(x & _ & ->)]]]];
    reflexivity.
Qed.

Lemma str_of_nat_break_free n : Engine.break_free (str_of_nat n) = true.
Proof.
  unfold str_of_nat. induction (Nat.to_uint n); cbn; auto.
Qed.

Lemma range_break_free i j : Engine.break_free (format_range_unified i j) = true.
Proof.
  unfold format_range_unified. destruct (j - i =? 1).
  - apply str_of_nat_break_free.
  - now rewrite LineFacts.break_free_app, str_of_nat_break_free,
      LineFacts.break_free_app, str_of_nat_break_free.
Qed.

Lemma diff_line_break_free a b fromfile tofile line :
  Forall (fun l => Engine.break_free l = true) a ->
  Forall (fun l => Engine.break_free l = true) b ->
  Engine.break_free fromfile = true -> Engine.break_free tofile = true ->
  diff_line a b fromfile tofile line -> Engine.break_free line = true.
Proof.
  intros Ha Hb Hf Ht. rewrite List.Forall_forall in Ha, Hb.
  intros [->|[->|[(i1 & i2 & j1 & j2 & ->)|[(x & Hx & [->| ->])|(x & Hx & ->)]]]].
  - now rewrite LineFacts.break_free_app, Hf.
  - now rewrite LineFacts.break_free_app, Ht.
  - now rewrite !LineFacts.break_free_app, !range_break_free.
  - rewrite LineFacts.break_free_app. now rewrite (Ha x Hx).
  - rewrite LineFacts.break_free_app. now rewrite (Ha x Hx).
  - rewrite LineFacts.break_free_app. now rewrite (Hb x Hx).
Qed.

End DiffShapeFacts.
(** ** The parser's sections in full *)

Module SectionFacts.
Import DiffReport ReportLines.

Lemma render_sections_cons c seen body bs :
  render_sections ((c, seen, body) :: bs)
  = render_open (mk_section c (last_two seen) EmptyString)
                (List.filter kept body) bs.
Proof. simpl. destruct bs, (List.filter kept body); reflexivity. Qed.

Lemma loop_sections ls : forall st,
  finish (fold_left step ls st) = expected_sections st ls.
Proof.
  induction ls as [|l ls IH]; intros [done cur d h].
  - unfold expected_sections, finish; simpl.
    destruct cur as [cur|]; [|now rewrite List.app_nil_r].
    rewrite List.app_nil_r. destruct d; simpl; [now rewrite List.app_nil_r|].
    reflexivity.
  - cbn [fold_left]. rewrite IH. unfold expected_sections, step.
    cbn [sections current_section diff_lines header_lines until_comparison
         headed_blocks].
    destruct (is_comparison l) eqn:Hc.
    + cbn [sections current_section diff_lines header_lines].
      rewrite render_sections_cons.
      destruct cur as [cur|]; [|reflexivity].
      unfold close_section. rewrite <- List.app_assoc, List.app_nil_r. f_equal.
      unfold render_open at 2. rewrite render_sections_cons.
      now destruct d.
    + destruct (is_header l) eqn:Hh.
      * cbn [sections current_section diff_lines header_lines List.filter].
        assert (Hk : kept l = false) by (unfold kept; now rewrite Hh).
        rewrite Hk. now destruct cur.
      * destruct cur as [cur|]; [|reflexivity].
        cbn [List.filter].
        assert (Hk : kept l = Py.truthy (Py.strip l))
          by (unfold kept, nonblank; now rewrite Hh).
        rewrite Hk.
        destruct (Py.truthy (Py.strip l));
          cbn [sections current_section diff_lines header_lines]; [|reflexivity].
        now rewrite <- List.app_assoc.
Qed.

Lemma read_diff_file_blocks content :
  read_diff_file content
  = render_sections (headed_blocks [] (Py.splitlines content)).
Proof. unfold read_diff_file. now rewrite loop_sections. Qed.

(** Empty lines do not count. *)
Lemma until_comparison_dense ls :
  until_comparison (dense ls) = dense (until_comparison ls).
Proof.
  induction ls as [|l ls IH]; [reflexivity|].
  destruct l as [|c l]; [exact IH|].
  cbn [dense List.filter Py.truthy until_comparison].
  fold (dense ls).
  destruct (is_comparison (String c l)); [reflexivity|].
  cbn [dense List.filter Py.truthy]. fold (dense (until_comparison ls)).
  now rewrite IH.
Qed.

Lemma headed_blocks_dense ls : forall seen,
  headed_blocks seen (dense ls)
  = map (fun b => (fst b, dense (snd b))) (headed_blocks seen ls).
Proof.
  induction ls as [|l ls IH]; intros seen; [reflexivity|].
  destruct l as [|c l]; [apply IH|].
  cbn [dense List.filter Py.truthy headed_blocks]. fold (dense ls).
  destruct (is_comparison (String c l)).
  - cbn [map fst snd]. now rewrite IH, until_comparison_dense.
  - destruct (is_header (String c l)); apply IH.
Qed.

Lemma kept_dense ls : List.filter kept (dense ls) = List.filter kept ls.
Proof.
  induction ls as [|l ls IH]; [reflexivity|].
  destruct l as [|c l]; [exact IH|].
  cbn [dense List.filter Py.truthy]. fold (dense ls). now rewrite IH.
Qed.

Lemma render_sections_dense bs :
  render_sections (map (fun b => (fst b, dense (snd b))) bs)
  = render_sections bs.
Proof.
  induction bs as [|[[c seen] body] bs IH]; [reflexivity|].
  cbn [map fst snd render_sections]. rewrite kept_dense, IH.
  now destruct bs.
Qed.

Lemma read_diff_file_dense content :
  read_diff_file content
  = render_sections (headed_blocks [] (dense (Py.splitlines content))).
Proof.
  now rewrite read_diff_file_blocks, headed_blocks_dense, render_sections_dense.
Qed.

(** *** What every section holds *)

Lemma last_two_length (seen : list string) : length (last_two seen) <= 2.
Proof. unfold last_two. rewrite length_drop. lia. Qed.

Lemma last_two_in (seen : list string) l : In l (last_two seen) -> In l seen.
Proof.
  unfold last_two. intros H.
  rewrite <- (firstn_skipn (length seen - 2) seen). apply in_or_app. now right.
Qed.

Lemma headed_blocks_inv ls : forall seen,
  Forall (fun l => is_header l = true) seen ->
  Forall (fun b => is_comparison (fst (fst b)) = true
                   /\ Forall (fun l => is_header l = true) (snd (fst b)))
         (headed_blocks seen ls).
Proof.
  induction ls as [|l ls IH]; intros seen H; [constructor|].
  cbn [headed_blocks]. destruct (is_comparison l) eqn:Hc.
  - constructor; [now split|now apply IH].
  - destruct (is_header l) eqn:Hh; [|now apply IH].
    apply IH. apply Forall_app. split; [exact H|]. now repeat constructor.
Qed.

Lemma render_sections_inv bs :
  Forall (fun b => is_comparison (fst (fst b)) = true
                   /\ Forall (fun l => is_header l = true) (snd (fst b))) bs ->
  Forall (fun s => is_comparison (comparison s) = true
                   /\ length (header s) <= 2
                   /\ Forall (fun l => is_header l = true) (header s))
         (render_sections bs).
Proof.
  induction 1 as [|[[c seen] body] bs [Hc Hs] _ IH]; [constructor|].
  cbn [render_sections fst snd] in *.
  assert (Hsec : is_comparison c = true
                 /\ length (last_two seen) <= 2
                 /\ Forall (fun l => is_header l = true) (last_two seen)).
  { split; [exact Hc|]. split; [apply last_two_length|].
    apply List.Forall_forall. intros l Hl. apply last_two_in in Hl.
    rewrite List.Forall_forall in Hs. now apply Hs. }
  destruct bs as [|b bs], (List.filter kept body); try constructor;
    try exact Hsec; try exact IH.
Qed.

Lemma read_diff_file_inv content :
  Forall (fun s => is_comparison (comparison s) = true
                   /\ length (header s) <= 2
                   /\ Forall (fun l => is_header l = true) (header s))
         (read_diff_file content).
Proof.
  rewrite read_diff_file_blocks. apply render_sections_inv, headed_blocks_inv.
  constructor.
Qed.

End SectionFacts.
(** ** Reading back a report *)

Module ReportParseFacts.
Import DiffReport ReportLines Pipeline StringFacts LineFacts SectionFacts.

Lemma join_empty_cons x xs :
  Py.join EmptyString (x :: xs) = x +:+ Py.join EmptyString xs.
Proof.
  unfold Py.join. destruct xs as [|y ys]; cbn [concat].
  - now rewrite app_nil_r.
  - reflexivity.
Qed.

Lemma rule_break_free : Engine.break_free Processor.rule = true.
Proof. reflexivity. Qed.

Lemma comparison_line_break_free n1 n2 :
  Engine.break_free n1 = true -> Engine.break_free n2 = true ->
  Engine.break_free (comparison_line n1 n2) = true.
Proof.
  intros H1 H2. unfold comparison_line.
  now rewrite !break_free_app, H1, H2.
Qed.

(** The lines of a section that are not empty, before those of the text
    that follows it. *)
Lemma dense_lines_section s rest :
  Engine.break_free (fst (fst s)) = true ->
  Engine.break_free (snd (fst s)) = true ->
  dense (Py.splitlines (section_text s +:+ rest))
  = [comparison_line (fst (fst s)) (snd (fst s)); Processor.rule]
    ++ dense (Py.splitlines (snd s))
    ++ [Processor.rule] ++ dense (Py.splitlines rest).
Proof.
  destruct s as [[n1 n2] body]. cbn [fst snd]. intros H1 H2.
  assert (E : section_text (n1, n2, body) +:+ rest
              = comparison_line n1 n2 +:+ Py.nl +:+ Processor.rule +:+ Py.nl
                +:+ body +:+ Py.nl +:+ Processor.rule +:+ Py.nl
                +:+ EmptyString +:+ Py.nl +:+ rest).
  { unfold section_text, Processor.comparison_header, Processor.section_end,
      comparison_line. cbn [fst snd]. rewrite !app_assoc. reflexivity. }
  rewrite E, !dense_splitlines_nl.
  rewrite (dense_splitline (comparison_line n1 n2))
    by now apply comparison_line_break_free.
  rewrite (dense_splitline Processor.rule rule_break_free).
  reflexivity.
Qed.

Lemma dense_lines_sections : forall secs,
  Forall well_formed secs ->
  dense (Py.splitlines (Py.join EmptyString (map section_text secs)))
  = concat (map (fun s => [comparison_line (fst (fst s)) (snd (fst s));
                            Processor.rule]
                          ++ dense (Py.splitlines (snd s))
                          ++ [Processor.rule]) secs).
Proof.
  induction secs as [|s secs IH]; intros H; [reflexivity|].
  inversion H as [|? ? (H1 & H2 & _) H']; subst.
  cbn [map concat]. rewrite join_empty_cons, dense_lines_section by assumption.
  rewrite IH by exact H'. now rewrite <- !List.app_assoc.
Qed.

Lemma dense_lines_report now secs :
  Engine.break_free now = true -> Forall well_formed secs ->
  dense (Py.splitlines (report_text now secs))
  = title_lines now
    ++ concat (map (fun s => [comparison_line (fst (fst s)) (snd (fst s));
                               Processor.rule]
                             ++ dense (Py.splitlines (snd s))
                             ++ [Processor.rule]) secs).
Proof.
  intros Hn H. unfold report_text. rewrite join_empty_cons.
  assert (E : Processor.report_title now
              +:+ Py.join EmptyString (map section_text secs)
              = "Document Comparison Report" +:+ Py.nl
                +:+ ("Generated: " +:+ now) +:+ Py.nl
                +:+ EmptyString +:+ Py.nl
                +:+ Py.join EmptyString (map section_text secs)).
  { unfold Processor.report_title. rewrite !app_assoc. reflexivity. }
  rewrite E, !dense_splitlines_nl.
  rewrite (dense_splitline ("Generated: " +:+ now))
    by (rewrite break_free_app; now rewrite Hn).
  rewrite dense_lines_sections by exact H. reflexivity.
Qed.

(** *** The blocks of the written lines *)

Lemma plain_cases l :
  plain l = true -> is_comparison l = false /\ is_header l = false.
Proof.
  unfold plain. intros H. apply andb_true_iff in H.
  destruct H as [H1 H2]. now apply negb_true_iff in H1, H2.
Qed.

Lemma until_comparison_plain xs rest :
  Forall (fun l => is_comparison l = false) xs ->
  until_comparison (xs ++ rest) = xs ++ until_comparison rest.
Proof.
  induction 1 as [|x xs Hx _ IH]; [reflexivity|].
  cbn [app until_comparison]. now rewrite Hx, IH.
Qed.

Lemma headed_blocks_plain seen xs rest :
  Forall (fun l => plain l = true) xs ->
  headed_blocks seen (xs ++ rest) = headed_blocks seen rest.
Proof.
  induction 1 as [|x xs Hx _ IH]; [reflexivity|].
  destruct (plain_cases x Hx) as [H1 H2].
  cbn [app headed_blocks]. now rewrite H1, H2.
Qed.

Lemma headed_blocks_comparison seen l ls :
  is_comparison l = true ->
  headed_blocks seen (l :: ls)
  = (l, seen, until_comparison ls) :: headed_blocks seen ls.
Proof. intros H. cbn [headed_blocks]. now rewrite H. Qed.

Lemma is_comparison_line n1 n2 : is_comparison (comparison_line n1 n2) = true.
Proof. reflexivity. Qed.

Lemma rule_plain : plain Processor.rule = true.
Proof. reflexivity. Qed.

Lemma rule_kept : kept Processor.rule = true.
Proof. vm_compute. reflexivity. Qed.

Lemma until_sections secs :
  until_comparison (concat (map section_lines secs)) = [].
Proof. now destruct secs. Qed.

Lemma plain_dense ls :
  Forall (fun l => plain l = true) ls ->
  Forall (fun l => plain l = true) (dense ls).
Proof.
  intros H. apply List.Forall_forall. intros l Hl.
  apply List.filter_In in Hl. rewrite List.Forall_forall in H.
  now apply H.
Qed.

Lemma plain_frame ls :
  Forall (fun l => plain l = true) ls ->
  Forall (fun l => plain l = true)
         (Processor.rule :: dense ls ++ [Processor.rule]).
Proof.
  intros H. constructor; [exact rule_plain|].
  apply Forall_app. split; [now apply plain_dense|].
  constructor; [exact rule_plain|constructor].
Qed.

Lemma headed_blocks_sections seen : forall secs,
  Forall well_formed secs ->
  headed_blocks seen (concat (map section_lines secs))
  = map (fun s => (comparison_line (fst (fst s)) (snd (fst s)), seen,
                   Processor.rule :: dense (Py.splitlines (snd s))
                   ++ [Processor.rule])) secs.
Proof.
  induction secs as [|s secs IH]; intros H; [reflexivity|].
  inversion H as [|? ? (_ & _ & Hp) H']; subst.
  cbn [map concat].
  assert (E : section_lines s ++ concat (map section_lines secs)
              = comparison_line (fst (fst s)) (snd (fst s))
                :: (Processor.rule :: dense (Py.splitlines (snd s))
                    ++ [Processor.rule])
                   ++ concat (map section_lines secs)) by reflexivity.
  rewrite E, headed_blocks_comparison by apply is_comparison_line.
  pose proof (plain_frame _ Hp) as Hf.
  rewrite until_comparison_plain, until_sections, List.app_nil_r.
  - rewrite headed_blocks_plain by exact Hf. now rewrite IH.
  - eapply Forall_impl; [exact Hf|]. intros l Hl. now apply plain_cases in Hl.
Qed.

Lemma kept_plain ls :
  Forall (fun l => plain l = true) ls ->
  List.filter kept ls = List.filter nonblank ls.
Proof.
  induction 1 as [|l ls Hl _ IH]; [reflexivity|].
  apply plain_cases in Hl. destruct Hl as [_ Hh].
  cbn [List.filter]. unfold kept at 1. rewrite Hh, IH. reflexivity.
Qed.

Lemma nonblank_dense ls :
  List.filter nonblank (dense ls) = List.filter nonblank ls.
Proof.
  induction ls as [|l ls IH]; [reflexivity|].
  destruct l as [|c l]; [exact IH|].
  cbn [dense List.filter Py.truthy]. fold (dense ls). now rewrite IH.
Qed.

Lemma kept_frame ls :
  Forall (fun l => plain l = true) ls ->
  List.filter kept (Processor.rule :: dense ls ++ [Processor.rule])
  = Processor.rule :: List.filter nonblank ls ++ [Processor.rule].
Proof.
  intros H. cbn [List.filter]. rewrite rule_kept. f_equal.
  rewrite List.filter_app. cbn [List.filter]. rewrite rule_kept.
  now rewrite kept_plain, nonblank_dense by now apply plain_dense.
Qed.

Lemma render_sections_all now : forall secs,
  Forall well_formed secs ->
  render_sections
    (map (fun s => (comparison_line (fst (fst s)) (snd (fst s)),
                    title_lines now,
                    Processor.rule :: dense (Py.splitlines (snd s))
                    ++ [Processor.rule])) secs)
  = map (parsed_section now) secs.
Proof.
  induction secs as [|s secs IH]; intros H; [reflexivity|].
  inversion H as [|? ? (_ & _ & Hp) H']; subst.
  cbn [map render_sections]. rewrite kept_frame by exact Hp.
  rewrite IH by exact H'.
  now destruct (map _ secs).
Qed.

(** The parser gives back the sections that were written. *)
Lemma report_parses now secs :
  Engine.break_free now = true -> Forall well_formed secs ->
  read_diff_file (report_text now secs) = map (parsed_section now) secs.
Proof.
  intros Hn H.
  rewrite read_diff_file_dense, dense_lines_report by assumption.
  change (headed_blocks [] (title_lines now ++ ?x))
    with (headed_blocks (title_lines now) x).
  fold section_lines.
  rewrite headed_blocks_sections by exact H.
  now apply render_sections_all.
Qed.

End ReportParseFacts.
(** ** From the report writer to the parser *)

Module PipelineFacts.
Import Processor DiffReport ReportLines Pipeline StringFacts LineFacts
       ReportParseFacts DocumentFacts.

Lemma compare_all_sections self documents : forall ps unmasked masked,
  fst (compare_all self documents ps unmasked masked)
  = (unmasked
     ++ map (fun p => section_text
                        (p, diff_text (pair_diff documents p))) ps,
     masked
     ++ map (fun p => section_text
                        (p, fst (mask_pii self
                                   (diff_text (pair_diff documents p))))) ps).
Proof.
  intros ps unmasked masked. rewrite ReportFacts.compare_all_fst.
  f_equal; f_equal; apply map_ext; intros [n1 n2];
    now rewrite ProcessorFacts.compare_pair_unfold.
Qed.

(** What [process_directory] writes when it has two images or more. *)
Lemma process_directory_written self image_to_string now images :
  2 <= length images ->
  fst (process_directory self image_to_string now images)
  = Some (mk_written
            (report_text now
               (unmasked_sections (documents_of image_to_string images)))
            (report_text now
               (masked_sections self (documents_of image_to_string images)))
            (fst (mask_documents self (documents_of image_to_string images)))).
Proof.
  intros H. unfold process_directory.
  rewrite fst_bind. cbn [log fst].
  destruct (length images <? 2) eqn:E; [apply Nat.ltb_lt in E; lia|].
  rewrite !fst_bind, compare_all_sections. cbn [fst snd].
  unfold mret, logged_ret. cbn [fst].
  unfold report_text, unmasked_sections, masked_sections, documents_of.
  now rewrite !map_map.
Qed.

(** *** The written sections are well formed *)

Lemma pair_names (documents : dict string) p :
  In p (pairs documents) ->
  In (fst p) (keys documents) /\ In (snd p) (keys documents).
Proof.
  destruct p as [n1 n2]. intros H. apply in_pairs in H.
  destruct H as (i & j & _ & Hi & Hj). cbn [fst snd].
  split; apply list_elem_of_In; eapply list_elem_of_lookup_2; eassumption.
Qed.

Lemma document_names image_to_string images name :
  In name (keys (documents_of image_to_string images)) -> In name images.
Proof.
  unfold documents_of. rewrite parse_all_keys. now intros [[]|[H _]].
Qed.

Lemma dense_join : forall ls,
  Forall (fun l => Engine.break_free l = true) ls ->
  dense (Py.splitlines (Py.join Py.nl ls +:+ Py.nl)) = dense ls.
Proof.
  induction ls as [|l ls IH]; intros H; [reflexivity|].
  inversion H as [|? ? Hl Hls]; subst.
  destruct ls as [|l' ls].
  - change (Py.join Py.nl [l] +:+ Py.nl) with (l +:+ Py.nl +:+ EmptyString).
    rewrite dense_splitlines_nl, dense_splitline by exact Hl.
    now rewrite List.app_nil_r.
  - assert (E : Py.join Py.nl (l :: l' :: ls) +:+ Py.nl
                = l +:+ Py.nl +:+ (Py.join Py.nl (l' :: ls) +:+ Py.nl)).
    { unfold Py.join. cbn [String.concat]. now rewrite !app_assoc. }
    rewrite E, dense_splitlines_nl, dense_splitline, IH by assumption.
    now rewrite <- dense_app.
Qed.

Lemma dense_diff_text diff :
  Forall (fun l => Engine.break_free l = true) diff ->
  dense (Py.splitlines (diff_text diff)) = dense (body_lines diff).
Proof.
  intros H. destruct diff as [|d diff]; [reflexivity|].
  unfold diff_text, body_lines.
  rewrite dense_splitlines_nl, dense_join by exact H. reflexivity.
Qed.

Lemma plain_of_dense ls :
  Forall (fun l => plain l = true) (dense ls) ->
  Forall (fun l => plain l = true) ls.
Proof.
  intros H. rewrite List.Forall_forall in *. intros l Hl.
  destruct l as [|c l]; [reflexivity|]. apply H.
  apply List.filter_In. now split.
Qed.

Lemma marked_plain l : DiffShape.marked l = true -> plain l = true.
Proof.
  destruct l as [|c l]; [discriminate|]. unfold DiffShape.marked,
    DiffShape.diff_mark.
  intros H. repeat (apply orb_true_iff in H; destruct H as [H|H]);
    apply Ascii.eqb_eq in H; subst c; reflexivity.
Qed.

Section Pair.

Variables (documents : dict string) (p : string * string).
Hypothesis Hp1 : Engine.break_free (fst p) = true.
Hypothesis Hp2 : Engine.break_free (snd p) = true.

Lemma pair_diff_lines :
  Forall (fun l => Engine.break_free l = true /\ plain l = true)
         (pair_diff documents p).
Proof.
  unfold pair_diff, compare_texts.
  eapply Forall_impl; [apply DiffShapeFacts.unified_diff_lines|].
  intros l Hl. split.
  - apply (DiffShapeFacts.diff_line_break_free _ _ _ _ _
             (splitlines_break_free _ false) (splitlines_break_free _ false) Hp1 Hp2 Hl).
  - eapply marked_plain, DiffShapeFacts.diff_line_marked, Hl.
Qed.

Lemma body_lines_plain :
  Forall (fun l => plain l = true) (body_lines (pair_diff documents p)).
Proof.
  pose proof pair_diff_lines as H. unfold body_lines.
  destruct (pair_diff documents p) as [|d diff].
  - now repeat constructor.
  - constructor; [reflexivity|].
    eapply Forall_impl; [exact H|]. now intros l [_ Hl].
Qed.

Lemma unmasked_well_formed :
  well_formed (p, diff_text (pair_diff documents p)).
Proof.
  split; [exact Hp1|]. split; [exact Hp2|]. cbn [snd].
  apply plain_of_dense. rewrite dense_diff_text.
  - apply plain_dense, body_lines_plain.
  - eapply Forall_impl; [apply pair_diff_lines|]. now intros l [Hl _].
Qed.

Lemma unmasked_parsed now :
  parsed_section now (p, diff_text (pair_diff documents p))
  = mk_section (comparison_line (fst p) (snd p)) (title_lines now)
      (Py.join Py.nl
         (rule :: List.filter nonblank (body_lines (pair_diff documents p))
          ++ [rule])).
Proof.
  unfold parsed_section. cbn [fst snd]. do 3 f_equal.
  rewrite <- nonblank_dense, dense_diff_text, nonblank_dense; [reflexivity|].
  eapply Forall_impl; [apply pair_diff_lines|]. now intros l [Hl _].
Qed.

End Pair.

Lemma pairs_break_free image_to_string images p :
  Forall (fun n => Engine.break_free n = true) images ->
  In p (pairs (documents_of image_to_string images)) ->
  Engine.break_free (fst p) = true /\ Engine.break_free (snd p) = true.
Proof.
  intros H Hp. rewrite List.Forall_forall in H.
  apply pair_names in Hp. destruct Hp as [H1 H2].
  split; apply H; eapply document_names; eassumption.
Qed.

(** The parser gives back the unmasked report pair by pair. *)
Lemma unmasked_report_parses image_to_string now images :
  Forall (fun n => Engine.break_free n = true) images ->
  Engine.break_free now = true ->
  read_diff_file
    (report_text now (unmasked_sections (documents_of image_to_string images)))
  = map (fun p =>
           mk_section (comparison_line (fst p) (snd p)) (title_lines now)
             (Py.join Py.nl
                (rule
                 :: List.filter nonblank
                      (body_lines
                         (pair_diff (documents_of image_to_string images) p))
                 ++ [rule])))
        (pairs (documents_of image_to_string images)).
Proof.
  intros Hi Hn. rewrite report_parses; [|exact Hn|].
  - unfold unmasked_sections. rewrite map_map. apply map_ext_in.
    intros p Hp. destruct (pairs_break_free _ _ _ Hi Hp) as [H1 H2].
    now apply unmasked_parsed.
  - unfold unmasked_sections. apply List.Forall_forall. intros s Hs.
    apply in_map_iff in Hs. destruct Hs as (p & <- & Hp).
    destruct (pairs_break_free _ _ _ Hi Hp) as [H1 H2].
    now apply unmasked_well_formed.
Qed.

(** The same for the masked report, whatever masking returned, as long
    as no line of it opens a section or is a report-header line. *)
Lemma masked_report_parses self image_to_string now images :
  Forall (fun n => Engine.break_free n = true) images ->
  Engine.break_free now = true ->
  (forall p, In p (pairs (documents_of image_to_string images)) ->
     Forall (fun l => plain l = true)
       (Py.splitlines
          (fst (mask_pii self
                  (diff_text
                     (pair_diff (documents_of image_to_string images) p)))))) ->
  read_diff_file
    (report_text now
       (masked_sections self (documents_of image_to_string images)))
  = map (parsed_section now)
        (masked_sections self (documents_of image_to_string images)).
Proof.
  intros Hi Hn Hm. apply report_parses; [exact Hn|].
  unfold masked_sections. apply List.Forall_forall. intros s Hs.
  apply in_map_iff in Hs. destruct Hs as (p & <- & Hp).
  destruct (pairs_break_free _ _ _ Hi Hp) as [H1 H2].
  split; [exact H1|]. split; [exact H2|]. now apply Hm.
Qed.

End PipelineFacts.
(** ** The readable report *)

Module SummaryFacts.
Import DiffReport Summary StringFacts.

Section WithModel.

Variable model_name : string.
Variable chat : string -> string -> string -> outcome string.
Variables now output_file : string.

Lemma summary_asked_app l1 l2 : asked (l1 ++ l2) = asked l1 ++ asked l2.
Proof. apply List.filter_app. Qed.

Lemma traced_bind_fst {A B} (c : traced A) (f : A -> traced B) :
  fst (c ≫= f) = fst (f (fst c)).
Proof.
  unfold mbind, traced_bind. destruct c as [x l1]. cbn [fst].
  now destruct (f x).
Qed.

Lemma traced_bind_snd {A B} (c : traced A) (f : A -> traced B) :
  snd (c ≫= f) = snd c ++ snd (f (fst c)).
Proof.
  unfold mbind, traced_bind. destruct c as [x l1]. cbn [fst snd].
  now destruct (f x).
Qed.

Lemma generate_fst diff_text comparison :
  fst (generate_readable_diff model_name chat diff_text comparison)
  = match chat model_name system_message (prompt diff_text comparison) with
    | Returned content => Py.strip content
    | Raised _ => "Error generating summary."
    end.
Proof.
  unfold generate_readable_diff. rewrite traced_bind_fst.
  now destruct (chat _ _ _).
Qed.

Lemma generate_asked diff_text comparison :
  asked (snd (generate_readable_diff model_name chat diff_text comparison))
  = [Asked model_name system_message (prompt diff_text comparison)].
Proof.
  unfold generate_readable_diff. rewrite traced_bind_snd, summary_asked_app.
  now destruct (chat _ _ _).
Qed.

Lemma write_section_fst s :
  fst (write_section model_name chat s)
  = comparison s +:+ Py.nl +:+ Processor.rule +:+ Py.nl
    +:+ (summary_of chat model_name s +:+ Py.nl)
    +:+ Py.nl +:+ Processor.rule +:+ Py.nl +:+ Py.nl.
Proof.
  unfold write_section, summary_of. rewrite traced_bind_fst.
  destruct (Engine.contains (diff s) marker); [reflexivity|].
  rewrite traced_bind_fst, generate_fst. reflexivity.
Qed.

Lemma write_section_asked s :
  asked (snd (write_section model_name chat s))
  = if Engine.contains (diff s) marker then []
    else [Asked model_name system_message (prompt (diff s) (comparison s))].
Proof.
  unfold write_section. rewrite traced_bind_snd, summary_asked_app.
  destruct (Engine.contains (diff s) marker); [reflexivity|].
  rewrite traced_bind_snd, summary_asked_app, generate_asked. reflexivity.
Qed.

Lemma write_sections_fst : forall ss,
  fst (write_sections model_name chat ss)
  = Py.join EmptyString (map (fun s => fst (write_section model_name chat s)) ss).
Proof.
  induction ss as [|s ss IH]; [reflexivity|].
  cbn [write_sections map]. rewrite !traced_bind_fst. cbn [mret traced_ret fst].
  unfold mret, traced_ret. cbn [fst].
  now rewrite IH, ReportParseFacts.join_empty_cons.
Qed.

Lemma write_sections_asked : forall ss,
  asked (snd (write_sections model_name chat ss))
  = map (fun s => Asked model_name system_message
                        (prompt (diff s) (comparison s)))
        (List.filter (fun s => negb (Engine.contains (diff s) marker)) ss).
Proof.
  induction ss as [|s ss IH]; [reflexivity|].
  cbn [write_sections]. rewrite !traced_bind_snd, !summary_asked_app.
  rewrite write_section_asked, IH. cbn [List.filter].
  destruct (Engine.contains (diff s) marker); cbn [negb map app];
    now rewrite List.app_nil_r.
Qed.

Lemma process_report_asked content :
  asked (snd (process_report model_name chat now output_file content))
  = map (fun s => Asked model_name system_message
                        (prompt (diff s) (comparison s)))
        (List.filter (fun s => negb (Engine.contains (diff s) marker))
                     (read_diff_file content)).
Proof.
  unfold process_report. cbn zeta.
  rewrite !traced_bind_snd, !summary_asked_app, write_sections_asked.
  cbn [emit snd asked List.filter app].
  rewrite ?traced_bind_snd, ?summary_asked_app. cbn.
  now rewrite ?List.app_nil_r.
Qed.

Lemma process_report_fst content :
  fst (process_report model_name chat now output_file content)
  = "Readable Comparison Report" +:+ Py.nl +:+ "Generated: " +:+ now
    +:+ Py.nl +:+ Py.nl
    +:+ Py.join EmptyString
          (map (fun s => fst (write_section model_name chat s))
               (read_diff_file content)).
Proof.
  unfold process_report. cbn zeta.
  rewrite !traced_bind_fst. unfold mret, traced_ret. cbn [fst].
  now rewrite write_sections_fst.
Qed.

End WithModel.

End SummaryFacts.
(** ** From the documents to the prompts *)

Module PromptFacts.
Import Processor DiffReport ReportLines Pipeline Summary PipelineFacts.

Lemma same_lines_diff_text (documents : dict string) p :
  Py.splitlines (text_of documents (fst p))
  = Py.splitlines (text_of documents (snd p)) ->
  diff_text (pair_diff documents p) = marker +:+ Py.nl.
Proof.
  intros H. unfold pair_diff, compare_texts.
  now rewrite (proj2 (DiffShapeFacts.unified_diff_empty _ _ _ _ _) H).
Qed.

Lemma marker_section_found now p :
  Engine.contains (diff (parsed_section now (p, marker +:+ Py.nl))) marker
  = true.
Proof. vm_compute. reflexivity. Qed.

(** Every call of the model made for a masked report is about a pair of
    documents whose lines differ. *)
Lemma asked_pairs_differ self image_to_string chat model_name now now'
    output_file images :
  Forall (fun n => Engine.break_free n = true) images ->
  Engine.break_free now = true ->
  (forall p, In p (pairs (documents_of image_to_string images)) ->
     Forall (fun l => plain l = true)
       (Py.splitlines
          (fst (mask_pii self
                  (diff_text
                     (pair_diff (documents_of image_to_string images) p)))))) ->
  fst (mask_pii self (marker +:+ Py.nl)) = marker +:+ Py.nl ->
  Forall
    (fun e =>
       exists p,
         In p (pairs (documents_of image_to_string images))
         /\ Py.splitlines
              (text_of (documents_of image_to_string images) (fst p))
            <> Py.splitlines
                 (text_of (documents_of image_to_string images) (snd p))
         /\ e = Asked model_name system_message
                      (prompt
                         (diff (parsed_section now
                                  (p, fst (mask_pii self
                                             (diff_text
                                                (pair_diff
                                                   (documents_of image_to_string
                                                                 images) p))))))
                         (comparison_line (fst p) (snd p))))
    (asked (snd (process_report model_name chat now' output_file
                   (report_text now
                      (masked_sections self
                         (documents_of image_to_string images)))))).
Proof.
  intros Hi Hn Hm Hk. apply List.Forall_forall. intros e He.
  rewrite SummaryFacts.process_report_asked in He.
  rewrite masked_report_parses in He by assumption.
  apply in_map_iff in He. destruct He as (s & <- & Hs).
  apply List.filter_In in Hs. destruct Hs as [Hs Hc].
  unfold masked_sections in Hs. rewrite map_map in Hs.
  apply in_map_iff in Hs. destruct Hs as (p & <- & Hp).
  exists p. split; [exact Hp|]. split; [|reflexivity].
  intros Hsame. apply same_lines_diff_text in Hsame.
  rewrite Hsame, Hk in Hc.
  rewrite marker_section_found in Hc. discriminate Hc.
Qed.

End PromptFacts.
(** ** The pairs compared *)

Module PairFacts.
Import Processor Pairs Pipeline DocumentFacts.

Lemma imap_pairs {A} (l : list A) : forall pre,
  concat (imap (fun i x => map (pair x) (drop (S (length pre + i)) (pre ++ l))) l)
  = all_pairs l.
Proof.
  induction l as [|x l IH]; intros pre; [reflexivity|].
  rewrite imap_cons. cbn [concat all_pairs]. f_equal.
  - rewrite Nat.add_0_r.
    change (pre ++ x :: l) with (pre ++ [x] ++ l).
    rewrite List.app_assoc.
    replace (S (length pre)) with (length (pre ++ [x]))
      by (rewrite List.length_app; cbn; lia).
    now rewrite drop_app_length.
  - rewrite <- (IH (pre ++ [x])). f_equal. apply imap_ext.
    intros i y _. cbn. rewrite <- List.app_assoc. cbn [app].
    rewrite List.length_app. cbn [length].
    now replace (length pre + 1 + i) with (length pre + S i) by lia.
Qed.

Lemma pairs_all (documents : dict string) :
  pairs documents = all_pairs (keys documents).
Proof. unfold pairs. apply (imap_pairs (keys documents) []). Qed.

Lemma all_pairs_length {A} (l : list A) :
  2 * length (all_pairs l) = length l * (length l - 1).
Proof.
  induction l as [|x l IH]; [reflexivity|].
  cbn [all_pairs]. rewrite List.length_app, List.length_map. cbn [length].
  rewrite Nat.sub_succ, Nat.sub_0_r. nia.
Qed.

Lemma in_all_pairs {A} (l : list A) x y :
  In (x, y) (all_pairs l) -> In x l /\ In y l.
Proof.
  induction l as [|z l IH]; [intros []|].
  cbn [all_pairs]. intros H. apply in_app_or in H. destruct H as [H|H].
  - apply in_map_iff in H. destruct H as (y' & E & Hy).
    injection E as -> ->. split; [now left|now right].
  - destruct (IH H). split; now right.
Qed.

Lemma all_pairs_NoDup {A} (l : list A) :
  List.NoDup l ->
  List.NoDup (all_pairs l) /\ forall x y, In (x, y) (all_pairs l) -> x <> y.
Proof.
  induction 1 as [|z l Hz Hl [IH1 IH2]]; [split; [constructor|intros ? ? []]|].
  cbn [all_pairs]. split.
  - apply List.NoDup_app.
    + apply List.NoDup_map_inv with (f := snd). rewrite map_map. cbn [snd].
      now rewrite List.map_id.
    + exact IH1.
    + intros [x y] H1 H2. apply in_map_iff in H1.
      destruct H1 as (y' & E & _). injection E as <- <-.
      apply in_all_pairs in H2. now destruct H2.
  - intros x y H. apply in_app_or in H. destruct H as [H|H].
    + apply in_map_iff in H. destruct H as (y' & E & Hy).
      injection E as <- <-. now intros ->.
    + now apply IH2.
Qed.

(** The documents kept have distinct names. *)
Lemma documents_NoDup image_to_string images :
  List.NoDup (keys (documents_of image_to_string images)).
Proof. apply parse_all_NoDup. constructor. Qed.

End PairFacts.
(** ** The documents kept *)

Module LookupFacts.
Import Processor ProcessorSpec Pipeline DocumentFacts.

Lemma dict_get_set {V} (d : dict V) k v k' :
  dict_get (dict_set d k v) k'
  = if String.eqb k k' then Some v else dict_get d k'.
Proof.
  induction d as [|[k0 v0] d IH]; cbn [dict_set dict_get].
  - reflexivity.
  - destruct (String.eqb k0 k) eqn:E; cbn [dict_get].
    + apply String.eqb_eq in E. subst k0. now destruct (String.eqb k k').
    + rewrite IH. destruct (String.eqb k0 k') eqn:E'; [|reflexivity].
      apply String.eqb_eq in E'. subst k0.
      rewrite String.eqb_sym in E. now rewrite E.
Qed.

Lemma parse_all_get image_to_string images : forall documents name,
  (forall text, In name images -> image_to_string name = Returned text ->
                text <> EmptyString ->
                dict_get (fst (parse_all image_to_string images documents)) name
                = Some text)
  /\ (~ In name images \/ ~ readable image_to_string name ->
      dict_get (fst (parse_all image_to_string images documents)) name
      = dict_get documents name).
Proof.
  induction images as [|img rest IH]; intros documents name.
  - split; [intros text []|reflexivity].
  - cbn [parse_all]. rewrite fst_bind.
    pose proof (parse_image_truthy image_to_string img) as Hr.
    set (docs' := if Py.truthy (fst (parse_image image_to_string img))
                  then dict_set documents img (fst (parse_image image_to_string img))
                  else documents).
    destruct (IH docs' name) as [IH1 IH2]. split.
    + intros text Hin Ht Hne.
      destruct (in_dec string_dec name rest) as [Hrest|Hrest];
        [now apply IH1|].
      destruct Hin as [->|Hin]; [|contradiction].
      rewrite IH2 by now left. unfold docs'.
      assert (E : fst (parse_image image_to_string name) = text)
        by (unfold parse_image; now rewrite Ht).
      rewrite E. apply truthy_nonempty in Hne. rewrite Hne.
      now rewrite dict_get_set, String.eqb_refl.
    + intros H. rewrite IH2.
      * unfold docs'.
        destruct (Py.truthy (fst (parse_image image_to_string img))) eqn:Et;
          [|reflexivity].
        rewrite dict_get_set. destruct (String.eqb img name) eqn:E;
          [|reflexivity].
        apply String.eqb_eq in E. subst img.
        destruct H as [H|H]; [exfalso; apply H; now left|].
        exfalso. apply H. now apply Hr.
      * destruct H as [H|H]; [left|now right].
        intros Hin. apply H. now right.
Qed.

Lemma documents_get image_to_string images name text :
  dict_get (documents_of image_to_string images) name = Some text
  <-> In name images /\ image_to_string name = Returned text
      /\ text <> EmptyString.
Proof.
  unfold documents_of.
  destruct (parse_all_get image_to_string images [] name) as [H1 H2].
  split.
  - intros H.
    destruct (in_dec string_dec name images) as [Hin|Hin].
    + destruct (image_to_string name) as [t|e] eqn:Et.
      * destruct (string_dec t EmptyString) as [->|Hne].
        -- rewrite H2 in H; [discriminate H|]. right.
           intros (t' & Ht' & Hne). congruence.
        -- rewrite (H1 t Hin eq_refl Hne) in H. injection H as ->. auto.
      * rewrite H2 in H; [discriminate H|]. right.
        intros (t' & Ht' & _). congruence.
    + rewrite H2 in H; [discriminate H|now left].
  - intros (Hin & Ht & Hne). now apply H1.
Qed.

(** *** The masked documents *)

Lemma snd_bind {A B} (c : logged A) (f : A -> logged B) :
  snd (c ≫= f) = snd c ++ snd (f (fst c)).
Proof.
  unfold mbind, logged_bind. destruct c as [x l1]. cbn [fst snd].
  now destruct (f x).
Qed.

Lemma mask_documents_fst self : forall documents,
  fst (mask_documents self documents)
  = map (fun d => (fst d, fst (mask_pii self (snd d)))) documents.
Proof.
  induction documents as [|[name text] rest IH]; [reflexivity|].
  cbn [mask_documents map fst snd]. rewrite !fst_bind.
  unfold mret, logged_ret. cbn [fst]. f_equal. exact IH.
Qed.

Lemma mask_pii_failing self text :
  (exists e, mask_pii_try self text = Raised e) ->
  fst (mask_pii self text) = text.
Proof.
  intros [e H]. now rewrite (ProcessorFacts.mask_pii_raised self text e H).
Qed.

Lemma mask_documents_failing self documents :
  (forall text, exists e, mask_pii_try self text = Raised e) ->
  fst (mask_documents self documents) = documents.
Proof.
  intros H. rewrite mask_documents_fst.
  rewrite <- (List.map_id documents) at 2. apply map_ext.
  intros [name text]. cbn [fst snd]. now rewrite mask_pii_failing.
Qed.

Lemma masked_sections_failing self documents :
  (forall text, exists e, mask_pii_try self text = Raised e) ->
  masked_sections self documents = unmasked_sections documents.
Proof.
  intros H. unfold masked_sections, unmasked_sections.
  apply map_ext. intros p. now rewrite mask_pii_failing.
Qed.

End LookupFacts.
(** ** Comparing images with a vision model *)

Module ImageFacts.
Import Vision ImageComparison Pairs.

Lemma b64encode_empty data : Base64.b64encode data = EmptyString <-> data = [].
Proof.
  destruct data as [|x [|y [|z rest]]]; cbn; split;
    (reflexivity || discriminate).
Qed.

Lemma image_asked_app l1 l2 : asked (l1 ++ l2) = asked l1 ++ asked l2.
Proof. apply List.filter_app. Qed.

Lemma bind_fst {A B} (c : traced A) (f : A -> traced B) :
  fst (c ≫= f) = fst (f (fst c)).
Proof.
  unfold mbind, traced_bind. destruct c as [x l1]. cbn [fst].
  now destruct (f x).
Qed.

Lemma bind_snd {A B} (c : traced A) (f : A -> traced B) :
  snd (c ≫= f) = snd c ++ snd (f (fst c)).
Proof.
  unfold mbind, traced_bind. destruct c as [x l1]. cbn [fst snd].
  now destruct (f x).
Qed.

Section WithWorld.

Variable read_bytes : string -> outcome (list Byte.byte).
Variable path_name : string -> string.
Variable chat : string -> string -> list string -> outcome string.
Variable write_text : string -> string -> outcome unit.

Local Abbreviation encode_image := (ImageComparison.encode_image read_bytes).
Local Abbreviation compare_image_pair :=
  (ImageComparison.compare_image_pair read_bytes path_name chat).
Local Abbreviation compare_pairs :=
  (ImageComparison.compare_pairs read_bytes path_name chat).
Local Abbreviation encodable := (ImageComparison.encodable read_bytes).

Lemma encode_image_asked path : asked (snd (encode_image path)) = [].
Proof. unfold encode_image. now destruct (read_bytes path). Qed.

Lemma encode_image_truthy path :
  Py.truthy (fst (encode_image path)) = true <-> encodable path.
Proof.
  unfold encode_image, encodable.
  destruct (read_bytes path) as [data|e]; cbn [fst mret traced_ret].
  - rewrite DocumentFacts.truthy_nonempty, b64encode_empty. split.
    + intros H. now exists data.
    + intros (d & E & H). now injection E as ->.
  - split; [discriminate|]. now intros (d & E & _).
Qed.

Lemma encode_image_value path data :
  read_bytes path = Returned data ->
  fst (encode_image path) = Base64.b64encode data.
Proof. unfold encode_image. now intros ->. Qed.

(** The model is called when both files can be read and are not empty. *)
Lemma compare_image_pair_asked p1 p2 model d1 d2 :
  read_bytes p1 = Returned d1 -> d1 <> [] ->
  read_bytes p2 = Returned d2 -> d2 <> [] ->
  asked (snd (compare_image_pair p1 p2 model))
  = [Asked model (prompt (path_name p1) (path_name p2))
           [Base64.b64encode d1; Base64.b64encode d2]].
Proof.
  intros E1 H1 E2 H2. unfold compare_image_pair.
  rewrite !bind_snd, ?bind_fst, !image_asked_app, !encode_image_asked.
  rewrite (encode_image_value p1 d1 E1), (encode_image_value p2 d2 E2).
  assert (T1 : Py.truthy (Base64.b64encode d1) = true)
    by (apply DocumentFacts.truthy_nonempty; now rewrite b64encode_empty).
  assert (T2 : Py.truthy (Base64.b64encode d2) = true)
    by (apply DocumentFacts.truthy_nonempty; now rewrite b64encode_empty).
  rewrite T1, T2. cbn [negb orb app].
  rewrite bind_snd, image_asked_app. cbn [emit snd asked List.filter app].
  now destruct (chat _ _ _).
Qed.

(** Otherwise it is not, and the result says so. *)
Lemma compare_image_pair_skipped p1 p2 model :
  ~ (encodable p1 /\ encodable p2) ->
  compare_image_pair p1 p2 model
  = ("Comparison between " +:+ path_name p1 +:+ " and " +:+ path_name p2
     +:+ ": Failed to encode images." +:+ Py.nl,
     snd (encode_image p1) ++ snd (encode_image p2)).
Proof.
  intros H. unfold compare_image_pair.
  pose proof (encode_image_truthy p1) as T1.
  pose proof (encode_image_truthy p2) as T2.
  unfold mbind, traced_bind.
  destruct (encode_image p1) as [b1 l1], (encode_image p2) as [b2 l2].
  cbn [fst snd] in *.
  destruct (Py.truthy b1) eqn:E1, (Py.truthy b2) eqn:E2; cbn [negb orb];
    try (unfold mret, traced_ret; now rewrite List.app_nil_r).
  exfalso. apply H. split; [now apply T1|now apply T2].
Qed.

Lemma compare_image_pair_skipped_asked p1 p2 model :
  ~ (encodable p1 /\ encodable p2) ->
  asked (snd (compare_image_pair p1 p2 model)) = [].
Proof.
  intros H. rewrite compare_image_pair_skipped by exact H. cbn [snd].
  now rewrite image_asked_app, !encode_image_asked.
Qed.

Lemma compare_pairs_fst : forall ps,
  fst (compare_pairs ps)
  = map (fun p => fst (compare_image_pair (fst p) (snd p) default_model)) ps.
Proof.
  induction ps as [|[p1 p2] ps IH]; [reflexivity|].
  cbn [ImageComparison.compare_pairs map fst snd]. rewrite !bind_fst.
  unfold mret, traced_ret. cbn [fst]. f_equal. exact IH.
Qed.

Lemma compare_pairs_asked : forall ps,
  asked (snd (compare_pairs ps))
  = flat_map (fun p => asked (snd (compare_image_pair (fst p) (snd p)
                                     default_model))) ps.
Proof.
  induction ps as [|[p1 p2] ps IH]; [reflexivity|].
  cbn [ImageComparison.compare_pairs flat_map fst snd].
  rewrite !bind_snd, !image_asked_app. cbn [emit snd asked List.filter app].
  unfold mret, traced_ret. cbn [snd]. rewrite List.app_nil_r.
  f_equal. exact IH.
Qed.

Lemma process_and_compare_images_events image_files output_file :
  2 <= length image_files ->
  exists last,
    snd (ImageComparison.process_and_compare_images
           read_bytes path_name chat write_text image_files output_file)
    = snd (compare_pairs (all_pairs image_files))
      ++ [Wrote output_file
                (Py.join Py.nl
                   (map (fun p => fst (compare_image_pair (fst p) (snd p)
                                         default_model))
                        (all_pairs image_files)));
          Printed last].
Proof.
  intros H. unfold ImageComparison.process_and_compare_images.
  destruct (length image_files <? 2) eqn:E; [apply Nat.ltb_lt in E; lia|].
  rewrite !bind_snd, ?bind_fst, compare_pairs_fst. cbn [emit snd].
  destruct (write_text _ _); eexists; reflexivity.
Qed.

End WithWorld.

End ImageFacts.
(** ** Comparing PDFs with a vision model *)

Module PdfFacts.
Import Vision PdfComparison PdfPages.

Lemma run_bind_eq {A B} (c : run A) (f : A -> run B) w :
  (c ≫= f) w = f (fst (c w)) (snd (c w)).
Proof. unfold mbind, run_bind. now destruct (c w). Qed.

Section WithWorld.

Variable image : Type.
Variable makedirs : string -> outcome unit.
Variable convert_from_path : string -> nat -> outcome (list image).
Variable save_jpeg : image -> string -> outcome (list Byte.byte).
Variable read_error : string -> string.
Variables path_stem path_name : string -> string.
Variable chat : string -> string -> list string -> outcome string.
Variable write_text : string -> string -> outcome unit.

Local Abbreviation save_pages := (PdfComparison.save_pages image save_jpeg).
Local Abbreviation pdf_to_images_try :=
  (PdfComparison.pdf_to_images_try image makedirs convert_from_path save_jpeg
     path_stem).
Local Abbreviation pdf_to_images :=
  (PdfComparison.pdf_to_images image makedirs convert_from_path save_jpeg
     path_stem).
Local Abbreviation encode_image := (PdfComparison.encode_image read_error).
Local Abbreviation compare_pdf_pair :=
  (PdfComparison.compare_pdf_pair image makedirs convert_from_path save_jpeg
     read_error path_stem path_name chat).

(** Saving pages emits nothing, and the paths it returns are those of the
    pages, in order. *)
Lemma save_pages_spec d s : forall images i w,
  events (snd (save_pages d s i images w)) = events w
  /\ (forall ps, fst (save_pages d s i images w) = Returned ps ->
                 ps = map (page_path d s) (seq i (length images))).
Proof.
  induction images as [|img rest IH]; intros i w.
  - split; [reflexivity|]. intros ps H. now injection H as <-.
  - cbn [PdfComparison.save_pages]. fold (page_path d s i).
    destruct (save_jpeg img (page_path d s i)) as [data|e].
    + rewrite !run_bind_eq. cbn [store fst snd].
      destruct (IH (S i) (mk_world (<[page_path d s i:=data]> (files w))
                                   (events w))) as [IH1 IH2].
      split; [exact IH1|].
      intros ps H. unfold mret, run_ret in H. cbn [fst] in H.
      destruct (fst (save_pages d s (S i) rest _)) as [ps'|e] eqn:E;
        [|discriminate H].
      injection H as <-. cbn [length seq map]. f_equal. now apply IH2.
    + split; [reflexivity|]. intros ps H. discriminate H.
Qed.

(** [pdf_to_images] returns no path, or the path of every page that
    [convert_from_path] returned. *)
Lemma pdf_to_images_paths pdf_path output_dir max_pages w :
  fst (pdf_to_images pdf_path output_dir max_pages w) = []
  \/ exists images,
       convert_from_path pdf_path max_pages = Returned images
       /\ fst (pdf_to_images pdf_path output_dir max_pages w)
          = map (page_path output_dir (path_stem pdf_path))
                (seq 0 (length images)).
Proof.
  unfold PdfComparison.pdf_to_images. rewrite run_bind_eq.
  unfold PdfComparison.pdf_to_images_try.
  destruct (makedirs output_dir) as [[]|e]; [|now left].
  destruct (convert_from_path pdf_path max_pages) as [images|e]; [|now left].
  destruct (save_pages_spec output_dir (path_stem pdf_path) images 0 w)
    as [_ H].
  destruct (fst (save_pages _ _ 0 images w)) as [ps|e] eqn:E; [|now left].
  right. exists images. split; [reflexivity|]. now apply H.
Qed.

Lemma pdf_asked_app l1 l2 : asked (l1 ++ l2) = asked l1 ++ asked l2.
Proof. apply List.filter_app. Qed.

(** One page, saved without error. *)
Lemma pdf_to_images_one pdf_path output_dir max_pages img data w :
  makedirs output_dir = Returned tt ->
  convert_from_path pdf_path max_pages = Returned [img] ->
  save_jpeg img (page_path output_dir (path_stem pdf_path) 0) = Returned data ->
  pdf_to_images pdf_path output_dir max_pages w
  = ([page_path output_dir (path_stem pdf_path) 0],
     mk_world (<[page_path output_dir (path_stem pdf_path) 0 := data]> (files w))
              (events w)).
Proof.
  intros Hm Hc Hs.
  unfold PdfComparison.pdf_to_images, PdfComparison.pdf_to_images_try.
  unfold mbind, run_bind. rewrite Hm, Hc. cbn [PdfComparison.save_pages].
  fold (page_path output_dir (path_stem pdf_path) 0). rewrite Hs.
  reflexivity.
Qed.

Lemma encode_image_stored path data w :
  files w !! path = Some data ->
  encode_image path w = (Base64.b64encode data, w).
Proof.
  intros H. unfold PdfComparison.encode_image, mbind, run_bind, lookup_file.
  now rewrite H.
Qed.

(** Two PDFs of one page each, converted and saved without error: the
    model receives what the two page files hold once both are saved. *)
Lemma compare_pdf_pair_asked p1 p2 model i1 i2 d1 d2 w :
  makedirs "temp_images" = Returned tt ->
  convert_from_path p1 1 = Returned [i1] ->
  convert_from_path p2 1 = Returned [i2] ->
  save_jpeg i1 (page_path "temp_images" (path_stem p1) 0) = Returned d1 ->
  save_jpeg i2 (page_path "temp_images" (path_stem p2) 0) = Returned d2 ->
  (if decide (page_path "temp_images" (path_stem p1) 0
              = page_path "temp_images" (path_stem p2) 0)
   then d2 else d1) <> [] ->
  d2 <> [] ->
  asked (events (snd (compare_pdf_pair p1 p2 model w)))
  = asked (events w)
    ++ [Asked model (prompt (path_name p1) (path_name p2))
              [Base64.b64encode
                 (if decide (page_path "temp_images" (path_stem p1) 0
                             = page_path "temp_images" (path_stem p2) 0)
                  then d2 else d1);
               Base64.b64encode d2]].
Proof.
  intros Hm H1 H2 S1 S2 N1 N2.
  unfold PdfComparison.compare_pdf_pair. cbn zeta.
  unfold mbind at 1, run_bind at 1.
  rewrite (pdf_to_images_one p1 "temp_images" 1 i1 d1 w Hm H1 S1).
  unfold mbind at 1, run_bind at 1.
  rewrite (pdf_to_images_one p2 "temp_images" 1 i2 d2 _ Hm H2 S2).
  cbn [files events].
  set (P1 := page_path "temp_images" (path_stem p1) 0).
  set (P2 := page_path "temp_images" (path_stem p2) 0).
  set (w2 := mk_world _ _).
  set (d := if decide (P1 = P2) then d2 else d1).
  assert (L1 : files w2 !! P1 = Some d).
  { unfold w2, d. cbn [files]. destruct (decide (P1 = P2)) as [E|E].
    - rewrite E. apply lookup_insert_eq.
    - rewrite lookup_insert_ne by congruence. apply lookup_insert_eq. }
  assert (L2 : files w2 !! P2 = Some d2) by apply lookup_insert_eq.
  assert (Nd : d <> []) by exact N1.
  unfold mbind at 1, run_bind at 1. rewrite (encode_image_stored P1 d w2 L1).
  unfold mbind at 1, run_bind at 1. rewrite (encode_image_stored P2 d2 w2 L2).
  assert (T1 : Py.truthy (Base64.b64encode d) = true)
    by (apply DocumentFacts.truthy_nonempty;
        now rewrite ImageFacts.b64encode_empty).
  assert (T2 : Py.truthy (Base64.b64encode d2) = true)
    by (apply DocumentFacts.truthy_nonempty;
        now rewrite ImageFacts.b64encode_empty).
  rewrite T1, T2. cbn [negb orb].
  unfold mbind, run_bind, emit.
  destruct (chat _ _ _); cbn [mret run_ret snd events];
    rewrite ?pdf_asked_app; cbn [asked List.filter]; unfold w2; cbn [events];
    now rewrite ?List.app_nil_r.
Qed.

Local Abbreviation compare_pairs :=
  (PdfComparison.compare_pairs image makedirs convert_from_path save_jpeg
     read_error path_stem path_name chat).

Lemma compare_pairs_length : forall ps w,
  length (fst (compare_pairs ps w)) = length ps.
Proof.
  induction ps as [|[p1 p2] ps IH]; intros w; [reflexivity|].
  cbn [PdfComparison.compare_pairs]. rewrite !run_bind_eq.
  unfold mret, run_ret. cbn [fst length]. now rewrite IH.
Qed.

End WithWorld.

End PdfFacts.

Module PageFacts.
Import Vision PdfComparison PdfPages.

Section WithWorld.

Variable image : Type.
Variable makedirs : string -> outcome unit.
Variable convert_from_path : string -> nat -> outcome (list image).
Variable save_jpeg : image -> string -> outcome (list Byte.byte).
Variable path_stem : string -> string.

Local Abbreviation save_pages := (PdfComparison.save_pages image save_jpeg).
Local Abbreviation pdf_to_images :=
  (PdfComparison.pdf_to_images image makedirs convert_from_path save_jpeg
     path_stem).

(** When every page is saved, the path of every page is returned. *)
Lemma save_pages_all d s : forall images i w,
  (forall k img, images !! k = Some img ->
                 exists data, save_jpeg img (page_path d s (i + k)) = Returned data) ->
  fst (save_pages d s i images w)
  = Returned (map (page_path d s) (seq i (length images))).
Proof.
  induction images as [|img rest IH]; intros i w H; [reflexivity|].
  cbn [PdfComparison.save_pages]. fold (page_path d s i).
  destruct (H 0 img eq_refl) as [data Hd]. rewrite Nat.add_0_r in Hd.
  rewrite Hd, !PdfFacts.run_bind_eq. cbn [store fst snd].
  rewrite IH.
  - reflexivity.
  - intros k img' Hk. destruct (H (S k) img' Hk) as [data' Hd'].
    exists data'. now rewrite Nat.add_succ_comm.
Qed.

(** When the save of a page raises and the pages before it were saved,
    the exception comes out of the loop. *)
Lemma save_pages_raise d s e : forall images i w k img,
  images !! k = Some img ->
  save_jpeg img (page_path d s (i + k)) = Raised e ->
  (forall j img', j < k -> images !! j = Some img' ->
                  exists data, save_jpeg img' (page_path d s (i + j))
                               = Returned data) ->
  fst (save_pages d s i images w) = Raised e.
Proof.
  induction images as [|x rest IH]; intros i w k img Hk He Hb;
    [discriminate Hk|].
  cbn [PdfComparison.save_pages]. fold (page_path d s i).
  destruct k as [|k].
  - injection Hk as ->. rewrite Nat.add_0_r in He. now rewrite He.
  - destruct (Hb 0 x (Nat.lt_0_succ k) eq_refl) as [data Hd].
    rewrite Nat.add_0_r in Hd.
    rewrite Hd, !PdfFacts.run_bind_eq. cbn [store fst snd].
    rewrite (IH (S i) _ k img Hk).
    + reflexivity.
    + now rewrite Nat.add_succ_comm.
    + intros j img' Hj Hl. destruct (Hb (S j) img') as [data' Hd'];
        [lia|exact Hl|].
      exists data'. now rewrite Nat.add_succ_comm.
Qed.

(** What [pdf_to_images] returns and prints after its [try] block. *)
Lemma pdf_to_images_returned pdf_path output_dir max_pages w images :
  makedirs output_dir = Returned tt ->
  convert_from_path pdf_path max_pages = Returned images ->
  (forall k img, images !! k = Some img ->
                 exists data,
                   save_jpeg img (page_path output_dir (path_stem pdf_path) k)
                   = Returned data) ->
  fst (pdf_to_images pdf_path output_dir max_pages w)
  = map (page_path output_dir (path_stem pdf_path)) (seq 0 (length images))
  /\ events (snd (pdf_to_images pdf_path output_dir max_pages w)) = events w.
Proof.
  intros Hm Hc Hs.
  unfold PdfComparison.pdf_to_images. rewrite PdfFacts.run_bind_eq.
  unfold PdfComparison.pdf_to_images_try. rewrite Hm, Hc.
  rewrite (save_pages_all output_dir (path_stem pdf_path) images 0 w Hs).
  cbn [mret run_ret fst snd]. split; [reflexivity|].
  apply PdfFacts.save_pages_spec.
Qed.

Lemma pdf_to_images_raised pdf_path output_dir max_pages w e :
  fst (PdfComparison.pdf_to_images_try image makedirs convert_from_path
         save_jpeg path_stem pdf_path output_dir max_pages w) = Raised e ->
  fst (pdf_to_images pdf_path output_dir max_pages w) = []
  /\ events (snd (pdf_to_images pdf_path output_dir max_pages w))
     = events (snd (PdfComparison.pdf_to_images_try image makedirs
                      convert_from_path save_jpeg path_stem pdf_path
                      output_dir max_pages w))
       ++ [Printed ("Error converting PDF " +:+ pdf_path +:+ " to images: "
                    +:+ e)].
Proof.
  intros H. unfold PdfComparison.pdf_to_images.
  rewrite PdfFacts.run_bind_eq, H, PdfFacts.run_bind_eq.
  now cbn [emit mret run_ret fst snd events].
Qed.

End WithWorld.

End PageFacts.

Module WrittenFacts.
Import Vision PdfComparison PdfPages.

Section WithWorld.

Variable image : Type.
Variable makedirs : string -> outcome unit.
Variable convert_from_path : string -> nat -> outcome (list image).
Variable save_jpeg : image -> string -> outcome (list Byte.byte).
Variable read_error : string -> string.
Variables path_stem path_name : string -> string.
Variable chat : string -> string -> list string -> outcome string.
Variable write_text : string -> string -> outcome unit.

Local Abbreviation compare_pdf_pair :=
  (PdfComparison.compare_pdf_pair image makedirs convert_from_path save_jpeg
     read_error path_stem path_name chat).
Local Abbreviation compare_pairs :=
  (PdfComparison.compare_pairs image makedirs convert_from_path save_jpeg
     read_error path_stem path_name chat).

(** The loop compares the first pair after announcing it, and the other
    pairs in the world the comparison leaves. *)
Lemma compare_pairs_cons pdf1 pdf2 ps w :
  fst (compare_pairs ((pdf1, pdf2) :: ps) w)
  = fst (compare_pdf_pair pdf1 pdf2 default_model
           (mk_world (files w)
              (events w ++ [Printed ("Comparing " +:+ path_name pdf1 +:+ " and "
                                     +:+ path_name pdf2 +:+ "...")])))
    :: fst (compare_pairs ps
              (snd (compare_pdf_pair pdf1 pdf2 default_model
                      (mk_world (files w)
                         (events w
                          ++ [Printed ("Comparing " +:+ path_name pdf1
                                       +:+ " and " +:+ path_name pdf2
                                       +:+ "...")]))))).
Proof.
  cbn [PdfComparison.compare_pairs]. rewrite !PdfFacts.run_bind_eq.
  reflexivity.
Qed.

(** What [process_and_compare_pdfs] adds to the events of its loop. *)
Lemma process_and_compare_pdfs_written pdf_files output_file w :
  2 <= length pdf_files ->
  events (snd (PdfComparison.process_and_compare_pdfs
                 image makedirs convert_from_path save_jpeg read_error
                 path_stem path_name chat write_text
                 pdf_files output_file w))
  = events (snd (compare_pairs (Pairs.all_pairs pdf_files) w))
    ++ [Wrote output_file
          (Py.join Py.nl (fst (compare_pairs (Pairs.all_pairs pdf_files) w)));
        Printed
          match write_text output_file
                  (Py.join Py.nl
                     (fst (compare_pairs (Pairs.all_pairs pdf_files) w))) with
          | Returned _ => "Comparison results saved to " +:+ output_file
          | Raised e =>
            "Error saving comparison to " +:+ output_file +:+ ": " +:+ e
          end].
Proof.
  intros H. unfold PdfComparison.process_and_compare_pdfs.
  destruct (length pdf_files <? 2) eqn:E; [apply Nat.ltb_lt in E; lia|].
  rewrite !PdfFacts.run_bind_eq.
  destruct (write_text _ _); cbn [emit snd events];
    now rewrite <- List.app_assoc.
Qed.

End WithWorld.

End WrittenFacts.

(** ** The matches of the SSN pattern *)

Module PatternFacts.
Import Re Engine Shape.

(** Where the scan finds a match, the pattern matches the text from there. *)
Lemma scan_spans r : forall s pv n skip i e,
  In (i, e) (scan r pv s n skip) ->
  n <= i /\ i < e
  /\ exists pv', match_at r (mk_cursor pv' (str_drop (i - n) s) i) = Some e.
Proof.
  induction s as [|c s IH]; intros pv n skip i e H.
  - cbn [scan] in H. destruct skip as [|skip]; [|destruct H].
    destruct (match_at r (mk_cursor pv EmptyString n)) as [e'|] eqn:E;
      [|destruct H].
    destruct (n <? e') eqn:L; [|destruct H].
    destruct H as [H|[]]. injection H as <- <-. apply Nat.ltb_lt in L.
    split; [lia|]. split; [exact L|]. exists pv.
    now rewrite Nat.sub_diag.
  - cbn [scan] in H.
    assert (Hrec : forall skip', In (i, e) (scan r (Some c) s (S n) skip') ->
              n <= i /\ i < e
              /\ exists pv', match_at r (mk_cursor pv' (str_drop (i - n) (String c s)) i)
                             = Some e).
    { intros skip' H'. destruct (IH _ _ _ _ _ H') as (H1 & H2 & pv' & H3).
      split; [lia|]. split; [exact H2|]. exists pv'.
      replace (i - n) with (S (i - S n)) by lia. exact H3. }
    destruct skip as [|skip]; [|now apply Hrec in H].
    destruct (match_at r (mk_cursor pv (String c s) n)) as [e'|] eqn:E;
      [|now apply Hrec in H].
    destruct (n <? e') eqn:L; [|now apply Hrec in H].
    destruct H as [H|H]; [|now apply Hrec in H].
    injection H as <- <-. apply Nat.ltb_lt in L.
    split; [lia|]. split; [exact L|]. exists pv.
    now rewrite Nat.sub_diag.
Qed.

Lemma finditer_spans r text i e :
  In (i, e) (finditer r text) ->
  i < e /\ exists pv, match_at r (mk_cursor pv (str_drop i text) i) = Some e.
Proof.
  intros H. apply scan_spans in H. destruct H as (_ & H & pv & Hm).
  split; [exact H|]. exists pv. now rewrite Nat.sub_0_r in Hm.
Qed.

(** A match of the SSN pattern at a position takes eleven characters of
    the shape. *)
Lemma ssn_match pv s n e :
  match_at ssn_pattern (mk_cursor pv s n) = Some e ->
  e = n + 11 /\ fits ssn_shape (str_take 11 s) = true
  /\ 11 <= String.length s.
Proof.
  unfold match_at, ssn_pattern. cbn [cat run]. 
  destruct (at_boundary (mk_cursor pv s n)); [|discriminate].
  cbn [prev rest pos].
  destruct s as [|c1 [|c2 [|c3 [|c4 [|c5 [|c6 [|c7 [|c8 [|c9 [|c10 [|c11 s]]]]]]]]]]];
    cbn [times rest pos prev];
    repeat match goal with
           | |- (if ?b then _ else _) = Some _ -> _ =>
             destruct b eqn:?; [|discriminate]; cbn [times rest pos prev]
           | |- None = Some _ -> _ => discriminate
           end.
  intros H. injection H as <-.
  split; [lia|]. split; [|cbn; lia].
  cbn [str_take fits ssn_shape].
  repeat match goal with H : _ = true |- _ => rewrite H; clear H end.
  reflexivity.
Qed.

End PatternFacts.
(** ** Further properties of the document processor *)

(** [compare_texts] returns an empty diff exactly when the two texts have
    the same lines, and [process_directory] writes "No Differences Found"
    for a pair exactly then: texts that differ only in their line
    terminators, or in a final line end, count as the same. *)
Theorem no_differences_iff_same_lines (text1 text2 name1 name2 : string) :
  (Processor.compare_texts text1 text2 name1 name2 = []
   <-> Py.splitlines text1 = Py.splitlines text2)
  /\ (Processor.diff_text (Processor.compare_texts text1 text2 name1 name2)
      = "No Differences Found" +:+ Py.nl
      <-> Py.splitlines text1 = Py.splitlines text2).
Proof.
  assert (H : Processor.compare_texts text1 text2 name1 name2 = []
              <-> Py.splitlines text1 = Py.splitlines text2)
    by apply DiffShapeFacts.unified_diff_empty.
  split; [exact H|]. rewrite <- H.
  destruct (Processor.compare_texts text1 text2 name1 name2) as [|d diff].
  - split; reflexivity.
  - split; [|discriminate]. unfold Processor.diff_text. intros E.
    apply (f_equal (fun s => String.get 0 s)) in E. discriminate E.
Qed.

(** Every line of the diff that [compare_texts] returns is one of the two
    file lines, a hunk line, a line of the first text behind a space or a
    minus sign, or a line of the second text behind a plus sign; a diff
    that is not empty opens with the two file lines and a hunk line. *)
Theorem diff_lines_shape (text1 text2 name1 name2 : string) :
  Forall (DiffShape.diff_line (Py.splitlines text1) (Py.splitlines text2)
                              name1 name2)
         (Processor.compare_texts text1 text2 name1 name2)
  /\ (Processor.compare_texts text1 text2 name1 name2 = []
      \/ exists i1 i2 j1 j2 body,
           Processor.compare_texts text1 text2 name1 name2
           = ("--- " +:+ name1) :: ("+++ " +:+ name2)
             :: ("@@ -" +:+ Difflib.format_range_unified i1 i2
                 +:+ " +" +:+ Difflib.format_range_unified j1 j2 +:+ " @@")
             :: body).
Proof.
  split.
  - apply DiffShapeFacts.unified_diff_lines.
  - apply DiffShapeFacts.unified_diff_head.
Qed.

(** [process_directory] compares every two of the documents it kept once:
    the pairs are those of [combinations] over the names in the order they
    were kept, each name with every later one.  So any two kept documents
    of different names are compared, in one order or the other, no pair
    twice and no document with itself: [n (n - 1) / 2] pairs for [n]
    documents. *)
Theorem comparisons_count (image_to_string : string -> outcome string)
    (images : list string) :
  Processor.pairs (Pipeline.documents_of image_to_string images)
  = Pairs.all_pairs (keys (Pipeline.documents_of image_to_string images))
  /\ (forall name1 name2,
        In (name1, name2)
           (Processor.pairs (Pipeline.documents_of image_to_string images))
        <-> exists i j,
              i < j
              /\ keys (Pipeline.documents_of image_to_string images) !! i
                 = Some name1
              /\ keys (Pipeline.documents_of image_to_string images) !! j
                 = Some name2)
  /\ (forall name1 name2,
        In name1 (keys (Pipeline.documents_of image_to_string images)) ->
        In name2 (keys (Pipeline.documents_of image_to_string images)) ->
        name1 <> name2 ->
        In (name1, name2)
           (Processor.pairs (Pipeline.documents_of image_to_string images))
        \/ In (name2, name1)
              (Processor.pairs (Pipeline.documents_of image_to_string images)))
  /\ 2 * length (Processor.pairs (Pipeline.documents_of image_to_string images))
     = length (Pipeline.documents_of image_to_string images)
       * (length (Pipeline.documents_of image_to_string images) - 1)
  /\ List.NoDup (Processor.pairs (Pipeline.documents_of image_to_string images))
  /\ forall name1 name2,
       In (name1, name2)
          (Processor.pairs (Pipeline.documents_of image_to_string images)) ->
       name1 <> name2.
Proof.
  split; [apply PairFacts.pairs_all|].
  split; [intros name1 name2; apply DocumentFacts.in_pairs|].
  split.
  - intros name1 name2 H1 H2 Hne.
    apply list_elem_of_In, list_elem_of_lookup in H1, H2.
    destruct H1 as [i Hi], H2 as [j Hj].
    destruct (Nat.lt_trichotomy i j) as [L|[L|L]].
    + left. apply DocumentFacts.in_pairs. now exists i, j.
    + subst j. congruence.
    + right. apply DocumentFacts.in_pairs. now exists j, i.
  - rewrite PairFacts.pairs_all.
    pose proof (PairFacts.all_pairs_length
                  (keys (Pipeline.documents_of image_to_string images))) as H.
    unfold keys in H at 2 3. rewrite !List.length_map in H.
    split; [exact H|].
    apply PairFacts.all_pairs_NoDup, PairFacts.documents_NoDup.
Qed.

(** The text [process_directory] keeps under a name is the text extracted
    from the image of that name, and it is kept exactly when the
    extraction returned a text that is not empty. *)
Theorem documents_hold_extracted_text
    (image_to_string : string -> outcome string) (images : list string)
    (name text : string) :
  dict_get (Pipeline.documents_of image_to_string images) name = Some text
  <-> In name images /\ image_to_string name = Returned text
      /\ text <> EmptyString.
Proof. apply LookupFacts.documents_get. Qed.

(** When masking fails on every text, [process_directory] still writes
    its three outputs, and the masked ones hold the unmasked text: the
    masked report is the unmasked report, and every masked document is the
    extracted text itself. *)
Theorem failed_masking_writes_raw_text (self : DocumentProcessor)
    (image_to_string : string -> outcome string) (now : string)
    (images : list string) :
  (forall text, exists e, Processor.mask_pii_try self text = Raised e) ->
  2 <= length images ->
  exists w,
    fst (Processor.process_directory self image_to_string now images) = Some w
    /\ Processor.masked_file w = Processor.unmasked_file w
    /\ Processor.masked_docs w = Pipeline.documents_of image_to_string images.
Proof.
  intros Hf Hn. eexists. split.
  - now apply PipelineFacts.process_directory_written.
  - cbn [Processor.masked_file Processor.unmasked_file Processor.masked_docs].
    split.
    + now rewrite LookupFacts.masked_sections_failing.
    + now apply LookupFacts.mask_documents_failing.
Qed.

Lemma failed_masking_writes_raw_text_witness :
  exists w,
    fst (Processor.process_directory Reading.failing_processor
           Reading.two_names_reader Samples.stamp ["a.png"; "b.png"]) = Some w
    /\ Processor.masked_file w = Processor.unmasked_file w
    /\ Processor.masked_docs w
       = Pipeline.documents_of Reading.two_names_reader ["a.png"; "b.png"].
Proof.
  apply (failed_masking_writes_raw_text Reading.failing_processor
           Reading.two_names_reader Samples.stamp ["a.png"; "b.png"]).
  - intros text. exists "analyzer unavailable". reflexivity.
  - cbn. lia.
Defined.
(** ** Further properties of the section parser and of the pipeline *)

(** [read_diff_file] in full: one section per line beginning with
    "Comparison:", the last one dropped when no line reaches its diff.  The
    [header] of a section holds the last two report-header lines (lines
    beginning with "Document Comparison Report" or "Generated:") read before
    its comparison line, wherever they stand in the file, so at most two
    lines; its [comparison] is the comparison line. *)
Theorem read_diff_file_headers (content : string) :
  DiffReport.read_diff_file content
  = ReportLines.render_sections
      (ReportLines.headed_blocks [] (Py.splitlines content))
  /\ Forall (fun s =>
               DiffReport.is_comparison (DiffReport.comparison s) = true
               /\ length (DiffReport.header s) <= 2
               /\ Forall (fun l => DiffReport.is_header l = true)
                         (DiffReport.header s))
            (DiffReport.read_diff_file content).
Proof.
  split.
  - apply SectionFacts.read_diff_file_blocks.
  - apply SectionFacts.read_diff_file_inv.
Qed.

(** The parser reads the unmasked report back pair by pair.  For image
    names and a time stamp without line boundaries, [read_diff_file] applied
    to the unmasked report of [process_directory] returns one section per
    compared pair, in order: its comparison line, the two title lines as
    header, and as diff the rule, the lines of the diff text that are not
    blank, and the rule again. *)
Theorem unmasked_report_round_trip (self : DocumentProcessor)
    (image_to_string : string -> outcome string) (now : string)
    (images : list string) :
  2 <= length images ->
  Forall (fun n => Engine.break_free n = true) images ->
  Engine.break_free now = true ->
  exists w,
    fst (Processor.process_directory self image_to_string now images) = Some w
    /\ DiffReport.read_diff_file (Processor.unmasked_file w)
       = map (fun p =>
                DiffReport.mk_section
                  (Pipeline.comparison_line (fst p) (snd p))
                  (Pipeline.title_lines now)
                  (Py.join Py.nl
                     (Processor.rule
                      :: List.filter DiffReport.nonblank
                           (Pipeline.body_lines
                              (Pipeline.pair_diff
                                 (Pipeline.documents_of image_to_string images)
                                 p))
                      ++ [Processor.rule])))
             (Processor.pairs (Pipeline.documents_of image_to_string images)).
Proof.
  intros Hl Hi Hn. eexists. split.
  - now apply PipelineFacts.process_directory_written.
  - cbn [Processor.unmasked_file].
    now apply PipelineFacts.unmasked_report_parses.
Qed.

Lemma unmasked_report_round_trip_witness :
  exists w,
    fst (Processor.process_directory Reading.pattern_processor
           Reading.two_names_reader Samples.stamp ["a.png"; "b.png"]) = Some w
    /\ DiffReport.read_diff_file (Processor.unmasked_file w)
       = map (fun p =>
                DiffReport.mk_section
                  (Pipeline.comparison_line (fst p) (snd p))
                  (Pipeline.title_lines Samples.stamp)
                  (Py.join Py.nl
                     (Processor.rule
                      :: List.filter DiffReport.nonblank
                           (Pipeline.body_lines
                              (Pipeline.pair_diff
                                 (Pipeline.documents_of Reading.two_names_reader
                                    ["a.png"; "b.png"])
                                 p))
                      ++ [Processor.rule])))
             (Processor.pairs
                (Pipeline.documents_of Reading.two_names_reader
                   ["a.png"; "b.png"])).
Proof.
  apply (unmasked_report_round_trip Reading.pattern_processor
           Reading.two_names_reader Samples.stamp ["a.png"; "b.png"]).
  - cbn. lia.
  - repeat constructor.
  - reflexivity.
Defined.

(** The parser reads the masked report back pair by pair as well,
    whatever masking returned, as long as no line of a masked diff text
    begins with "Comparison:", "Document Comparison Report" or
    "Generated:": the diff of a section is the rule, the lines of the
    masked diff text that are not blank, and the rule again, whether or
    not the masked text still ends its last line. *)
Theorem masked_report_round_trip (self : DocumentProcessor)
    (image_to_string : string -> outcome string) (now : string)
    (images : list string) :
  2 <= length images ->
  Forall (fun n => Engine.break_free n = true) images ->
  Engine.break_free now = true ->
  (forall p,
     In p (Processor.pairs (Pipeline.documents_of image_to_string images)) ->
     Forall (fun l => ReportLines.plain l = true)
       (Py.splitlines
          (fst (Processor.mask_pii self
                  (Processor.diff_text
                     (Pipeline.pair_diff
                        (Pipeline.documents_of image_to_string images) p)))))) ->
  exists w,
    fst (Processor.process_directory self image_to_string now images) = Some w
    /\ DiffReport.read_diff_file (Processor.masked_file w)
       = map (fun p =>
                DiffReport.mk_section
                  (Pipeline.comparison_line (fst p) (snd p))
                  (Pipeline.title_lines now)
                  (Py.join Py.nl
                     (Processor.rule
                      :: List.filter DiffReport.nonblank
                           (Py.splitlines
                              (fst (Processor.mask_pii self
                                      (Processor.diff_text
                                         (Pipeline.pair_diff
                                            (Pipeline.documents_of
                                               image_to_string images) p)))))
                      ++ [Processor.rule])))
             (Processor.pairs (Pipeline.documents_of image_to_string images)).
Proof.
  intros Hl Hi Hn Hm. eexists. split.
  - now apply PipelineFacts.process_directory_written.
  - cbn [Processor.masked_file].
    rewrite PipelineFacts.masked_report_parses by assumption.
    unfold Pipeline.masked_sections. now rewrite map_map.
Qed.

Lemma masked_report_round_trip_witness :
  exists w,
    fst (Processor.process_directory Reading.pattern_processor
           Reading.two_names_reader Samples.stamp ["a.png"; "b.png"]) = Some w
    /\ DiffReport.read_diff_file (Processor.masked_file w)
       = map (fun p =>
                DiffReport.mk_section
                  (Pipeline.comparison_line (fst p) (snd p))
                  (Pipeline.title_lines Samples.stamp)
                  (Py.join Py.nl
                     (Processor.rule
                      :: List.filter DiffReport.nonblank
                           (Py.splitlines
                              (fst (Processor.mask_pii Reading.pattern_processor
                                      (Processor.diff_text
                                         (Pipeline.pair_diff
                                            (Pipeline.documents_of
                                               Reading.two_names_reader
                                               ["a.png"; "b.png"]) p)))))
                      ++ [Processor.rule])))
             (Processor.pairs
                (Pipeline.documents_of Reading.two_names_reader
                   ["a.png"; "b.png"])).
Proof.
  apply (masked_report_round_trip Reading.pattern_processor
           Reading.two_names_reader Samples.stamp ["a.png"; "b.png"]).
  - cbn. lia.
  - repeat constructor.
  - reflexivity.
  - intros p Hp. vm_compute in Hp. destruct Hp as [<-|[]].
    vm_compute. repeat constructor.
Defined.

(** [process_report] writes one section for every section the parser
    returns, in order: the comparison line, the rule, one line of text, an
    empty line and the rule.  The text is the fixed sentence when the
    section's diff contains "No Differences Found", the stripped reply of
    the model when the call returns, and "Error generating summary." when
    it raises, so a failing call never stops the report.  The model is
    called once for each section whose diff lacks the marker, in order, and
    never for the others. *)
Theorem readable_report_contents (model_name : string)
    (chat : string -> string -> string -> outcome string)
    (now output_file content : string) :
  fst (Summary.process_report model_name chat now output_file content)
  = "Readable Comparison Report" +:+ Py.nl +:+ "Generated: " +:+ now
    +:+ Py.nl +:+ Py.nl
    +:+ Py.join EmptyString
          (map (fun s =>
                  DiffReport.comparison s +:+ Py.nl +:+ Processor.rule +:+ Py.nl
                  +:+ (Summary.summary_of chat model_name s +:+ Py.nl)
                  +:+ Py.nl +:+ Processor.rule +:+ Py.nl +:+ Py.nl)
               (DiffReport.read_diff_file content))
  /\ Summary.asked
       (snd (Summary.process_report model_name chat now output_file content))
     = map (fun s =>
              Summary.Asked model_name Summary.system_message
                (Summary.prompt (DiffReport.diff s) (DiffReport.comparison s)))
           (List.filter
              (fun s => negb (Engine.contains (DiffReport.diff s) Summary.marker))
              (DiffReport.read_diff_file content)).
Proof.
  split.
  - rewrite SummaryFacts.process_report_fst.
    rewrite (map_ext _ _ (SummaryFacts.write_section_fst model_name chat)).
    reflexivity.
  - apply SummaryFacts.process_report_asked.
Qed.

(** From the images to the prompts.  When the masked report of
    [process_directory] is given to [process_report], every call of the
    model is about a pair of documents whose lines differ, and its prompt
    holds the diff that the parser read for that pair: a pair of documents
    with the same lines is never sent to the model.  This needs names and a
    time stamp without line boundaries, masked diff texts none of whose
    lines begins with "Comparison:", "Document Comparison Report" or
    "Generated:", and a masking that leaves the text "No Differences Found"
    as it is. *)
Theorem prompts_concern_differing_pairs (self : DocumentProcessor)
    (image_to_string : string -> outcome string)
    (chat : string -> string -> string -> outcome string)
    (model_name now now' output_file : string) (images : list string) :
  2 <= length images ->
  Forall (fun n => Engine.break_free n = true) images ->
  Engine.break_free now = true ->
  (forall p,
     In p (Processor.pairs (Pipeline.documents_of image_to_string images)) ->
     Forall (fun l => ReportLines.plain l = true)
       (Py.splitlines
          (fst (Processor.mask_pii self
                  (Processor.diff_text
                     (Pipeline.pair_diff
                        (Pipeline.documents_of image_to_string images) p)))))) ->
  fst (Processor.mask_pii self (Summary.marker +:+ Py.nl))
  = Summary.marker +:+ Py.nl ->
  exists w,
    fst (Processor.process_directory self image_to_string now images) = Some w
    /\ Forall
         (fun e =>
            exists p,
              In p (Processor.pairs
                      (Pipeline.documents_of image_to_string images))
              /\ Py.splitlines
                   (Processor.text_of
                      (Pipeline.documents_of image_to_string images) (fst p))
                 <> Py.splitlines
                      (Processor.text_of
                         (Pipeline.documents_of image_to_string images) (snd p))
              /\ e = Summary.Asked model_name Summary.system_message
                       (Summary.prompt
                          (DiffReport.diff
                             (Pipeline.parsed_section now
                                (p, fst (Processor.mask_pii self
                                           (Processor.diff_text
                                              (Pipeline.pair_diff
                                                 (Pipeline.documents_of
                                                    image_to_string images)
                                                 p))))))
                          (Pipeline.comparison_line (fst p) (snd p))))
         (Summary.asked
            (snd (Summary.process_report model_name chat now' output_file
                    (Processor.masked_file w)))).
Proof.
  intros Hl Hi Hn Hm Hk. eexists. split.
  - now apply PipelineFacts.process_directory_written.
  - cbn [Processor.masked_file]. now apply PromptFacts.asked_pairs_differ.
Qed.

Lemma prompts_concern_differing_pairs_witness :
  exists w,
    fst (Processor.process_directory Reading.pattern_processor
           Reading.two_names_reader Samples.stamp ["a.png"; "b.png"]) = Some w
    /\ Forall
         (fun e =>
            exists p,
              In p (Processor.pairs
                      (Pipeline.documents_of Reading.two_names_reader
                         ["a.png"; "b.png"]))
              /\ Py.splitlines
                   (Processor.text_of
                      (Pipeline.documents_of Reading.two_names_reader
                         ["a.png"; "b.png"]) (fst p))
                 <> Py.splitlines
                      (Processor.text_of
                         (Pipeline.documents_of Reading.two_names_reader
                            ["a.png"; "b.png"]) (snd p))
              /\ e = Summary.Asked "llama3" Summary.system_message
                       (Summary.prompt
                          (DiffReport.diff
                             (Pipeline.parsed_section Samples.stamp
                                (p, fst (Processor.mask_pii
                                           Reading.pattern_processor
                                           (Processor.diff_text
                                              (Pipeline.pair_diff
                                                 (Pipeline.documents_of
                                                    Reading.two_names_reader
                                                    ["a.png"; "b.png"])
                                                 p))))))
                          (Pipeline.comparison_line (fst p) (snd p))))
         (Summary.asked
            (snd (Summary.process_report "llama3" Samples.answering
                    Samples.stamp "output/readable_diff_report.txt"
                    (Processor.masked_file w)))).
Proof.
  apply (prompts_concern_differing_pairs Reading.pattern_processor
           Reading.two_names_reader Samples.answering "llama3"
           Samples.stamp Samples.stamp "output/readable_diff_report.txt"
           ["a.png"; "b.png"]).
  - cbn. lia.
  - repeat constructor.
  - reflexivity.
  - intros p Hp. vm_compute in Hp. destruct Hp as [<-|[]].
    vm_compute. repeat constructor.
  - vm_compute. reflexivity.
Defined.
(** ** Properties of the vision scripts *)

(** [compare_image_pair] calls the model exactly when both files can be
    read and neither is empty, with the two encoded files in order; in
    every other case it calls nothing and returns the "Failed to encode
    images" line, an empty file counting as one that cannot be encoded. *)
Theorem image_pair_model_call
    (read_bytes : string -> outcome (list Byte.byte))
    (path_name : string -> string)
    (chat : string -> string -> list string -> outcome string)
    (img1_path img2_path model : string) :
  (forall d1 d2,
     read_bytes img1_path = Returned d1 -> d1 <> [] ->
     read_bytes img2_path = Returned d2 -> d2 <> [] ->
     ImageComparison.asked
       (snd (ImageComparison.compare_image_pair read_bytes path_name chat
               img1_path img2_path model))
     = [Vision.Asked model
          (ImageComparison.prompt (path_name img1_path) (path_name img2_path))
          [Base64.b64encode d1; Base64.b64encode d2]])
  /\ (~ (ImageComparison.encodable read_bytes img1_path
         /\ ImageComparison.encodable read_bytes img2_path) ->
      ImageComparison.asked
        (snd (ImageComparison.compare_image_pair read_bytes path_name chat
                img1_path img2_path model)) = []
      /\ fst (ImageComparison.compare_image_pair read_bytes path_name chat
                img1_path img2_path model)
         = "Comparison between " +:+ path_name img1_path +:+ " and "
           +:+ path_name img2_path +:+ ": Failed to encode images." +:+ Py.nl).
Proof.
  split.
  - intros d1 d2. apply ImageFacts.compare_image_pair_asked.
  - intros H. split.
    + now apply ImageFacts.compare_image_pair_skipped_asked.
    + now rewrite ImageFacts.compare_image_pair_skipped.
Qed.

(** With two image files or more, [process_and_compare_images] compares
    every two files once, in the order of [combinations], and hands the
    results to the output file in one write, joined by newlines, whether
    or not every comparison succeeded; with [n] files there are
    [n (n - 1) / 2] results. *)
Theorem image_comparisons_written
    (read_bytes : string -> outcome (list Byte.byte))
    (path_name : string -> string)
    (chat : string -> string -> list string -> outcome string)
    (write_text : string -> string -> outcome unit)
    (image_files : list string) (output_file : string) :
  2 <= length image_files ->
  2 * length (Pairs.all_pairs image_files)
  = length image_files * (length image_files - 1)
  /\ exists last,
       snd (ImageComparison.process_and_compare_images
              read_bytes path_name chat write_text image_files output_file)
       = snd (ImageComparison.compare_pairs read_bytes path_name chat
                (Pairs.all_pairs image_files))
         ++ [Vision.Wrote output_file
               (Py.join Py.nl
                  (map (fun p =>
                          fst (ImageComparison.compare_image_pair
                                 read_bytes path_name chat (fst p) (snd p)
                                 Vision.default_model))
                       (Pairs.all_pairs image_files)));
             Vision.Printed last].
Proof.
  intros H. split; [apply PairFacts.all_pairs_length|].
  now apply ImageFacts.process_and_compare_images_events.
Qed.

Lemma image_comparisons_written_witness :
  2 * length (Pairs.all_pairs ["in/a_f1042.png"; "in/b_f1042.png"])
  = length ["in/a_f1042.png"; "in/b_f1042.png"]
    * (length ["in/a_f1042.png"; "in/b_f1042.png"] - 1)
  /\ exists last,
       snd (ImageComparison.process_and_compare_images
              Samples.two_files (fun p => p) Samples.seeing
              (fun _ _ => Returned tt)
              ["in/a_f1042.png"; "in/b_f1042.png"] "out.txt")
       = snd (ImageComparison.compare_pairs Samples.two_files (fun p => p)
                Samples.seeing
                (Pairs.all_pairs ["in/a_f1042.png"; "in/b_f1042.png"]))
         ++ [Vision.Wrote "out.txt"
               (Py.join Py.nl
                  (map (fun p =>
                          fst (ImageComparison.compare_image_pair
                                 Samples.two_files (fun p => p) Samples.seeing
                                 (fst p) (snd p) Vision.default_model))
                       (Pairs.all_pairs ["in/a_f1042.png"; "in/b_f1042.png"])));
             Vision.Printed last].
Proof.
  apply (image_comparisons_written Samples.two_files (fun p => p)
           Samples.seeing (fun _ _ => Returned tt)
           ["in/a_f1042.png"; "in/b_f1042.png"] "out.txt").
  cbn. lia.
Defined.

(** [pdf_to_images] returns the path of every page or no path at all.
    When the directory is made, [convert_from_path] returns its pages and
    every page is saved, the paths of all pages are returned, numbered
    from 1 under the output directory, and nothing is printed.  When
    [makedirs] raises, when [convert_from_path] raises, or when the save of
    a page raises after the pages before it were saved, the list returned
    is empty and one line with the exception is printed. *)
Theorem pdf_pages_all_or_nothing (image : Type)
    (makedirs : string -> outcome unit)
    (convert_from_path : string -> nat -> outcome (list image))
    (save_jpeg : image -> string -> outcome (list Byte.byte))
    (path_stem : string -> string)
    (pdf_path output_dir : string) (max_pages : nat)
    (w : PdfComparison.world) :
  (fst (PdfComparison.pdf_to_images image makedirs convert_from_path save_jpeg
          path_stem pdf_path output_dir max_pages w) = []
   \/ exists images,
        convert_from_path pdf_path max_pages = Returned images
        /\ fst (PdfComparison.pdf_to_images image makedirs convert_from_path
                  save_jpeg path_stem pdf_path output_dir max_pages w)
           = map (PdfPages.page_path output_dir (path_stem pdf_path))
                 (seq 0 (length images)))
  /\ (forall images,
        makedirs output_dir = Returned tt ->
        convert_from_path pdf_path max_pages = Returned images ->
        (forall k img,
           images !! k = Some img ->
           exists data,
             save_jpeg img (PdfPages.page_path output_dir (path_stem pdf_path) k)
             = Returned data) ->
        fst (PdfComparison.pdf_to_images image makedirs convert_from_path
               save_jpeg path_stem pdf_path output_dir max_pages w)
        = map (PdfPages.page_path output_dir (path_stem pdf_path))
              (seq 0 (length images))
        /\ PdfComparison.events
             (snd (PdfComparison.pdf_to_images image makedirs convert_from_path
                     save_jpeg path_stem pdf_path output_dir max_pages w))
           = PdfComparison.events w)
  /\ (forall e,
        makedirs output_dir = Raised e ->
        PdfComparison.pdf_to_images image makedirs convert_from_path
          save_jpeg path_stem pdf_path output_dir max_pages w
        = ([], PdfComparison.mk_world (PdfComparison.files w)
                 (PdfComparison.events w
                  ++ [Vision.Printed ("Error converting PDF " +:+ pdf_path
                                      +:+ " to images: " +:+ e)])))
  /\ (forall e,
        makedirs output_dir = Returned tt ->
        convert_from_path pdf_path max_pages = Raised e ->
        PdfComparison.pdf_to_images image makedirs convert_from_path
          save_jpeg path_stem pdf_path output_dir max_pages w
        = ([], PdfComparison.mk_world (PdfComparison.files w)
                 (PdfComparison.events w
                  ++ [Vision.Printed ("Error converting PDF " +:+ pdf_path
                                      +:+ " to images: " +:+ e)])))
  /\ (forall images k img e,
        makedirs output_dir = Returned tt ->
        convert_from_path pdf_path max_pages = Returned images ->
        images !! k = Some img ->
        save_jpeg img (PdfPages.page_path output_dir (path_stem pdf_path) k)
        = Raised e ->
        (forall j img',
           j < k -> images !! j = Some img' ->
           exists data,
             save_jpeg img' (PdfPages.page_path output_dir (path_stem pdf_path) j)
             = Returned data) ->
        fst (PdfComparison.pdf_to_images image makedirs convert_from_path
               save_jpeg path_stem pdf_path output_dir max_pages w) = []
        /\ PdfComparison.events
             (snd (PdfComparison.pdf_to_images image makedirs convert_from_path
                     save_jpeg path_stem pdf_path output_dir max_pages w))
           = PdfComparison.events w
             ++ [Vision.Printed ("Error converting PDF " +:+ pdf_path
                                 +:+ " to images: " +:+ e)]).
Proof.
  split; [apply PdfFacts.pdf_to_images_paths|].
  split; [intros images; apply PageFacts.pdf_to_images_returned|].
  split; [|split].
  - intros e Hm.
    unfold PdfComparison.pdf_to_images, PdfComparison.pdf_to_images_try.
    now rewrite Hm.
  - intros e Hm Hc.
    unfold PdfComparison.pdf_to_images, PdfComparison.pdf_to_images_try.
    now rewrite Hm, Hc.
  - intros images k img e Hm Hc Hk He Hb.
    assert (T : PdfComparison.pdf_to_images_try image makedirs
                  convert_from_path save_jpeg path_stem pdf_path output_dir
                  max_pages w
                = PdfComparison.save_pages image save_jpeg output_dir
                    (path_stem pdf_path) 0 images w)
      by (unfold PdfComparison.pdf_to_images_try; now rewrite Hm, Hc).
    destruct (PageFacts.pdf_to_images_raised image makedirs convert_from_path
                save_jpeg path_stem pdf_path output_dir max_pages w e)
      as [R1 R2].
    + rewrite T.
      now apply (PageFacts.save_pages_raise image save_jpeg output_dir
                   (path_stem pdf_path) e images 0 w k img).
    + split; [exact R1|]. rewrite R2, T. f_equal.
      apply PdfFacts.save_pages_spec.
Qed.

(** [compare_pdf_pair] on two PDFs of one page each, converted and saved
    without error: the model is called once with the content of the two
    page files.  The files are named after the stems of the PDFs in the one
    directory "temp_images", so when the two paths differ the model
    receives the first page and the second, in order. *)
Theorem pdf_pair_model_call (image : Type)
    (makedirs : string -> outcome unit)
    (convert_from_path : string -> nat -> outcome (list image))
    (save_jpeg : image -> string -> outcome (list Byte.byte))
    (read_error path_stem path_name : string -> string)
    (chat : string -> string -> list string -> outcome string)
    (pdf1_path pdf2_path model : string) (page1 page2 : image)
    (data1 data2 : list Byte.byte) (w : PdfComparison.world) :
  makedirs "temp_images" = Returned tt ->
  convert_from_path pdf1_path 1 = Returned [page1] ->
  convert_from_path pdf2_path 1 = Returned [page2] ->
  save_jpeg page1 (PdfPages.page_path "temp_images" (path_stem pdf1_path) 0)
  = Returned data1 ->
  save_jpeg page2 (PdfPages.page_path "temp_images" (path_stem pdf2_path) 0)
  = Returned data2 ->
  data1 <> [] -> data2 <> [] ->
  PdfPages.page_path "temp_images" (path_stem pdf1_path) 0
  <> PdfPages.page_path "temp_images" (path_stem pdf2_path) 0 ->
  PdfComparison.asked
    (PdfComparison.events
       (snd (PdfComparison.compare_pdf_pair image makedirs convert_from_path
               save_jpeg read_error path_stem path_name chat
               pdf1_path pdf2_path model w)))
  = PdfComparison.asked (PdfComparison.events w)
    ++ [Vision.Asked model
          (PdfComparison.prompt (path_name pdf1_path) (path_name pdf2_path))
          [Base64.b64encode data1; Base64.b64encode data2]].
Proof.
  intros Hm H1 H2 S1 S2 N1 N2 Hne.
  rewrite (PdfFacts.compare_pdf_pair_asked image makedirs convert_from_path
             save_jpeg read_error path_stem path_name chat
             pdf1_path pdf2_path model page1 page2 data1 data2 w);
    try assumption; now destruct (decide _).
Qed.

Lemma pdf_pair_model_call_witness :
  PdfComparison.asked
    (PdfComparison.events
       (snd (PdfComparison.compare_pdf_pair (list Byte.byte) Samples.made
               Samples.two_versions Samples.save_page Samples.missing
               Samples.stem_of_version (fun p => p) Samples.seeing
               "in/f1042_2022.pdf" "in/f1042_2023.pdf" Vision.default_model
               Samples.empty_world)))
  = PdfComparison.asked (PdfComparison.events Samples.empty_world)
    ++ [Vision.Asked Vision.default_model
          (PdfComparison.prompt "in/f1042_2022.pdf" "in/f1042_2023.pdf")
          [Base64.b64encode [Byte.x01]; Base64.b64encode [Byte.x02]]].
Proof.
  apply (pdf_pair_model_call (list Byte.byte) Samples.made
           Samples.two_versions Samples.save_page Samples.missing
           Samples.stem_of_version (fun p => p) Samples.seeing
           "in/f1042_2022.pdf" "in/f1042_2023.pdf" Vision.default_model
           [Byte.x01] [Byte.x02] [Byte.x01] [Byte.x02] Samples.empty_world);
    try reflexivity; discriminate.
Defined.

(** [compare_pdf_pair] on two PDFs of the same stem: both pages are saved
    under the same path of "temp_images", the second over the first, and
    the model receives the page of the second PDF twice; the page of the
    first never reaches it. *)
Theorem pdf_pair_same_stem (image : Type)
    (makedirs : string -> outcome unit)
    (convert_from_path : string -> nat -> outcome (list image))
    (save_jpeg : image -> string -> outcome (list Byte.byte))
    (read_error path_stem path_name : string -> string)
    (chat : string -> string -> list string -> outcome string)
    (pdf1_path pdf2_path model : string) (page1 page2 : image)
    (data1 data2 : list Byte.byte) (w : PdfComparison.world) :
  path_stem pdf1_path = path_stem pdf2_path ->
  makedirs "temp_images" = Returned tt ->
  convert_from_path pdf1_path 1 = Returned [page1] ->
  convert_from_path pdf2_path 1 = Returned [page2] ->
  save_jpeg page1 (PdfPages.page_path "temp_images" (path_stem pdf1_path) 0)
  = Returned data1 ->
  save_jpeg page2 (PdfPages.page_path "temp_images" (path_stem pdf2_path) 0)
  = Returned data2 ->
  data2 <> [] ->
  PdfComparison.asked
    (PdfComparison.events
       (snd (PdfComparison.compare_pdf_pair image makedirs convert_from_path
               save_jpeg read_error path_stem path_name chat
               pdf1_path pdf2_path model w)))
  = PdfComparison.asked (PdfComparison.events w)
    ++ [Vision.Asked model
          (PdfComparison.prompt (path_name pdf1_path) (path_name pdf2_path))
          [Base64.b64encode data2; Base64.b64encode data2]].
Proof.
  intros Hs Hm H1 H2 S1 S2 N2.
  assert (E : PdfPages.page_path "temp_images" (path_stem pdf1_path) 0
              = PdfPages.page_path "temp_images" (path_stem pdf2_path) 0)
    by now rewrite Hs.
  rewrite (PdfFacts.compare_pdf_pair_asked image makedirs convert_from_path
             save_jpeg read_error path_stem path_name chat
             pdf1_path pdf2_path model page1 page2 data1 data2 w);
    try assumption; now destruct (decide _).
Qed.

Lemma pdf_pair_same_stem_witness :
  PdfComparison.asked
    (PdfComparison.events
       (snd (PdfComparison.compare_pdf_pair (list Byte.byte) Samples.made
               Samples.two_pdfs Samples.save_page Samples.missing
               Samples.stem_f1042 (fun p => p) Samples.seeing
               "old/f1042.pdf" "new/f1042.pdf" Vision.default_model
               Samples.empty_world)))
  = PdfComparison.asked (PdfComparison.events Samples.empty_world)
    ++ [Vision.Asked Vision.default_model
          (PdfComparison.prompt "old/f1042.pdf" "new/f1042.pdf")
          [Base64.b64encode [Byte.x02]; Base64.b64encode [Byte.x02]]].
Proof.
  apply (pdf_pair_same_stem (list Byte.byte) Samples.made
           Samples.two_pdfs Samples.save_page Samples.missing
           Samples.stem_f1042 (fun p => p) Samples.seeing
           "old/f1042.pdf" "new/f1042.pdf" Vision.default_model
           [Byte.x01] [Byte.x02] [Byte.x01] [Byte.x02] Samples.empty_world);
    try reflexivity; discriminate.
Defined.

(** With two PDFs or more, [process_and_compare_pdfs] makes one comparison
    for every two files, in the order of [combinations], and hands the
    results of its loop to the output file in one write, joined by
    newlines: [n (n - 1) / 2] results for [n] files, the result for a pair
    being what [compare_pdf_pair] returns for it with the default model,
    run where the comparisons before it left the files.  The last line
    printed tells whether the write returned. *)
Theorem pdf_comparisons_written (image : Type)
    (makedirs : string -> outcome unit)
    (convert_from_path : string -> nat -> outcome (list image))
    (save_jpeg : image -> string -> outcome (list Byte.byte))
    (read_error path_stem path_name : string -> string)
    (chat : string -> string -> list string -> outcome string)
    (write_text : string -> string -> outcome unit)
    (pdf_files : list string) (output_file : string)
    (w : PdfComparison.world) :
  2 <= length pdf_files ->
  PdfComparison.events
    (snd (PdfComparison.process_and_compare_pdfs
            image makedirs convert_from_path save_jpeg read_error
            path_stem path_name chat write_text
            pdf_files output_file w))
  = PdfComparison.events
      (snd (PdfComparison.compare_pairs
              image makedirs convert_from_path save_jpeg read_error
              path_stem path_name chat (Pairs.all_pairs pdf_files) w))
    ++ [Vision.Wrote output_file
          (Py.join Py.nl
             (fst (PdfComparison.compare_pairs
                     image makedirs convert_from_path save_jpeg read_error
                     path_stem path_name chat (Pairs.all_pairs pdf_files) w)));
        Vision.Printed
          match write_text output_file
                  (Py.join Py.nl
                     (fst (PdfComparison.compare_pairs
                             image makedirs convert_from_path save_jpeg
                             read_error path_stem path_name chat
                             (Pairs.all_pairs pdf_files) w))) with
          | Returned _ => "Comparison results saved to " +:+ output_file
          | Raised e =>
            "Error saving comparison to " +:+ output_file +:+ ": " +:+ e
          end]
  /\ length (fst (PdfComparison.compare_pairs
                    image makedirs convert_from_path save_jpeg read_error
                    path_stem path_name chat (Pairs.all_pairs pdf_files) w))
     = length (Pairs.all_pairs pdf_files)
  /\ 2 * length (Pairs.all_pairs pdf_files)
     = length pdf_files * (length pdf_files - 1)
  /\ (forall pdf1 pdf2 ps w0,
        fst (PdfComparison.compare_pairs
               image makedirs convert_from_path save_jpeg read_error
               path_stem path_name chat ((pdf1, pdf2) :: ps) w0)
        = fst (PdfComparison.compare_pdf_pair
                 image makedirs convert_from_path save_jpeg read_error
                 path_stem path_name chat pdf1 pdf2 Vision.default_model
                 (PdfComparison.mk_world (PdfComparison.files w0)
                    (PdfComparison.events w0
                     ++ [Vision.Printed
                           ("Comparing " +:+ path_name pdf1 +:+ " and "
                            +:+ path_name pdf2 +:+ "...")])))
          :: fst (PdfComparison.compare_pairs
                    image makedirs convert_from_path save_jpeg read_error
                    path_stem path_name chat ps
                    (snd (PdfComparison.compare_pdf_pair
                            image makedirs convert_from_path save_jpeg
                            read_error path_stem path_name chat pdf1 pdf2
                            Vision.default_model
                            (PdfComparison.mk_world (PdfComparison.files w0)
                               (PdfComparison.events w0
                                ++ [Vision.Printed
                                      ("Comparing " +:+ path_name pdf1
                                       +:+ " and " +:+ path_name pdf2
                                       +:+ "...")]))))))
  /\ 2 * length (fst (PdfComparison.compare_pairs
                        image makedirs convert_from_path save_jpeg read_error
                        path_stem path_name chat (Pairs.all_pairs pdf_files) w))
     = length pdf_files * (length pdf_files - 1).
Proof.
  intros H.
  split; [now apply WrittenFacts.process_and_compare_pdfs_written|].
  split; [apply PdfFacts.compare_pairs_length|].
  split; [apply PairFacts.all_pairs_length|].
  split; [intros; apply WrittenFacts.compare_pairs_cons|].
  rewrite PdfFacts.compare_pairs_length. apply PairFacts.all_pairs_length.
Qed.

Lemma pdf_comparisons_written_witness :
  PdfComparison.events
    (snd (PdfComparison.process_and_compare_pdfs
            (list Byte.byte) Samples.made Samples.two_versions
            Samples.save_page Samples.missing Samples.stem_of_version
            (fun p => p) Samples.seeing (fun _ _ => Returned tt)
            ["in/f1042_2022.pdf"; "in/f1042_2023.pdf"] "out.txt"
            Samples.empty_world))
  = [Vision.Printed "Comparing in/f1042_2022.pdf and in/f1042_2023.pdf...";
     Vision.Asked Vision.default_model
       (PdfComparison.prompt "in/f1042_2022.pdf" "in/f1042_2023.pdf")
       ["AQ=="; "Ag=="];
     Vision.Wrote "out.txt"
       (Py.join Py.nl
          ["Comparison between in/f1042_2022.pdf and in/f1042_2023.pdf:"
           +:+ Py.nl +:+ "1. Header Information: none." +:+ Py.nl]);
     Vision.Printed "Comparison results saved to out.txt"].
Proof.
  destruct (pdf_comparisons_written (list Byte.byte) Samples.made
              Samples.two_versions Samples.save_page Samples.missing
              Samples.stem_of_version (fun p => p) Samples.seeing
              (fun _ _ => Returned tt)
              ["in/f1042_2022.pdf"; "in/f1042_2023.pdf"] "out.txt"
              Samples.empty_world) as [E _].
  - cbn. lia.
  - rewrite E. vm_compute. reflexivity.
Defined.

(** ** The SSN pattern *)

(** Every match of the SSN pattern of [_setup_presidio] takes exactly
    eleven characters of the text: three digits, a dash, two digits, a
    dash and four digits. *)
Theorem ssn_matches_have_shape (text : string) (i e : nat) :
  In (i, e) (Re.finditer Re.ssn_pattern text) ->
  e = i + 11
  /\ e <= String.length text
  /\ Shape.fits Shape.ssn_shape (Engine.str_slice text i e) = true.
Proof.
  intros H. apply PatternFacts.finditer_spans in H.
  destruct H as (_ & pv & H). apply PatternFacts.ssn_match in H.
  destruct H as (-> & Hf & Hl). split; [reflexivity|].
  rewrite MaskFacts.length_drop in Hl. split; [lia|].
  unfold Engine.str_slice. now replace (i + 11 - i) with 11 by lia.
Qed.

Lemma ssn_matches_have_shape_witness :
  16 = 5 + 11
  /\ 16 <= String.length "SSN: 123-45-6789"
  /\ Shape.fits Shape.ssn_shape
       (Engine.str_slice "SSN: 123-45-6789" 5 16) = true.
Proof.
  apply (ssn_matches_have_shape "SSN: 123-45-6789" 5 16).
  vm_compute. now left.
Defined.
